(** * pyspinsrc: a Spinnaker camera as a GStreamer push source

    Shallow embedding of [gst/python/pyspinsrc.py]: the [ImageAcquirer]
    camera session (device selection, node access across three node maps,
    frame acquisition) and the [PySpinSrc] element built on it (properties,
    caps application, capability probing, buffer time stamping).

    Python objects that are mutated in place (the cameras and their nodes,
    the acquirer, the element, the GStreamer log) live in one [World]; a
    method is a function from the world to a result and a new world, and an
    exception keeps every mutation made before it was raised. *)

From Stdlib Require Import QArith Qminmax Ascii String.
From stdpp Require Import base option list strings gmap pretty.

Local Open Scope string_scope.
Local Open Scope Z_scope.

(** ** Python values, exceptions *)

(** The dynamically typed values that flow through properties and nodes.
    Python floats are read as the rationals they denote (no NaN, no
    infinities). *)
Inductive Value :=
| VNone
| VBool (b : bool)
| VInt (z : Z)
| VFloat (q : Q)
| VStr (s : string).

(** Calls into the Spinnaker SDK that this model lets fail. *)
Inductive SdkCall :=
| CallInit
| CallDeInit
| CallBeginAcquisition
| CallEndAcquisition
| CallGetNextImage
| CallSetValue
| CallGetCurrentEntry
| CallNodeAccess.

Global Instance SdkCall_eq_dec : EqDecision SdkCall.
Proof. solve_decision. Defined.

(** The messages of the exceptions the source raises, kept structured
    instead of formatted. *)
Inductive Msg :=
| MsgNoDeviceInitialized                    (* "No device has been selected and initialied" *)
| MsgNoDeviceSelected                       (* "No device has been selected" *)
| MsgNodeNotAvailable (node_name : string)  (* "{node_name} node is not available" *)
| MsgUndeterminedType (node_name : string)  (* "Could not determine the type of node: ..." *)
| MsgUnknownType (node_name : string)       (* "{node_name} node is of unknown type: ..." *)
| MsgRangeNotAvailable (node_name : string) (* "Range not available for {node_name} node ..." *)
| MsgNotReadable (display_name : string)    (* "... node '{display}' is not readable" *)
| MsgNotWritable (display_name : string)    (* "... node '{display}' is not writable" *)
| MsgEntryNotAvailable (entry display_name : string)
| MsgNoStringAccess                         (* "No getter/setter implemented for string nodes" *)
| MsgNoCommandAccess                        (* "No getter/setter implemented for command nodes" *)
| MsgNoDevice (serial : option string) (index : option nat)
                                            (* "No device with serial number ... is available" *)
| MsgSdkError (c : SdkCall)                 (* "Error: {ex}" *)
| MsgUnknownProperty (name : string)        (* "unknown property %s" *)
| MsgNoneAttribute.                         (* attribute access on None *)

Inductive Exn :=
| ValueError (m : Msg)
| NotImplementedError (m : Msg)
| AttributeError (m : Msg)
| TypeError
| ZeroDivisionError
| SpinnakerException (c : SdkCall).

(** [except (ValueError, NotImplementedError)] *)
Definition is_value_or_not_implemented (e : Exn) : bool :=
  match e with
  | ValueError _ | NotImplementedError _ => true
  | _ => false
  end.

(** [except ValueError] *)
Definition is_ValueError (e : Exn) : bool :=
  match e with ValueError _ => true | _ => false end.

(** [except PySpin.SpinnakerException] *)
Definition is_SpinnakerException (e : Exn) : bool :=
  match e with SpinnakerException _ => true | _ => false end.

(** [except Exception] *)
Definition is_Exception (e : Exn) : bool := true.

Inductive Res (A : Type) :=
| Ok (a : A)
| Raise (e : Exn).
Arguments Ok {A} a.
Arguments Raise {A} e.

(** *** Built-ins on values *)

Definition Qltb (x y : Q) : bool := negb (Qle_bool y x).

(** The number a value compares as; [None] for values that do not order
    against numbers. *)
Definition num (v : Value) : option Q :=
  match v with
  | VBool b => Some (inject_Z (if b then 1 else 0))
  | VInt z => Some (inject_Z z)
  | VFloat q => Some q
  | VNone | VStr _ => None
  end.

(** [max(a, b)]: [b] when [b > a], else [a]. *)
Definition py_max (a b : Value) : Res Value :=
  match num a, num b with
  | Some x, Some y => Ok (if Qltb x y then b else a)
  | _, _ => Raise TypeError
  end.

(** [min(a, b)]: [b] when [b < a], else [a]. *)
Definition py_min (a b : Value) : Res Value :=
  match num a, num b with
  | Some x, Some y => Ok (if Qltb y x then b else a)
  | _, _ => Raise TypeError
  end.

(** [int(v)] on numbers truncates towards zero. *)
Definition py_int (v : Value) : Res Z :=
  match v with
  | VBool b => Ok (if b then 1 else 0)
  | VInt z => Ok z
  | VFloat q => Ok (Z.quot (Qnum q) (Zpos (Qden q)))
  | VNone | VStr _ => Raise TypeError
  end.

(** [float(v)] *)
Definition py_float (v : Value) : Res Q :=
  match num v with
  | Some q => Ok q
  | None => Raise TypeError
  end.

(** [bool(v)], also the truth value tested by [if v:]. *)
Definition py_bool (v : Value) : bool :=
  match v with
  | VNone => false
  | VBool b => b
  | VInt z => negb (z =? 0)
  | VFloat q => negb (Qeq_bool q 0)
  | VStr s => negb (String.eqb s "")
  end.

(** [str(v)].  A float is printed as its fraction: the decimal form Python
    prints is outside what the rational reading of floats determines. *)
Definition py_str (v : Value) : string :=
  match v with
  | VNone => "None"
  | VBool b => if b then "True" else "False"
  | VInt z => pretty z
  | VFloat q => pretty (Qnum q) +:+ "/" +:+ pretty (Zpos (Qden q))
  | VStr s => s
  end.

(** [a > b] and [a >= b] between a value and a number. *)
Definition py_gt (a : Value) (b : Q) : Res bool :=
  match num a with
  | Some x => Ok (Qltb b x)
  | None => Raise TypeError
  end.

Definition py_ge (a : Value) (b : Q) : Res bool :=
  match num a with
  | Some x => Ok (Qle_bool b x)
  | None => Raise TypeError
  end.

(** [str.lower()] *)
Definition lower_ascii (c : ascii) : ascii :=
  let n := nat_of_ascii c in
  if ((65 <=? n) && (n <=? 90))%nat then ascii_of_nat (n + 32) else c.

Fixpoint lower (s : string) : string :=
  match s with
  | EmptyString => EmptyString
  | String c s' => String (lower_ascii c) (lower s')
  end.

(** ** The Spinnaker SDK as the source uses it *)

(** GenICam access modes; [PySpin.IsAvailable], [IsReadable] and
    [IsWritable] are tests on them. *)
Inductive AccessMode := NI | NA | WO | RO | RW.

Definition mode_available (a : AccessMode) : bool :=
  match a with NI | NA => false | _ => true end.
Definition mode_readable (a : AccessMode) : bool :=
  match a with RO | RW => true | _ => false end.
Definition mode_writable (a : AccessMode) : bool :=
  match a with WO | RW => true | _ => false end.

Inductive InterfaceType :=
| intfIValue | intfIBase | intfIInteger | intfIBoolean | intfICommand
| intfIFloat | intfIString | intfIRegister | intfICategory
| intfIEnumeration | intfIEnumEntry | intfIPort.

Global Instance InterfaceType_eq_dec : EqDecision InterfaceType.
Proof. solve_decision. Defined.

Record EnumEntry := {
  entry_symbolic : string;
  entry_value : Z;
  entry_access : AccessMode;
}.

(** What a node holds, by interface kind. *)
Inductive NodeData :=
| IntegerData (min max value : Z)
| FloatData (min max value : Q)
| BooleanData (value : bool)
| EnumerationData (entries : list EnumEntry) (int_value : Z)
| StringData (value : string)
| CommandData (executions : nat)
| OtherData (t : InterfaceType).

Record Node := {
  node_display_name : string;
  node_access : AccessMode;
  (** whether the Python object has a [GetPrincipalInterfaceType] method *)
  node_has_interface_type : bool;
  node_data : NodeData;
}.

Definition GetPrincipalInterfaceType (n : Node) : InterfaceType :=
  match node_data n with
  | IntegerData _ _ _ => intfIInteger
  | FloatData _ _ _ => intfIFloat
  | BooleanData _ => intfIBoolean
  | EnumerationData _ _ => intfIEnumeration
  | StringData _ => intfIString
  | CommandData _ => intfICommand
  | OtherData t => t
  end.

Definition with_data (n : Node) (d : NodeData) : Node :=
  {| node_display_name := node_display_name n;
     node_access := node_access n;
     node_has_interface_type := node_has_interface_type n;
     node_data := d |}.

(** [numpy.ndarray]: the shape and the flat pixel data. *)
Record NDArray := {
  shape : list nat;
  pixels : list Z;
}.

Definition ndim (a : NDArray) : nat := length (shape a).

(** [np.expand_dims(a, axis=2)] on a 2-D array. *)
Definition expand_dims_axis2 (a : NDArray) : NDArray :=
  {| shape := shape a ++ [1%nat]; pixels := pixels a |}.

(** One capture as the device will deliver it. *)
Record SpinImage := {
  image_id : nat;
  image_incomplete : bool;
  image_status : Z;
  image_array : NDArray;
  image_timestamp : Z;
}.

(** One camera: its state, its three node maps, the captures it will
    deliver to the coming [GetNextImage] calls (a call on an empty queue
    times out), the count of those calls, the captures released so far, and
    the SDK calls that fail on it. *)
Record Camera := {
  cam_serial : string;
  cam_initialized : bool;
  cam_streaming : bool;
  cam_node_map : gmap string Node;
  cam_tl_device_node_map : gmap string Node;
  cam_tl_stream_node_map : gmap string Node;
  cam_pending : list SpinImage;
  cam_next_image_calls : nat;
  cam_released : list nat;
  cam_faults : list SdkCall;
}.

Definition cam_fails (c : Camera) (call : SdkCall) : bool :=
  bool_decide (call ∈ cam_faults c).

(** The three scopes a node name can resolve in. *)
Inductive Scope := DeviceScope | TLDeviceScope | TLStreamScope.

Global Instance Scope_eq_dec : EqDecision Scope.
Proof. solve_decision. Defined.

Definition scope_map (c : Camera) (s : Scope) : gmap string Node :=
  match s with
  | DeviceScope => cam_node_map c
  | TLDeviceScope => cam_tl_device_node_map c
  | TLStreamScope => cam_tl_stream_node_map c
  end.

Definition with_scope_map (c : Camera) (s : Scope) (m : gmap string Node) : Camera :=
  {| cam_serial := cam_serial c;
     cam_initialized := cam_initialized c;
     cam_streaming := cam_streaming c;
     cam_node_map := match s with DeviceScope => m | _ => cam_node_map c end;
     cam_tl_device_node_map :=
       match s with TLDeviceScope => m | _ => cam_tl_device_node_map c end;
     cam_tl_stream_node_map :=
       match s with TLStreamScope => m | _ => cam_tl_stream_node_map c end;
     cam_pending := cam_pending c;
     cam_next_image_calls := cam_next_image_calls c;
     cam_released := cam_released c;
     cam_faults := cam_faults c |}.

Definition with_status (c : Camera) (initialized streaming : bool) : Camera :=
  {| cam_serial := cam_serial c;
     cam_initialized := initialized;
     cam_streaming := streaming;
     cam_node_map := cam_node_map c;
     cam_tl_device_node_map := cam_tl_device_node_map c;
     cam_tl_stream_node_map := cam_tl_stream_node_map c;
     cam_pending := cam_pending c;
     cam_next_image_calls := cam_next_image_calls c;
     cam_released := cam_released c;
     cam_faults := cam_faults c |}.

Definition with_images (c : Camera) (pending : list SpinImage) (calls : nat)
    (released : list nat) : Camera :=
  {| cam_serial := cam_serial c;
     cam_initialized := cam_initialized c;
     cam_streaming := cam_streaming c;
     cam_node_map := cam_node_map c;
     cam_tl_device_node_map := cam_tl_device_node_map c;
     cam_tl_stream_node_map := cam_tl_stream_node_map c;
     cam_pending := pending;
     cam_next_image_calls := calls;
     cam_released := released;
     cam_faults := cam_faults c |}.

(** A [CameraPtr]: a reference to a camera of the system, or the invalid
    pointer [GetBySerial] gives for an unknown serial. *)
Inductive CameraPtr :=
| NullPtr
| CamRef (i : nat).

Definition IsValid (p : CameraPtr) : bool :=
  match p with CamRef _ => true | NullPtr => false end.

(** A node map handle and a node pointer: both alias the camera's state. *)
Record NodeMapRef := { map_cam : nat; map_scope : Scope }.
Record NodePtr := { ptr_cam : nat; ptr_scope : Scope; ptr_name : string }.

(** ** The Python objects *)

(** [ImageAcquirer]: the device list (camera references), the selected
    device and the three memoised node map handles. *)
Record ImageAcquirer := {
  _device_list : list nat;
  _current_device : option CameraPtr;
  _device_node_map : option NodeMapRef;
  _tl_device_node_map : option NodeMapRef;
  _tl_stream_node_map : option NodeMapRef;
}.

(** [GstVideo.VideoInfo], the fields the element reads. *)
Record VideoInfo := {
  finfo_name : string;
  info_width : Z;
  info_height : Z;
  fps_n : Z;
  fps_d : Z;
}.

(** One structure of the camera caps. *)
Record CapsStructure := {
  caps_type : string;
  caps_format : string;
  caps_width : Z * Z;
  caps_height : Z * Z;
  caps_framerate : Q * Q;
}.

(** The attributes of [PySpinSrc] that hold its properties. *)
Inductive Attr :=
| a_auto_exposure | a_auto_gain | a_exposure_time | a_gain | a_auto_wb
| a_wb_blue | a_wb_red | a_h_binning | a_v_binning | a_offset_x
| a_offset_y | a_num_cam_buffers | a_serial | a_user_set.

Record PySpinSrc := {
  auto_exposure : Value;
  auto_gain : Value;
  exposure_time : Value;
  gain : Value;
  auto_wb : Value;
  wb_blue : Value;
  wb_red : Value;
  h_binning : Value;
  v_binning : Value;
  offset_x : Value;
  offset_y : Value;
  num_cam_buffers : Value;
  serial : Value;
  user_set : Value;
  info : VideoInfo;
  camera_caps : option (list CapsStructure);
  timestamp_offset : Z;
  previous_timestamp : Z;
}.

(** [setattr(self, a, v)] for a property attribute. *)
Definition set_attr (a : Attr) (v : Value) (s : PySpinSrc) : PySpinSrc :=
  {| auto_exposure := match a with a_auto_exposure => v | _ => auto_exposure s end;
     auto_gain := match a with a_auto_gain => v | _ => auto_gain s end;
     exposure_time := match a with a_exposure_time => v | _ => exposure_time s end;
     gain := match a with a_gain => v | _ => gain s end;
     auto_wb := match a with a_auto_wb => v | _ => auto_wb s end;
     wb_blue := match a with a_wb_blue => v | _ => wb_blue s end;
     wb_red := match a with a_wb_red => v | _ => wb_red s end;
     h_binning := match a with a_h_binning => v | _ => h_binning s end;
     v_binning := match a with a_v_binning => v | _ => v_binning s end;
     offset_x := match a with a_offset_x => v | _ => offset_x s end;
     offset_y := match a with a_offset_y => v | _ => offset_y s end;
     num_cam_buffers := match a with a_num_cam_buffers => v | _ => num_cam_buffers s end;
     serial := match a with a_serial => v | _ => serial s end;
     user_set := match a with a_user_set => v | _ => user_set s end;
     info := info s;
     camera_caps := camera_caps s;
     timestamp_offset := timestamp_offset s;
     previous_timestamp := previous_timestamp s |}.

Definition with_camera_caps (caps : option (list CapsStructure)) (s : PySpinSrc)
    : PySpinSrc :=
  {| auto_exposure := auto_exposure s; auto_gain := auto_gain s;
     exposure_time := exposure_time s; gain := gain s; auto_wb := auto_wb s;
     wb_blue := wb_blue s; wb_red := wb_red s; h_binning := h_binning s;
     v_binning := v_binning s; offset_x := offset_x s; offset_y := offset_y s;
     num_cam_buffers := num_cam_buffers s; serial := serial s;
     user_set := user_set s; info := info s;
     camera_caps := caps;
     timestamp_offset := timestamp_offset s;
     previous_timestamp := previous_timestamp s |}.

Definition with_timestamps (offset previous : Z) (s : PySpinSrc) : PySpinSrc :=
  {| auto_exposure := auto_exposure s; auto_gain := auto_gain s;
     exposure_time := exposure_time s; gain := gain s; auto_wb := auto_wb s;
     wb_blue := wb_blue s; wb_red := wb_red s; h_binning := h_binning s;
     v_binning := v_binning s; offset_x := offset_x s; offset_y := offset_y s;
     num_cam_buffers := num_cam_buffers s; serial := serial s;
     user_set := user_set s; info := info s;
     camera_caps := camera_caps s;
     timestamp_offset := offset;
     previous_timestamp := previous |}.

Definition with_info (i : VideoInfo) (s : PySpinSrc) : PySpinSrc :=
  {| auto_exposure := auto_exposure s; auto_gain := auto_gain s;
     exposure_time := exposure_time s; gain := gain s; auto_wb := auto_wb s;
     wb_blue := wb_blue s; wb_red := wb_red s; h_binning := h_binning s;
     v_binning := v_binning s; offset_x := offset_x s; offset_y := offset_y s;
     num_cam_buffers := num_cam_buffers s; serial := serial s;
     user_set := user_set s; info := i;
     camera_caps := camera_caps s;
     timestamp_offset := timestamp_offset s;
     previous_timestamp := previous_timestamp s |}.

(** What the element writes to the GStreamer log. *)
Inductive LogMsg :=
| Text (s : string)
| NodeValue (node_name : string) (v : Value)   (* "{node_name}: {value}" *)
| Executed (node_name : string)                (* "{node_name} executed" *)
| Setting (prop_name : string) (v : Value)     (* "Setting {name} = {value}" *)
| OfExn (e : Exn)                              (* "Error: {ex}", "Warning: {ex}" *)
| ImageIncomplete (status : Z)
| SendingBuffer (shape : list nat) (ms : Z).

Inductive LogEntry :=
| GstInfo (m : LogMsg)
| GstWarning (m : LogMsg)
| GstError (m : LogMsg)
| GstLog (m : LogMsg).

(** The world: the cameras the SDK sees, whether the SDK system instance is
    held, the element, its acquirer and the log. *)
Record World := {
  cameras : list Camera;
  system_held : bool;
  image_acquirer : option ImageAcquirer;
  element : PySpinSrc;
  gst_log : list LogEntry;
}.

Definition with_cameras (cs : list Camera) (w : World) : World :=
  {| cameras := cs; system_held := system_held w;
     image_acquirer := image_acquirer w; element := element w;
     gst_log := gst_log w |}.

Definition with_system_held (b : bool) (w : World) : World :=
  {| cameras := cameras w; system_held := b;
     image_acquirer := image_acquirer w; element := element w;
     gst_log := gst_log w |}.

Definition with_acquirer (a : option ImageAcquirer) (w : World) : World :=
  {| cameras := cameras w; system_held := system_held w;
     image_acquirer := a; element := element w;
     gst_log := gst_log w |}.

Definition with_element (s : PySpinSrc) (w : World) : World :=
  {| cameras := cameras w; system_held := system_held w;
     image_acquirer := image_acquirer w; element := s;
     gst_log := gst_log w |}.

Definition with_log (l : list LogEntry) (w : World) : World :=
  {| cameras := cameras w; system_held := system_held w;
     image_acquirer := image_acquirer w; element := element w;
     gst_log := l |}.

(** ** Methods: state and exceptions *)

Definition M (A : Type) : Type := World -> Res A * World.

Definition ret {A} (a : A) : M A := fun w => (Ok a, w).

Definition raise {A} (e : Exn) : M A := fun w => (Raise e, w).

Definition bind {A B} (m : M A) (k : A -> M B) : M B :=
  fun w =>
    match m w with
    | (Ok a, w') => k a w'
    | (Raise e, w') => (Raise e, w')
    end.

Declare Scope py_scope.
Delimit Scope py_scope with py.
Notation "'let*' x ':=' m 'in' k" := (bind m (fun x => k))
  (at level 10, x pattern, m at level 100, k at level 200) : py_scope.
Notation "m ';;' k" := (bind m (fun _ => k))
  (at level 100, k at level 200, right associativity) : py_scope.
Local Open Scope py_scope.

(** [try: body / except <classes> as ex: handler] *)
Definition try_except {A} (body : M A) (classes : Exn -> bool) (handler : Exn -> M A)
    : M A :=
  fun w =>
    match body w with
    | (Raise e, w') => if classes e then handler e w' else (Raise e, w')
    | r => r
    end.

Definition lift {A} (r : Res A) : M A := fun w => (r, w).

Definition gets {A} (f : World -> A) : M A := fun w => (Ok (f w), w).

Definition modify (f : World -> World) : M unit := fun w => (Ok tt, f w).

(** [if c: body] *)
Definition when (c : bool) (body : M unit) : M unit :=
  if c then body else ret tt.

Definition Gst_info (m : LogMsg) : M unit :=
  modify (fun w => with_log (gst_log w ++ [GstInfo m]) w).
Definition Gst_warning (m : LogMsg) : M unit :=
  modify (fun w => with_log (gst_log w ++ [GstWarning m]) w).
Definition Gst_error (m : LogMsg) : M unit :=
  modify (fun w => with_log (gst_log w ++ [GstError m]) w).
Definition Gst_log (m : LogMsg) : M unit :=
  modify (fun w => with_log (gst_log w ++ [GstLog m]) w).

(** *** SDK calls on a camera *)

Definition get_camera (i : nat) : M Camera :=
  fun w =>
    match cameras w !! i with
    | Some c => (Ok c, w)
    | None => (Raise (SpinnakerException CallNodeAccess), w)
    end.

Definition update_camera (i : nat) (c : Camera) (w : World) : World :=
  with_cameras (<[i := c]> (cameras w)) w.

Definition put_camera (i : nat) (c : Camera) : M unit :=
  modify (update_camera i c).

(** The camera behind a pointer; the SDK raises on the invalid pointer. *)
Definition camera_id (p : CameraPtr) : M nat :=
  match p with
  | CamRef i => ret i
  | NullPtr => raise (SpinnakerException CallNodeAccess)
  end.

Definition IsInitialized (p : CameraPtr) : M bool :=
  let* i := camera_id p in let* c := get_camera i in ret (cam_initialized c).

Definition IsStreaming (p : CameraPtr) : M bool :=
  let* i := camera_id p in let* c := get_camera i in ret (cam_streaming c).

Definition Init (p : CameraPtr) : M unit :=
  let* i := camera_id p in
  let* c := get_camera i in
  if cam_fails c CallInit then raise (SpinnakerException CallInit)
  else put_camera i (with_status c true (cam_streaming c)).

Definition DeInit (p : CameraPtr) : M unit :=
  let* i := camera_id p in
  let* c := get_camera i in
  if cam_fails c CallDeInit then raise (SpinnakerException CallDeInit)
  else put_camera i (with_status c false (cam_streaming c)).

(** Starting needs an initialised camera that is not streaming yet. *)
Definition BeginAcquisition (p : CameraPtr) : M unit :=
  let* i := camera_id p in
  let* c := get_camera i in
  if cam_fails c CallBeginAcquisition || negb (cam_initialized c) || cam_streaming c
  then raise (SpinnakerException CallBeginAcquisition)
  else put_camera i (with_status c (cam_initialized c) true).

(** Stopping a camera that is not streaming is an SDK error. *)
Definition EndAcquisition (p : CameraPtr) : M unit :=
  let* i := camera_id p in
  let* c := get_camera i in
  if cam_fails c CallEndAcquisition || negb (cam_streaming c)
  then raise (SpinnakerException CallEndAcquisition)
  else put_camera i (with_status c (cam_initialized c) false).

(** The next capture of the queue; on an empty queue the wait times out. *)
Definition GetNextImage (p : CameraPtr) (timeout_ms : Z) : M SpinImage :=
  let* i := camera_id p in
  let* c := get_camera i in
  let calls := S (cam_next_image_calls c) in
  if cam_fails c CallGetNextImage
  then put_camera i (with_images c (cam_pending c) calls (cam_released c));;
       raise (SpinnakerException CallGetNextImage)
  else match cam_pending c with
       | [] => put_camera i (with_images c [] calls (cam_released c));;
               raise (SpinnakerException CallGetNextImage)
       | img :: rest =>
           put_camera i (with_images c rest calls (cam_released c));;
           ret img
       end.

(** [image.Release()], for a capture of camera [p]. *)
Definition Release (p : CameraPtr) (img : SpinImage) : M unit :=
  let* i := camera_id p in
  let* c := get_camera i in
  put_camera i (with_images c (cam_pending c) (cam_next_image_calls c)
                            (cam_released c ++ [image_id img])).

(** [camera.GetNodeMap()] and its transport layer siblings. *)
Definition GetNodeMapOf (s : Scope) (p : CameraPtr) : M NodeMapRef :=
  let* i := camera_id p in ret {| map_cam := i; map_scope := s |}.

(** [node_map.GetNode(name)]: a pointer to the node, or [None]. *)
Definition GetNode (m : NodeMapRef) (name : string) : M (option NodePtr) :=
  let* c := get_camera (map_cam m) in
  match scope_map c (map_scope m) !! name with
  | Some _ => ret (Some {| ptr_cam := map_cam m; ptr_scope := map_scope m;
                           ptr_name := name |})
  | None => ret None
  end.

Definition deref (p : NodePtr) : M Node :=
  let* c := get_camera (ptr_cam p) in
  match scope_map c (ptr_scope p) !! ptr_name p with
  | Some n => ret n
  | None => raise (SpinnakerException CallNodeAccess)
  end.

(** The write of one node.  What a device makes of a write in the bounds
    or the access mode of its other nodes is outside this model. *)
Definition store (p : NodePtr) (n : Node) : M unit :=
  let* c := get_camera (ptr_cam p) in
  put_camera (ptr_cam p)
    (with_scope_map c (ptr_scope p) (<[ptr_name p := n]> (scope_map c (ptr_scope p)))).

Definition IsAvailable (n : Node) : bool := mode_available (node_access n).
Definition IsReadable (n : Node) : bool := mode_readable (node_access n).
Definition IsWritable (n : Node) : bool := mode_writable (node_access n).

(** [system.GetCameras()]: references to all cameras. *)
Definition GetCameras : M (list nat) :=
  gets (fun w => seq 0 (length (cameras w))).

(** [camera_list.GetBySerial(serial)]: the first camera of the list with
    that serial, or the invalid pointer. *)
Definition GetBySerial (l : list nat) (wanted : string) : M CameraPtr :=
  gets (fun w =>
    match List.find (fun i => match cameras w !! i with
                               | Some c => String.eqb (cam_serial c) wanted
                               | None => false
                               end) l with
    | Some i => CamRef i
    | None => NullPtr
    end).

(** [camera_list.GetByIndex(index)] *)
Definition GetByIndex (l : list nat) (index : nat) : M CameraPtr :=
  match l !! index with
  | Some i => ret (CamRef i)
  | None => raise (SpinnakerException CallNodeAccess)
  end.

(** ** ImageAcquirer *)

Definition TIMEOUT_MS : Z := 2000.

(** [self], for a method of the element's acquirer. *)
Definition self_acq : M ImageAcquirer :=
  fun w =>
    match image_acquirer w with
    | Some a => (Ok a, w)
    | None => (Raise (AttributeError MsgNoneAttribute), w)
    end.

Definition put_acq (a : ImageAcquirer) : M unit :=
  modify (with_acquirer (Some a)).

(** [self._current_device], for a method call on it. *)
Definition current_device : M CameraPtr :=
  let* a := self_acq in
  match _current_device a with
  | Some p => ret p
  | None => raise (AttributeError MsgNoneAttribute)
  end.

Definition set_device_list (l : list nat) (a : ImageAcquirer) : ImageAcquirer :=
  {| _device_list := l;
     _current_device := _current_device a;
     _device_node_map := _device_node_map a;
     _tl_device_node_map := _tl_device_node_map a;
     _tl_stream_node_map := _tl_stream_node_map a |}.

Definition set_current_device (d : option CameraPtr) (a : ImageAcquirer)
    : ImageAcquirer :=
  {| _device_list := _device_list a;
     _current_device := d;
     _device_node_map := _device_node_map a;
     _tl_device_node_map := _tl_device_node_map a;
     _tl_stream_node_map := _tl_stream_node_map a |}.

Definition set_node_map_cache (s : Scope) (m : option NodeMapRef) (a : ImageAcquirer)
    : ImageAcquirer :=
  {| _device_list := _device_list a;
     _current_device := _current_device a;
     _device_node_map :=
       match s with DeviceScope => m | _ => _device_node_map a end;
     _tl_device_node_map :=
       match s with TLDeviceScope => m | _ => _tl_device_node_map a end;
     _tl_stream_node_map :=
       match s with TLStreamScope => m | _ => _tl_stream_node_map a end |}.

(** [ImageAcquirer.__init__], bound to the element's [image_acquirer]. *)
Definition ImageAcquirer_init : M unit :=
  modify (with_system_held true);;
  let* l := GetCameras in
  modify (with_acquirer (Some {| _device_list := l;
                                 _current_device := None;
                                 _device_node_map := None;
                                 _tl_device_node_map := None;
                                 _tl_stream_node_map := None |})).

Definition update_device_list : M unit :=
  let* l := GetCameras in
  let* a := self_acq in
  put_acq (set_device_list l a).

Definition get_device_count (update_list : bool) : M nat :=
  when update_list update_device_list;;
  let* a := self_acq in
  ret (length (_device_list a)).

Definition _reset_cam : M unit :=
  let* a := self_acq in
  match _current_device a with
  | Some p =>
      when (IsValid p)
        (let* streaming := IsStreaming p in
         when streaming (EndAcquisition p);;
         let* initialized := IsInitialized p in
         when initialized (DeInit p))
  | None => ret tt
  end;;
  let* a := self_acq in
  put_acq {| _device_list := _device_list a;
             _current_device := None;
             _device_node_map := None;
             _tl_device_node_map := None;
             _tl_stream_node_map := None |}.

(** [ImageAcquirer.__del__] *)
Definition ImageAcquirer_del : M unit :=
  _reset_cam;;
  let* a := self_acq in
  put_acq (set_device_list [] a);;
  modify (with_system_held false).

Definition end_acquisition : M unit :=
  try_except
    (let* p := current_device in EndAcquisition p)
    is_SpinnakerException
    (fun ex => match ex with
               | SpinnakerException c => raise (ValueError (MsgSdkError c))
               | _ => raise ex
               end).

(** The first candidate that is valid, [None] without one. *)
Definition first_valid (candidate_devices : list CameraPtr) : option CameraPtr :=
  List.find IsValid candidate_devices.

(** [init_device].  The index is a natural number, as [GetByIndex] takes an
    unsigned one; the element passes [0] or [None]. *)
Definition init_device (device_serial : option string) (device_index : option nat)
    : M bool :=
  _reset_cam;;
  update_device_list;;
  let* a := self_acq in
  let* by_serial :=
    match device_serial with
    | Some s => let* d := GetBySerial (_device_list a) s in ret [d]
    | None => ret []
    end in
  let* by_index :=
    match device_index with
    | Some i =>
        let* count := get_device_count false in
        if (i <? count)%nat
        then let* d := GetByIndex (_device_list a) i in ret [d]
        else ret []
    | None => ret []
    end in
  let candidate_devices := (by_serial ++ by_index)%list in
  let* a := self_acq in
  put_acq (set_current_device (first_valid candidate_devices) a);;
  match first_valid candidate_devices with
  | None => raise (ValueError (MsgNoDevice device_serial device_index))
  | Some p =>
      Init p;;
      try_except end_acquisition is_ValueError (fun _ => ret tt);;
      ret true
  end.

(** *** Node maps and node lookup *)

Definition _get_device_node_map : M NodeMapRef :=
  let* a := self_acq in
  match _current_device a with
  | None => raise (ValueError MsgNoDeviceInitialized)
  | Some p =>
      if negb (IsValid p) then raise (ValueError MsgNoDeviceInitialized)
      else
        let* initialized := IsInitialized p in
        if negb initialized then raise (ValueError MsgNoDeviceInitialized)
        else match _device_node_map a with
             | Some m => ret m
             | None =>
                 let* m := GetNodeMapOf DeviceScope p in
                 put_acq (set_node_map_cache DeviceScope (Some m) a);;
                 ret m
             end
  end.

Definition _get_tl_device_node_map : M NodeMapRef :=
  let* a := self_acq in
  match _current_device a with
  | None => raise (ValueError MsgNoDeviceSelected)
  | Some p =>
      if negb (IsValid p) then raise (ValueError MsgNoDeviceSelected)
      else match _tl_device_node_map a with
           | Some m => ret m
           | None =>
               let* m := GetNodeMapOf TLDeviceScope p in
               put_acq (set_node_map_cache TLDeviceScope (Some m) a);;
               ret m
           end
  end.

Definition _get_tl_stream_node_map : M NodeMapRef :=
  let* a := self_acq in
  match _current_device a with
  | None => raise (ValueError MsgNoDeviceSelected)
  | Some p =>
      if negb (IsValid p) then raise (ValueError MsgNoDeviceSelected)
      else match _tl_stream_node_map a with
           | Some m => ret m
           | None =>
               let* m := GetNodeMapOf TLStreamScope p in
               put_acq (set_node_map_cache TLStreamScope (Some m) a);;
               ret m
           end
  end.

Definition _get_node (node_name : string) : M (option NodePtr) :=
  let* dm := _get_device_node_map in
  let* device_node := GetNode dm node_name in
  match device_node with
  | Some n => ret (Some n)
  | None =>
      let* tdm := _get_tl_device_node_map in
      let* tl_device_node := GetNode tdm node_name in
      match tl_device_node with
      | Some n => ret (Some n)
      | None =>
          let* tsm := _get_tl_stream_node_map in
          let* tl_stream_node := GetNode tsm node_name in
          match tl_stream_node with
          | Some n => ret (Some n)
          | None => ret None
          end
      end
  end.

Definition node_available (node_name : string) : M bool :=
  let* node := _get_node node_name in
  match node with
  | None => ret false
  | Some p => let* n := deref p in ret (IsAvailable n)
  end.

(** *** Typed node access *)

(** A typed pointer used on a node of another kind is an SDK error. *)
Definition bad_cast {A} : M A := raise (SpinnakerException CallNodeAccess).

Definition _get_int_node_val (int_node : NodePtr) : M Value :=
  let* n := deref int_node in
  if negb (IsAvailable n) || negb (IsReadable n)
  then raise (ValueError (MsgNotReadable (node_display_name n)))
  else match node_data n with
       | IntegerData _ _ v => ret (VInt v)
       | _ => bad_cast
       end.

Definition _get_int_node_range (int_node : NodePtr) : M (Value * Value) :=
  let* n := deref int_node in
  if negb (IsAvailable n) || negb (IsReadable n)
  then raise (ValueError (MsgNotWritable (node_display_name n)))
  else match node_data n with
       | IntegerData lo hi _ => ret (VInt lo, VInt hi)
       | _ => bad_cast
       end.

(** [int_node.SetValue(v)]: the SDK rejects a value outside the bounds. *)
Definition Integer_SetValue (int_node : NodePtr) (v : Z) : M unit :=
  let* n := deref int_node in
  match node_data n with
  | IntegerData lo hi _ =>
      if (lo <=? v) && (v <=? hi)
      then store int_node (with_data n (IntegerData lo hi v))
      else raise (SpinnakerException CallSetValue)
  | _ => bad_cast
  end.

Definition _set_int_node_val (int_node : NodePtr) (value : Value) : M unit :=
  let* n := deref int_node in
  if negb (IsAvailable n) || negb (IsWritable n)
  then raise (ValueError (MsgNotWritable (node_display_name n)))
  else match node_data n with
       | IntegerData lo hi _ =>
           let* value := lift (py_max value (VInt lo)) in
           let* value := lift (py_min value (VInt hi)) in
           let* z := lift (py_int value) in
           Integer_SetValue int_node z
       | _ => bad_cast
       end.

Definition _get_float_node_val (float_node : NodePtr) : M Value :=
  let* n := deref float_node in
  if negb (IsAvailable n) || negb (IsReadable n)
  then raise (ValueError (MsgNotReadable (node_display_name n)))
  else match node_data n with
       | FloatData _ _ v => ret (VFloat v)
       | _ => bad_cast
       end.

Definition _get_float_node_range (float_node : NodePtr) : M (Value * Value) :=
  let* n := deref float_node in
  if negb (IsAvailable n) || negb (IsReadable n)
  then raise (ValueError (MsgNotReadable (node_display_name n)))
  else match node_data n with
       | FloatData lo hi _ => ret (VFloat lo, VFloat hi)
       | _ => bad_cast
       end.

(** [float_node.SetValue(v)]: the SDK rejects a value outside the bounds. *)
Definition Float_SetValue (float_node : NodePtr) (v : Q) : M unit :=
  let* n := deref float_node in
  match node_data n with
  | FloatData lo hi _ =>
      if Qle_bool lo v && Qle_bool v hi
      then store float_node (with_data n (FloatData lo hi v))
      else raise (SpinnakerException CallSetValue)
  | _ => bad_cast
  end.

Definition _set_float_node_val (float_node : NodePtr) (value : Value) : M unit :=
  let* n := deref float_node in
  if negb (IsAvailable n) || negb (IsWritable n)
  then raise (ValueError (MsgNotWritable (node_display_name n)))
  else match node_data n with
       | FloatData lo hi _ =>
           let* value := lift (py_max value (VFloat lo)) in
           let* value := lift (py_min value (VFloat hi)) in
           let* q := lift (py_float value) in
           Float_SetValue float_node q
       | _ => bad_cast
       end.

Definition _get_bool_node_val (bool_node : NodePtr) : M Value :=
  let* n := deref bool_node in
  if negb (IsAvailable n) || negb (IsReadable n)
  then raise (ValueError (MsgNotReadable (node_display_name n)))
  else match node_data n with
       | BooleanData b => ret (VBool b)
       | _ => bad_cast
       end.

Definition _set_bool_node_val (bool_node : NodePtr) (value : Value) : M unit :=
  let* n := deref bool_node in
  if negb (IsAvailable n) || negb (IsWritable n)
  then raise (ValueError (MsgNotWritable (node_display_name n)))
  else match node_data n with
       | BooleanData _ => store bool_node (with_data n (BooleanData (py_bool value)))
       | _ => bad_cast
       end.

Definition _get_available_enum_entries (enum_node : NodePtr) : M (list string) :=
  let* n := deref enum_node in
  if negb (IsAvailable n) || negb (IsReadable n)
  then raise (ValueError (MsgNotReadable (node_display_name n)))
  else match node_data n with
       | EnumerationData entries _ =>
           ret (entry_symbolic <$>
                  List.filter (fun pf => mode_available (entry_access pf)) entries)
       | _ => bad_cast
       end.

(** [enum_node.GetCurrentEntry()]: the entry holding the node's integer
    value. *)
Definition GetCurrentEntry (entries : list EnumEntry) (int_value : Z) : M EnumEntry :=
  match List.find (fun e => entry_value e =? int_value) entries with
  | Some e => ret e
  | None => raise (SpinnakerException CallGetCurrentEntry)
  end.

(** [enum_node.GetEntryByName(name)] *)
Definition GetEntryByName (entries : list EnumEntry) (name : string)
    : option EnumEntry :=
  List.find (fun e => String.eqb (entry_symbolic e) name) entries.

Definition _get_enum_node_val (enum_node : NodePtr) : M Value :=
  let* n := deref enum_node in
  if negb (IsAvailable n) || negb (IsReadable n)
  then raise (ValueError (MsgNotReadable (node_display_name n)))
  else match node_data n with
       | EnumerationData entries v =>
           let* e := GetCurrentEntry entries v in ret (VStr (entry_symbolic e))
       | _ => bad_cast
       end.

Definition _set_enum_node_val (enum_node : NodePtr) (value : Value) : M unit :=
  let* n := deref enum_node in
  if negb (IsAvailable n) || negb (IsWritable n)
  then raise (ValueError (MsgNotWritable (node_display_name n)))
  else match node_data n with
       | EnumerationData entries _ =>
           match GetEntryByName entries (py_str value) with
           | Some enum_entry =>
               if negb (mode_available (entry_access enum_entry))
                  || negb (mode_readable (entry_access enum_entry))
               then raise (ValueError (MsgEntryNotAvailable (py_str value)
                                         (node_display_name n)))
               else store enum_node
                      (with_data n (EnumerationData entries (entry_value enum_entry)))
           | None => raise (ValueError (MsgEntryNotAvailable (py_str value)
                                          (node_display_name n)))
           end
       | _ => bad_cast
       end.

Definition _execute_command_node (node_name : string) : M unit :=
  let* node := _get_node node_name in
  match node with
  | None => bad_cast
  | Some command_node =>
      let* n := deref command_node in
      if negb (IsAvailable n) || negb (IsWritable n)
      then raise (ValueError (MsgNotWritable node_name))
      else match node_data n with
           | CommandData k => store command_node (with_data n (CommandData (S k)))
           | _ => bad_cast
           end
  end.

(** *** Access by node name *)

Definition get_node_val (node_name : string) : M Value :=
  let* node := _get_node node_name in
  match node with
  | None => raise (ValueError (MsgNodeNotAvailable node_name))
  | Some p =>
      let* n := deref p in
      if negb (node_has_interface_type n)
      then raise (ValueError (MsgUndeterminedType node_name))
      else match GetPrincipalInterfaceType n with
           | intfIInteger => _get_int_node_val p
           | intfIFloat => _get_float_node_val p
           | intfIBoolean => _get_bool_node_val p
           | intfIEnumeration => _get_enum_node_val p
           | intfIString => raise (NotImplementedError MsgNoStringAccess)
           | intfICommand => raise (NotImplementedError MsgNoCommandAccess)
           | _ => raise (ValueError (MsgUnknownType node_name))
           end
  end.

Definition set_node_val (node_name : string) (value : Value) : M unit :=
  let* node := _get_node node_name in
  match node with
  | None => raise (ValueError (MsgNodeNotAvailable node_name))
  | Some p =>
      let* n := deref p in
      if negb (node_has_interface_type n)
      then raise (ValueError (MsgUndeterminedType node_name))
      else match GetPrincipalInterfaceType n with
           | intfIInteger => _set_int_node_val p value
           | intfIFloat => _set_float_node_val p value
           | intfIBoolean => _set_bool_node_val p value
           | intfIEnumeration => _set_enum_node_val p value
           | intfIString => raise (NotImplementedError MsgNoStringAccess)
           | intfICommand => raise (NotImplementedError MsgNoCommandAccess)
           | _ => raise (ValueError (MsgUnknownType node_name))
           end
  end.

Definition execute_node (node_name : string) : M unit :=
  let* node := _get_node node_name in
  match node with
  | None => raise (ValueError (MsgNodeNotAvailable node_name))
  | Some p =>
      let* n := deref p in
      if negb (node_has_interface_type n)
      then raise (ValueError (MsgUndeterminedType node_name))
      else match GetPrincipalInterfaceType n with
           | intfICommand => _execute_command_node node_name
           | _ => raise (ValueError (MsgUnknownType node_name))
           end
  end.

Definition get_node_range (node_name : string) : M (Value * Value) :=
  let* node := _get_node node_name in
  match node with
  | None => raise (ValueError (MsgNodeNotAvailable node_name))
  | Some p =>
      let* n := deref p in
      if negb (node_has_interface_type n)
      then raise (ValueError (MsgUndeterminedType node_name))
      else match GetPrincipalInterfaceType n with
           | intfIInteger => _get_int_node_range p
           | intfIFloat => _get_float_node_range p
           | _ => raise (ValueError (MsgRangeNotAvailable node_name))
           end
  end.

Definition get_node_entries (node_name : string) : M (list string) :=
  let* node := _get_node node_name in
  match node with
  | None => raise (ValueError (MsgNodeNotAvailable node_name))
  | Some p =>
      let* n := deref p in
      if negb (node_has_interface_type n)
      then raise (ValueError (MsgUndeterminedType node_name))
      else match GetPrincipalInterfaceType n with
           | intfIEnumeration => _get_available_enum_entries p
           | _ => raise (ValueError (MsgRangeNotAvailable node_name))
           end
  end.

Definition start_acquisition : M unit :=
  set_node_val "AcquisitionMode" (VStr "Continuous");;
  try_except
    (let* p := current_device in BeginAcquisition p)
    is_SpinnakerException
    (fun ex => match ex with
               | SpinnakerException c => raise (ValueError (MsgSdkError c))
               | _ => raise ex
               end).

(** *** The frame pump *)

(** One round of the [while] loop of [get_next_image] and the rounds after
    it: [rounds] bounds them; [get_next_image] below starts it with more
    rounds than the device has captures queued, so that the bound is never
    what ends the loop. *)
Fixpoint next_complete_image (rounds : nat) (logger : option (LogMsg -> M unit))
    : M SpinImage :=
  match rounds with
  | O => raise (SpinnakerException CallGetNextImage)
  | S rounds' =>
      let* p := current_device in
      let* spinnaker_image := GetNextImage p TIMEOUT_MS in
      if image_incomplete spinnaker_image
      then
        match logger with
        | Some log => log (ImageIncomplete (image_status spinnaker_image))
        | None => ret tt
        end;;
        Release p spinnaker_image;;
        next_complete_image rounds' logger
      else ret spinnaker_image
  end.

(** The captures queued on the selected device. *)
Definition queued_captures (w : World) : nat :=
  match image_acquirer w with
  | Some a =>
      match _current_device a with
      | Some (CamRef i) =>
          match cameras w !! i with
          | Some c => length (cam_pending c)
          | None => O
          end
      | _ => O
      end
  | None => O
  end.

Definition get_next_image (logger : option (LogMsg -> M unit)) : M (NDArray * Z) :=
  let* queued := gets queued_captures in
  let* spinnaker_image := next_complete_image (S queued) logger in
  let image_array := image_array spinnaker_image in
  let image_array :=
    if (ndim image_array =? 2)%nat then expand_dims_axis2 image_array
    else image_array in
  let image_timestamp := image_timestamp spinnaker_image in
  let* p := current_device in
  Release p spinnaker_image;;
  ret (image_array, image_timestamp).

(** ** PySpinSrc *)

Definition DEFAULT_AUTO_EXPOSURE := VBool true.
Definition DEFAULT_AUTO_GAIN := VBool true.
Definition DEFAULT_EXPOSURE_TIME := VInt (-1).
Definition DEFAULT_GAIN := VInt (-1).
Definition DEFAULT_AUTO_WB := VBool true.
Definition DEFAULT_WB_BLUE := VInt (-1).
Definition DEFAULT_WB_RED := VInt (-1).
Definition DEFAULT_H_BINNING := VInt 1.
Definition DEFAULT_V_BINNING := VInt 1.
Definition DEFAULT_OFFSET_X := VInt 0.
Definition DEFAULT_OFFSET_Y := VInt 0.
Definition DEFAULT_NUM_BUFFERS := VInt 10.
Definition DEFAULT_SERIAL_NUMBER := VNone.
Definition DEFAULT_USER_SET := VStr "Default".

Definition MILLISECONDS_PER_NANOSECOND : Z := 1000000.

(** The keys of [__gproperties__], in the order of the source. *)
Definition gproperties : list string :=
  ["auto-exposure"; "auto-gain"; "exposure"; "gain"; "auto-wb";
   "wb-blue-ratio"; "wb-red-ratio"; "h-binning"; "v-binning"; "offset-x";
   "offset-y"; "num-image-buffers"; "serial"; "user-set"].

Record PixelFormatType := {
  cap_type : string;
  gst : string;
  genicam : string;
}.

Definition RAW_CAP_TYPE := "video/x-raw".
Definition BAYER_CAP_TYPE := "video/x-bayer".

Definition SUPPORTED_PIXEL_FORMATS : list PixelFormatType :=
  [ {| cap_type := RAW_CAP_TYPE; gst := "GRAY8"; genicam := "Mono8" |};
    {| cap_type := RAW_CAP_TYPE; gst := "UYVY"; genicam := "YUV422Packed" |};
    {| cap_type := RAW_CAP_TYPE; gst := "YUY2"; genicam := "YCbCr422_8" |};
    {| cap_type := RAW_CAP_TYPE; gst := "RGB"; genicam := "RGB8" |};
    {| cap_type := RAW_CAP_TYPE; gst := "BGR"; genicam := "BGR8" |};
    {| cap_type := BAYER_CAP_TYPE; gst := "rggb"; genicam := "BayerRG8" |};
    {| cap_type := BAYER_CAP_TYPE; gst := "gbrg"; genicam := "BayerGB8" |};
    {| cap_type := BAYER_CAP_TYPE; gst := "bggr"; genicam := "BayerBG8" |};
    {| cap_type := BAYER_CAP_TYPE; gst := "grbg"; genicam := "BayerGR8" |} ].

(** [PySpinSrc.__init__]: the element as constructed. *)
Definition PySpinSrc_init : PySpinSrc :=
  {| auto_exposure := DEFAULT_AUTO_EXPOSURE;
     auto_gain := DEFAULT_AUTO_GAIN;
     exposure_time := DEFAULT_EXPOSURE_TIME;
     gain := DEFAULT_GAIN;
     auto_wb := DEFAULT_AUTO_WB;
     wb_blue := DEFAULT_WB_BLUE;
     wb_red := DEFAULT_WB_RED;
     h_binning := DEFAULT_H_BINNING;
     v_binning := DEFAULT_V_BINNING;
     offset_x := DEFAULT_OFFSET_X;
     offset_y := DEFAULT_OFFSET_Y;
     num_cam_buffers := DEFAULT_NUM_BUFFERS;
     serial := DEFAULT_SERIAL_NUMBER;
     user_set := DEFAULT_USER_SET;
     info := {| finfo_name := ""; info_width := 0; info_height := 0;
                fps_n := 0; fps_d := 1 |};
     camera_caps := None;
     timestamp_offset := 0;
     previous_timestamp := 0 |}.

Definition do_get_property (prop_name : string) : M Value :=
  let* self := gets element in
  if String.eqb prop_name "auto-exposure" then ret (auto_exposure self)
  else if String.eqb prop_name "auto-gain" then ret (auto_gain self)
  else if String.eqb prop_name "exposure" then ret (exposure_time self)
  else if String.eqb prop_name "gain" then ret (gain self)
  else if String.eqb prop_name "auto-wb" then ret (auto_wb self)
  else if String.eqb prop_name "wb-red-ratio" then ret (wb_red self)
  else if String.eqb prop_name "h-binning" then ret (h_binning self)
  else if String.eqb prop_name "v-binning" then ret (v_binning self)
  else if String.eqb prop_name "offset-x" then ret (offset_x self)
  else if String.eqb prop_name "offset-y" then ret (offset_y self)
  else if String.eqb prop_name "num-image-buffers" then ret (num_cam_buffers self)
  else if String.eqb prop_name "serial" then ret (serial self)
  else if String.eqb prop_name "user-set" then ret (user_set self)
  else raise (AttributeError (MsgUnknownProperty prop_name)).

Definition setattr (a : Attr) (value : Value) : M unit :=
  modify (fun w => with_element (set_attr a value (element w)) w).

Definition do_set_property (prop_name : string) (value : Value) : M unit :=
  Gst_info (Setting prop_name value);;
  if String.eqb prop_name "auto-exposure" then setattr a_auto_exposure value
  else if String.eqb prop_name "auto-gain" then setattr a_auto_gain value
  else if String.eqb prop_name "exposure" then setattr a_exposure_time value
  else if String.eqb prop_name "gain" then setattr a_gain value
  else if String.eqb prop_name "auto-wb" then setattr a_auto_wb value
  else if String.eqb prop_name "wb-blue-ratio" then setattr a_wb_blue value
  else if String.eqb prop_name "wb-red-ratio" then setattr a_wb_red value
  else if String.eqb prop_name "h-binning" then setattr a_h_binning value
  else if String.eqb prop_name "v-binning" then setattr a_v_binning value
  else if String.eqb prop_name "offset-x" then setattr a_offset_x value
  else if String.eqb prop_name "offset-y" then setattr a_offset_y value
  else if String.eqb prop_name "num-image-buffers" then setattr a_num_cam_buffers value
  else if String.eqb prop_name "serial" then setattr a_serial value
  else if String.eqb prop_name "user-set" then setattr a_user_set value
  else raise (AttributeError (MsgUnknownProperty prop_name)).

Definition get_format_from_genicam (genicam_format : string) : option PixelFormatType :=
  List.find (fun f => String.eqb (lower (genicam f)) (lower genicam_format))
            SUPPORTED_PIXEL_FORMATS.

Definition get_format_from_gst (gst_format : string) : option PixelFormatType :=
  List.find (fun f => String.eqb (lower (gst f)) (lower gst_format))
            SUPPORTED_PIXEL_FORMATS.

Definition cam_node_available (node_name : string) : M bool :=
  try_except (node_available node_name)
    is_value_or_not_implemented
    (fun ex => Gst_warning (OfExn ex);; ret false).

Definition get_cam_node_val (node_name : string) : M Value :=
  try_except (get_node_val node_name)
    is_value_or_not_implemented
    (fun ex => Gst_warning (OfExn ex);; ret VNone).

Definition set_cam_node_val (node_name : string) (value : Value) (log_value : bool)
    : M unit :=
  try_except
    (set_node_val node_name value;;
     when log_value
       (let* v := get_node_val node_name in Gst_info (NodeValue node_name v)))
    is_value_or_not_implemented
    (fun ex => Gst_warning (OfExn ex)).

Definition execute_cam_node (node_name : string) (log_execution : bool) : M unit :=
  try_except
    (execute_node node_name;;
     when log_execution (Gst_info (Executed node_name)))
    is_value_or_not_implemented
    (fun ex => Gst_warning (OfExn ex)).

Definition get_cam_node_entries (node_name : string) : M (list string) :=
  try_except (get_node_entries node_name)
    is_value_or_not_implemented
    (fun ex => Gst_warning (OfExn ex);; ret []).

Definition get_cam_node_range (node_name : string) : M (Value * Value) :=
  try_except (get_node_range node_name)
    is_value_or_not_implemented
    (fun ex => Gst_warning (OfExn ex);; ret (VNone, VNone)).

(** [a / b] on integers: true division. *)
Definition py_truediv (a b : Z) : Res Value :=
  if b =? 0 then Raise ZeroDivisionError
  else Ok (VFloat (Qred (inject_Z a / inject_Z b))).

Definition apply_caps_to_cam : M bool :=
  Gst_info (Text "Applying caps.");;
  try_except
    (let* self := gets element in
     let* genicam_format :=
       match get_format_from_gst (finfo_name (info self)) with
       | Some f => ret (genicam f)
       | None => raise (AttributeError MsgNoneAttribute)
       end in
     set_cam_node_val "PixelFormat" (VStr genicam_format) true;;
     set_cam_node_val "Height" (VInt (info_height (info self))) true;;
     set_cam_node_val "Width" (VInt (info_width (info self))) true;;
     set_cam_node_val "OffsetY" (offset_y self) true;;
     set_cam_node_val "OffsetX" (offset_x self) true;;
     let* enable := cam_node_available "AcquisitionFrameRateEnable" in
     (if enable
      then set_cam_node_val "AcquisitionFrameRateEnable" (VBool true) true
      else set_cam_node_val "AcquisitionFrameRateAuto" (VStr "Off") true;;
           set_cam_node_val "AcquisitionFrameRateEnabled" (VBool true) true);;
     let* rate := lift (py_truediv (fps_n (info self)) (fps_d (info self))) in
     set_cam_node_val "AcquisitionFrameRate" rate true;;
     ret true)
    is_value_or_not_implemented
    (fun ex => Gst_error (OfExn ex);; ret false).

Definition apply_properties_to_cam : M bool :=
  Gst_info (Text "Applying properties");;
  try_except
    (let* self := gets element in
     set_cam_node_val "UserSetSelector" (user_set self) true;;
     execute_cam_node "UserSetLoad" true;;
     set_cam_node_val "StreamBufferHandlingMode" (VStr "OldestFirst") true;;
     set_cam_node_val "StreamBufferCountMode" (VStr "Manual") true;;
     set_cam_node_val "StreamBufferCountManual" (num_cam_buffers self) true;;
     let* c := lift (py_gt (h_binning self) 1) in
     when c (set_cam_node_val "BinningHorizontal" (h_binning self) true);;
     let* c := lift (py_gt (v_binning self) 1) in
     when c (set_cam_node_val "BinningVertical" (v_binning self) true);;
     let* c := lift (py_ge (exposure_time self) 0) in
     when c (set_cam_node_val "ExposureAuto" (VStr "Off") true;;
             set_cam_node_val "ExposureTime" (exposure_time self) true);;
     when (py_bool (auto_exposure self))
       (set_cam_node_val "ExposureAuto" (VStr "Continuous") true);;
     let* c := lift (py_ge (gain self) 0) in
     when c (set_cam_node_val "GainAuto" (VStr "Off") true;;
             set_cam_node_val "Gain" (gain self) true);;
     when (py_bool (auto_gain self))
       (set_cam_node_val "GainAuto" (VStr "Continuous") true);;
     let* wb := cam_node_available "BalanceWhiteAuto" in
     when wb
       (let* c := lift (py_ge (wb_blue self) 0) in
        when c (set_cam_node_val "BalanceWhiteAuto" (VStr "Off") true;;
                set_cam_node_val "BalanceRatioSelector" (VStr "Blue") true;;
                set_cam_node_val "BalanceRatio" (wb_blue self) true);;
        let* c := lift (py_ge (wb_red self) 0) in
        when c (set_cam_node_val "BalanceWhiteAuto" (VStr "Off") true;;
                set_cam_node_val "BalanceRatioSelector" (VStr "Red") true;;
                set_cam_node_val "BalanceRatio" (wb_red self) true);;
        when (py_bool (auto_wb self))
          (set_cam_node_val "BalanceWhiteAuto" (VStr "Continuous") true));;
     ret true)
    is_Exception
    (fun ex => Gst_error (OfExn ex);; ret false).

(** [range(a, b)]: both arguments must be integers. *)
Definition py_range (a b : Value) : Res (Z * Z) :=
  match a, b with
  | (VInt _ | VBool _), (VInt _ | VBool _) =>
      match py_int a, py_int b with
      | Ok x, Ok y => Ok (x, y)
      | _, _ => Raise TypeError
      end
  | _, _ => Raise TypeError
  end.

(** [Gst.util_double_to_fraction(v)]: the argument must be a number. *)
Definition double_to_fraction (v : Value) : Res Q := py_float v.

(** The body of the [for] loop of [get_camera_caps], for each format in
    turn; the caps gathered so far are threaded through.  The arguments of
    [Gst.Structure] are evaluated in the order written: the two [range]
    calls, then the two fractions.  [Gst.IntRange] and [Gst.FractionRange]
    are read as plain pairs. *)
Fixpoint probe_formats (formats : list PixelFormatType) (camera_caps : list CapsStructure)
    : M (list CapsStructure) :=
  match formats with
  | [] => ret camera_caps
  | pixel_format :: rest =>
      set_cam_node_val "PixelFormat" (VStr (genicam pixel_format)) false;;
      let* (width_min, width_max) := get_cam_node_range "Width" in
      let* (height_min, height_max) := get_cam_node_range "Height" in
      let* (fr_min, fr_max) := get_cam_node_range "AcquisitionFrameRate" in
      let* width := lift (py_range width_min width_max) in
      let* height := lift (py_range height_min height_max) in
      let* fmin := lift (double_to_fraction fr_min) in
      let* fmax := lift (double_to_fraction fr_max) in
      probe_formats rest
        (camera_caps ++ [{| caps_type := cap_type pixel_format;
                            caps_format := gst pixel_format;
                            caps_width := width;
                            caps_height := height;
                            caps_framerate := (fmin, fmax) |}])
  end.

Definition get_camera_caps : M (list CapsStructure) :=
  let* starting_pixel_format := get_cam_node_val "PixelFormat" in
  let* genicam_formats := get_cam_node_entries "PixelFormat" in
  let supported_pixel_formats := get_format_from_genicam <$> genicam_formats in
  let supported_pixel_formats := omap id supported_pixel_formats in
  let* camera_caps := probe_formats supported_pixel_formats [] in
  set_cam_node_val "PixelFormat" starting_pixel_format false;;
  ret camera_caps.

Definition start_streaming : M bool :=
  let* applied := apply_caps_to_cam in
  if negb applied then ret false
  else
    try_except
      (start_acquisition;;
       Gst_info (Text "Acquisition Started");;
       ret true)
      is_ValueError
      (fun ex => Gst_error (OfExn ex);; ret false).

(** [do_set_caps]: [i] is the video info the caps parse to. *)
Definition do_set_caps (i : VideoInfo) : M bool :=
  Gst_info (Text "Setting caps");;
  modify (fun w => with_element (with_info i (element w)) w);;
  start_streaming.

(** [do_start], for an element that has no acquirer bound yet: binding
    the new acquirer drops none, so no [__del__] runs. *)
Definition do_start : M bool :=
  Gst_info (Text "Starting");;
  try_except
    (ImageAcquirer_init;;
     let* self := gets element in
     let* device_serial :=
       match serial self with
       | VNone => ret None
       | VStr s => ret (Some s)
       | _ => raise TypeError
       end in
     let* opened :=
       init_device device_serial
         (match serial self with VNone => Some O | _ => None end) in
     if negb opened then ret false
     else
       let* applied := apply_properties_to_cam in
       if negb applied then ret false
       else
         let* caps := get_camera_caps in
         modify (fun w => with_element (with_camera_caps (Some caps) (element w)) w);;
         ret true)
    is_Exception
    (fun ex => Gst_error (OfExn ex);; ret false).

(** [do_stop]: [del self.image_acquirer] runs the acquirer's [__del__],
    and Python drops (reports, but does not propagate) an exception raised
    by a [__del__].  An element without an acquirer is read as one whose
    attribute is gone, as after a first [do_stop]; on a new element the
    attribute holds [None] and the [del] passes without a log entry. *)
Definition do_stop : M bool :=
  Gst_info (Text "Stopping");;
  try_except
    (let* _ := self_acq in
     try_except ImageAcquirer_del is_Exception (fun _ => ret tt);;
     modify (with_acquirer None))
    is_Exception
    (fun ex => Gst_error (OfExn ex));;
  ret true.

(** A [Gst.Buffer]: the frame memory, presentation time and duration.
    The two stamps are [guint64] fields; they are integers here, which is
    the same as long as no stamp is negative. *)
Record Buffer := {
  buf_data : NDArray;
  pts : Z;
  duration : Z;
}.

Inductive FlowReturn := FLOW_OK | FLOW_ERROR.

(** [do_gst_push_src_fill].  The copy into the frame memory and the
    assignments of the two stamps are taken to pass. *)
Definition do_gst_push_src_fill (buffer : Buffer) : M (FlowReturn * Buffer) :=
  try_except
    (let* (image, image_timestamp_ns) := get_next_image (Some Gst_warning) in
     let* self := gets element in
     when (timestamp_offset self =? 0)
       (modify (fun w => with_element
                  (with_timestamps image_timestamp_ns image_timestamp_ns (element w)) w));;
     let* self := gets element in
     let buffer := {| buf_data := image;
                      pts := image_timestamp_ns - timestamp_offset self;
                      duration := image_timestamp_ns - previous_timestamp self |} in
     modify (fun w => with_element
               (with_timestamps (timestamp_offset (element w)) image_timestamp_ns
                  (element w)) w);;
     Gst_log (SendingBuffer (shape image) (pts buffer / MILLISECONDS_PER_NANOSECOND));;
     ret (FLOW_OK, buffer))
    is_Exception
    (fun ex => Gst_error (OfExn ex);; ret (FLOW_ERROR, buffer)).

(** ** Vocabulary of the statements *)

(** The acquirer [a] of the world has camera [i] selected. *)
Definition selected (a : ImageAcquirer) (i : nat) (w : World) : Prop :=
  image_acquirer w = Some a /\ _current_device a = Some (CamRef i).

(** The logger [get_next_image] is called with: [Gst.warning] by the
    element, [None] by default. *)
Definition logger_of (b : bool) : option (LogMsg -> M unit) :=
  if b then Some Gst_warning else None.

Definition incomplete_warnings (b : bool) (imgs : list SpinImage) : list LogEntry :=
  if b then (fun im => GstWarning (ImageIncomplete (image_status im))) <$> imgs
  else [].

(** The array [get_next_image] returns for a capture. *)
Definition returned_array (img : SpinImage) : NDArray :=
  if (ndim (image_array img) =? 2)%nat then expand_dims_axis2 (image_array img)
  else image_array img.

Definition complete (im : SpinImage) : Prop := image_incomplete im = false.

Definition blank_buffer : Buffer :=
  {| buf_data := {| shape := []; pixels := [] |}; pts := 0; duration := 0 |}.

(** The streaming host's loop: [n] calls of the fill function, each on a
    blank buffer. *)
Fixpoint fill_frames (n : nat) : M (list (FlowReturn * Buffer)) :=
  match n with
  | O => ret []
  | S n' =>
      let* r := do_gst_push_src_fill blank_buffer in
      let* rs := fill_frames n' in
      ret (r :: rs)
  end.

(** What the host sees of a filled buffer. *)
Definition stamp (r : FlowReturn * Buffer) : FlowReturn * Z * Z :=
  (fst r, pts (snd r), duration (snd r)).

(** The order in which the spec resolves a node name: the first of the
    device, transport layer device and transport layer stream scopes that
    has the name. *)
Definition scope_order : list Scope := [DeviceScope; TLDeviceScope; TLStreamScope].

Definition first_scope_with (c : Camera) (name : string) : option Scope :=
  List.find (fun s => bool_decide (is_Some (scope_map c s !! name))) scope_order.

Definition node_ptr (i : nat) (s : Scope) (name : string) : NodePtr :=
  {| ptr_cam := i; ptr_scope := s; ptr_name := name |}.

Definition node_map_ref (i : nat) (s : Scope) : NodeMapRef :=
  {| map_cam := i; map_scope := s |}.

Definition cache_of (a : ImageAcquirer) (s : Scope) : option NodeMapRef :=
  match s with
  | DeviceScope => _device_node_map a
  | TLDeviceScope => _tl_device_node_map a
  | TLStreamScope => _tl_stream_node_map a
  end.

(** The acquirer has camera [i] open, and a memoised node map handle is a
    handle of that camera. *)
Definition ready (i : nat) (w : World) : Prop :=
  exists a, image_acquirer w = Some a
            /\ _current_device a = Some (CamRef i)
            /\ forall s m, cache_of a s = Some m -> m = node_map_ref i s.

(** [w'] differs from [w] in the acquirer's memoised handles at most. *)
Definition same_devices (w w' : World) : Prop :=
  cameras w' = cameras w /\ system_held w' = system_held w
  /\ element w' = element w /\ gst_log w' = gst_log w.

(** The value a typed read of node [n] gives: the number, the truth value,
    or the symbolic name of the current entry. *)
Definition node_value (n : Node) : option Value :=
  match node_data n with
  | IntegerData _ _ v => Some (VInt v)
  | FloatData _ _ v => Some (VFloat v)
  | BooleanData b => Some (VBool b)
  | EnumerationData entries v =>
      (fun e => VStr (entry_symbolic e))
        <$> List.find (fun e => entry_value e =? v) entries
  | _ => None
  end.

(** The typed getter [get_node_val] dispatches to for a node of kind [t]. *)
Definition typed_getter (t : InterfaceType) : option (NodePtr -> M Value) :=
  match t with
  | intfIInteger => Some _get_int_node_val
  | intfIFloat => Some _get_float_node_val
  | intfIBoolean => Some _get_bool_node_val
  | intfIEnumeration => Some _get_enum_node_val
  | _ => None
  end.

(** The typed setter [set_node_val] dispatches to for a node of kind [t]. *)
Definition typed_setter (t : InterfaceType) : option (NodePtr -> Value -> M unit) :=
  match t with
  | intfIInteger => Some _set_int_node_val
  | intfIFloat => Some _set_float_node_val
  | intfIBoolean => Some _set_bool_node_val
  | intfIEnumeration => Some _set_enum_node_val
  | _ => None
  end.

(** The world after [node] is stored at [p], a node of camera [c]. *)
Definition stored (w : World) (p : NodePtr) (c : Camera) (node : Node) : World :=
  update_camera (ptr_cam p)
    (with_scope_map c (ptr_scope p)
       (<[ptr_name p := node]> (scope_map c (ptr_scope p)))) w.

(** The offset after each of the first [n] frames of a session is the one
    the first frame left. *)
Definition offset_set_once (w : World) (n : nat) : Prop :=
  forall k, (1 <= k <= n)%nat ->
    timestamp_offset (element (snd (fill_frames k w)))
    = timestamp_offset (element (snd (fill_frames 1 w))).

(** Setting a property and reading it back. *)
Definition set_then_get (prop_name : string) (value : Value) : M Value :=
  do_set_property prop_name value;; do_get_property prop_name.

(** The acquirer after [_reset_cam]: no device, no memoised node maps. *)
Definition reset_acquirer (a : ImageAcquirer) : ImageAcquirer :=
  {| _device_list := _device_list a;
     _current_device := None;
     _device_node_map := None;
     _tl_device_node_map := None;
     _tl_stream_node_map := None |}.

(** Camera [k] of [cams] put in the given state. *)
Definition set_status (initialized streaming : bool) (k : nat) (cams : list Camera)
    : list Camera :=
  match cams !! k with
  | Some c => <[k := with_status c initialized streaming]> cams
  | None => cams
  end.

(** The spec's close of the prior handle: its camera ends up neither
    streaming nor initialised. *)
Definition close_prior (a : ImageAcquirer) (cams : list Camera) : list Camera :=
  match _current_device a with
  | Some (CamRef j) => set_status false false j cams
  | _ => cams
  end.

(** The spec's candidate resolution: the camera with the given serial, if
    a serial is given and a camera has it; otherwise the camera at the given
    index, if an index is given and in range. *)
Definition serial_match (cams : list Camera) (s : string) : option nat :=
  fst <$> list_find (fun c => cam_serial c = s) cams.

Definition resolve_device (cams : list Camera) (device_serial : option string)
    (device_index : option nat) : option nat :=
  match device_serial ≫= serial_match cams with
  | Some j => Some j
  | None =>
      match device_index with
      | Some k => if decide (k < length cams)%nat then Some k else None
      | None => None
      end
  end.

(** The acquirer after [init_device] has listed [n] cameras and selected
    [d]. *)
Definition opened_acquirer (a : ImageAcquirer) (n : nat) (d : option CameraPtr)
    : ImageAcquirer :=
  set_current_device d (set_device_list (seq 0 n) (reset_acquirer a)).

(** The system level resources are released: the SDK instance is given
    back and the acquirer's device list is cleared. *)
Definition system_resources_released (w : World) : Prop :=
  system_held w = false /\ _device_list <$> image_acquirer w = Some [].

(** The result of a method run, when it is not an exception. *)
Definition fst_ok {A} (r : Res A * World) : option A :=
  match fst r with
  | Ok x => Some x
  | Raise _ => None
  end.

(** A method that never raises what [except (ValueError,
    NotImplementedError)] catches. *)
Definition quiet {A} (m : M A) : Prop :=
  forall w e, fst (m w) = Raise e -> is_value_or_not_implemented e = false.

(** A method whose only result is [True]. *)
Definition returns_true (m : M bool) : Prop :=
  forall w b, fst (m w) = Ok b -> b = true.

(** No SDK call fails on any camera. *)
Definition fault_free (cams : list Camera) : Prop :=
  Forall (fun c => cam_faults c = []) cams.

(** ** Example devices *)

Definition mk_node (display : string) (access : AccessMode) (d : NodeData) : Node :=
  {| node_display_name := display; node_access := access;
     node_has_interface_type := true; node_data := d |}.

Definition mk_entry (name : string) (v : Z) : EnumEntry :=
  {| entry_symbolic := name; entry_value := v; entry_access := RW |}.

(** A colour camera idling on RGB8 at 720x540. *)
Definition demo_device_nodes : gmap string Node :=
  list_to_map
    [ ("PixelFormat",
       mk_node "Pixel Format" RW
         (EnumerationData [mk_entry "Mono8" 0; mk_entry "RGB8" 1] 1));
      ("Width", mk_node "Width" RW (IntegerData 8 1440 720));
      ("Height", mk_node "Height" RW (IntegerData 6 1080 540));
      ("OffsetX", mk_node "Offset X" RW (IntegerData 0 0 0));
      ("OffsetY", mk_node "Offset Y" RW (IntegerData 0 0 0));
      ("AcquisitionFrameRateEnable",
       mk_node "Acquisition Frame Rate Enable" RW (BooleanData false));
      ("AcquisitionFrameRate",
       mk_node "Acquisition Frame Rate" RW (FloatData 1 60 30));
      ("AcquisitionMode",
       mk_node "Acquisition Mode" RW
         (EnumerationData [mk_entry "Continuous" 0; mk_entry "SingleFrame" 1] 1));
      ("DeviceSerialNumber",
       mk_node "Device Serial Number" RO (StringData "18475994")) ].

Definition demo_tl_device_nodes : gmap string Node :=
  list_to_map
    [ ("DeviceSerialNumber",
       mk_node "Device Serial Number" RO (StringData "18475994"));
      ("DeviceLinkSpeed", mk_node "Device Link Speed" RO (IntegerData 0 5000 5000)) ].

Definition demo_tl_stream_nodes : gmap string Node :=
  list_to_map
    [ ("StreamBufferCountManual",
       mk_node "Stream Buffer Count Manual" RW (IntegerData 1 50 10)) ].

Definition demo_camera : Camera :=
  {| cam_serial := "18475994";
     cam_initialized := true;
     cam_streaming := false;
     cam_node_map := demo_device_nodes;
     cam_tl_device_node_map := demo_tl_device_nodes;
     cam_tl_stream_node_map := demo_tl_stream_nodes;
     cam_pending := [];
     cam_next_image_calls := 0;
     cam_released := [];
     cam_faults := [] |}.

(** The demo camera with one of its device nodes replaced. *)
Definition with_device_node (name : string) (n : Node) (c : Camera) : Camera :=
  with_scope_map c DeviceScope (<[name := n]> (cam_node_map c)).

(** The demo camera with captures queued, streaming. *)
Definition streaming_camera (pending : list SpinImage) : Camera :=
  with_images (with_status demo_camera true true) pending 0 [].

Definition with_faults (faults : list SdkCall) (c : Camera) : Camera :=
  {| cam_serial := cam_serial c;
     cam_initialized := cam_initialized c;
     cam_streaming := cam_streaming c;
     cam_node_map := cam_node_map c;
     cam_tl_device_node_map := cam_tl_device_node_map c;
     cam_tl_stream_node_map := cam_tl_stream_node_map c;
     cam_pending := cam_pending c;
     cam_next_image_calls := cam_next_image_calls c;
     cam_released := cam_released c;
     cam_faults := faults |}.

Definition with_serial (s : string) (c : Camera) : Camera :=
  {| cam_serial := s;
     cam_initialized := cam_initialized c;
     cam_streaming := cam_streaming c;
     cam_node_map := cam_node_map c;
     cam_tl_device_node_map := cam_tl_device_node_map c;
     cam_tl_stream_node_map := cam_tl_stream_node_map c;
     cam_pending := cam_pending c;
     cam_next_image_calls := cam_next_image_calls c;
     cam_released := cam_released c;
     cam_faults := cam_faults c |}.

(** A 2x2 mono capture. *)
Definition capture (id : nat) (incomplete : bool) (t : Z) : SpinImage :=
  {| image_id := id;
     image_incomplete := incomplete;
     image_status := if incomplete then 9 else 0;
     image_array := {| shape := [2%nat; 2%nat]; pixels := [0; 0; 0; 0] |};
     image_timestamp := t |}.

(** An acquirer that has camera [i] of [n] selected. *)
Definition acquirer_on (n i : nat) : ImageAcquirer :=
  {| _device_list := seq 0 n;
     _current_device := Some (CamRef i);
     _device_node_map := None;
     _tl_device_node_map := None;
     _tl_stream_node_map := None |}.

(** A freshly constructed element whose acquirer has opened camera 0 of
    [cams]. *)
Definition opened_world (cams : list Camera) : World :=
  {| cameras := cams;
     system_held := true;
     image_acquirer := Some (acquirer_on (length cams) 0);
     element := PySpinSrc_init;
     gst_log := [] |}.

(** The state of the [PixelFormat] node of camera 0. *)
Definition pixel_format_of (w : World) : option NodeData :=
  c ← cameras w !! 0%nat; n ← cam_node_map c !! "PixelFormat"; Some (node_data n).

(** Caps for 640x480 GRAY8 at 30 frames per second. *)
Definition vga_gray8 : VideoInfo :=
  {| finfo_name := "GRAY8"; info_width := 640; info_height := 480;
     fps_n := 30; fps_d := 1 |}.
(** A session whose first capture carries device time zero. *)
Definition zero_start_world : World :=
  opened_world [streaming_camera [capture 0 false 0; capture 1 false 5]].

(** A session of three captures at 100, 250 and 400. *)
Definition three_frame_world : World :=
  opened_world [streaming_camera [capture 0 false 100; capture 1 false 250;
                                  capture 2 false 400]].

(** A session that delivers two incomplete captures before a complete one. *)
Definition retry_world : World :=
  opened_world [streaming_camera [capture 0 true 10; capture 1 true 20;
                                  capture 2 false 30]].

(** Camera 0 is streaming under the prior handle; camera 1 has serial "B". *)
Definition two_camera_world : World :=
  {| cameras := [streaming_camera []; with_serial "B" demo_camera];
     system_held := true;
     image_acquirer := Some (acquirer_on 2 0);
     element := PySpinSrc_init;
     gst_log := [] |}.

(** The streaming camera has been unplugged: stopping it is an SDK error. *)
Definition unplugged_world : World :=
  opened_world [with_faults [CallEndAcquisition] (streaming_camera [])].

(** The demo camera while its [Width] node is not available. *)
Definition width_unavailable_camera : Camera :=
  with_device_node "Width" (mk_node "Width" NA (IntegerData 8 1440 720)) demo_camera.

(** The demo camera with a fixed, read-only [Width]. *)
Definition width_read_only_camera : Camera :=
  with_device_node "Width" (mk_node "Width" RO (IntegerData 8 1440 720)) demo_camera.

(** The demo camera whose transport layer device map holds a [Width] node
    of its own, behind the device node of that name. *)
Definition shadowed_width_camera : Camera :=
  with_scope_map demo_camera TLDeviceScope
    (<["Width" := mk_node "Width" RW (IntegerData 0 64 64)]> demo_tl_device_nodes).

(** An element before [do_start]: no acquirer, the cameras not initialised. *)
Definition unstarted_world (cams : list Camera) : World :=
  {| cameras := (fun c => with_status c false false) <$> cams;
     system_held := false;
     image_acquirer := None;
     element := PySpinSrc_init;
     gst_log := [] |}.

(** The value of an Integer node of the device scope of camera 0. *)
Definition integer_value_of (name : string) (w : World) : option Z :=
  c ← cameras w !! 0%nat;
  n ← cam_node_map c !! name;
  match node_data n with
  | IntegerData _ _ v => Some v
  | _ => None
  end.

(** The demo camera when the SDK refuses to start the acquisition. *)
Definition busy_camera : Camera := with_faults [CallBeginAcquisition] demo_camera.

(** ** Vocabulary of the further properties *)

(** Setting one property and reading another. *)
Definition set_then_get_other (set_name get_name : string) (value : Value) : M Value :=
  do_set_property set_name value;; do_get_property get_name.

(** The node a name resolves to on camera [c], as the spec orders the
    scopes. *)
Definition resolved_node (c : Camera) (name : string) : option Node :=
  s ← first_scope_with c name; scope_map c s !! name.

(** Camera [c] with [node] put where [name] resolves. *)
Definition with_resolved_node (c : Camera) (name : string) (node : Node) : Camera :=
  match first_scope_with c name with
  | Some s => with_scope_map c s (<[name := node]> (scope_map c s))
  | None => c
  end.

(** Setting a node by name and reading it back. *)
Definition set_then_get_node (name : string) (value : Value) : M Value :=
  set_node_val name value;; get_node_val name.


(** Method [m] run in [w] raises [e] and leaves cameras, element and log as
    they were. *)
Definition fails_with {A} (m : M A) (w : World) (e : Exn) : Prop :=
  fst (m w) = Raise e /\ same_devices w (snd (m w)).

(** The interface kinds with typed read and write access. *)
Definition value_kind (t : InterfaceType) : bool :=
  match t with
  | intfIInteger | intfIFloat | intfIBoolean | intfIEnumeration => true
  | _ => false
  end.

(** The number [_set_float_node_val] writes: [min(max(v, lo), hi)]. *)
Definition clamp_float (lo hi v : Q) : Q :=
  let raised := if Qltb v lo then lo else v in
  if Qltb hi raised then hi else raised.


(** Method [m] never changes what [f] observes of the world. *)
Definition preserves {A X} (f : World -> X) (m : M A) : Prop :=
  forall w, f (snd (m w)) = f w.

(** The fourteen property values of the element, in the order of
    [__gproperties__]. *)
Definition settings (s : PySpinSrc) : list Value :=
  [auto_exposure s; auto_gain s; exposure_time s; gain s; auto_wb s; wb_blue s;
   wb_red s; h_binning s; v_binning s; offset_x s; offset_y s; num_cam_buffers s;
   serial s; user_set s].

(** The timestamp baseline of the element. *)
Definition baseline (s : PySpinSrc) : Z * Z :=
  (timestamp_offset s, previous_timestamp s).

(** What a session shares with its surroundings: the cameras, the SDK
    instance and the element. *)
Definition devices (w : World) : list Camera * bool * PySpinSrc :=
  (cameras w, system_held w, element w).

(** An observation of the world that reads the element only. *)
Definition of_element {X} (g : PySpinSrc -> X) (w : World) : X := g (element w).




(** The [serial] property that asks for the device [wanted], or for the
    first device. *)
Definition serial_value (wanted : option string) : Value :=
  match wanted with
  | Some s => VStr s
  | None => VNone
  end.

(** The index [do_start] passes to [init_device]. *)
Definition start_index (wanted : option string) : option nat :=
  match wanted with
  | Some _ => None
  | None => Some O
  end.

(** Method [m] run in [w] answers [x] after one warning about [e], and
    leaves cameras and element as they were. *)
Definition warns {A} (m : M A) (w : World) (e : Exn) (x : A) : Prop :=
  fst (m w) = Ok x
  /\ cameras (snd (m w)) = cameras w
  /\ element (snd (m w)) = element w
  /\ gst_log (snd (m w)) = (gst_log w ++ [GstWarning (OfExn e)])%list.




(** * Proofs *)

(** Unfolds the plumbing of a method, leaving the reads of the world. *)
Ltac run_method := cbv [bind ret raise gets modify when lift try_except].

Lemma bind_eq {A B} (m : M A) (k : A -> M B) w :
  bind m k w = match m w with (Ok a, w') => k a w' | (Raise e, w') => (Raise e, w') end.
Proof. reflexivity. Qed.

Lemma bind_ok {A B} (m : M A) (k : A -> M B) w a w' :
  m w = (Ok a, w') -> bind m k w = k a w'.
Proof. intros H. unfold bind. by rewrite H. Qed.

Lemma bind_raise {A B} (m : M A) (k : A -> M B) w e w' :
  m w = (Raise e, w') -> bind m k w = (Raise e, w').
Proof. intros H. unfold bind. by rewrite H. Qed.

(** ** Running the SDK calls of a session *)

Section Session.
Variables (a : ImageAcquirer) (i : nat).

Lemma current_device_selected w :
  selected a i w -> current_device w = (Ok (CamRef i), w).
Proof.
  intros [Ha Hd]. unfold current_device, self_acq, bind. rewrite Ha. by rewrite Hd.
Qed.

Lemma selected_update_camera w c : selected a i w -> selected a i (update_camera i c w).
Proof. by intros [Ha Hd]. Qed.

Lemma selected_with_log w l : selected a i w -> selected a i (with_log l w).
Proof. by intros [Ha Hd]. Qed.

Lemma get_camera_lookup w j c :
  cameras w !! j = Some c -> get_camera j w = (Ok c, w).
Proof. intros H. unfold get_camera. by rewrite H. Qed.

Lemma lookup_update_camera w j c c' :
  cameras w !! j = Some c -> cameras (update_camera j c' w) !! j = Some c'.
Proof.
  intros H. simpl. apply list_lookup_insert_eq. by eapply lookup_lt_Some.
Qed.

Lemma update_camera_twice w j c c' :
  update_camera j c (update_camera j c' w) = update_camera j c w.
Proof. unfold update_camera, with_cameras. simpl. by rewrite list_insert_insert_eq. Qed.

Lemma GetNextImage_delivers w c img rest :
  cameras w !! i = Some c ->
  cam_fails c CallGetNextImage = false ->
  cam_pending c = img :: rest ->
  GetNextImage (CamRef i) TIMEOUT_MS w
  = (Ok img, update_camera i (with_images c rest (S (cam_next_image_calls c))
                                          (cam_released c)) w).
Proof.
  intros Hc Hf Hp. unfold GetNextImage.
  cbn [camera_id]. unfold bind at 1. cbn [ret].
  rewrite bind_eq, (get_camera_lookup _ _ _ Hc), Hf, Hp. reflexivity.
Qed.

Lemma Release_records w c img :
  cameras w !! i = Some c ->
  Release (CamRef i) img w
  = (Ok tt, update_camera i (with_images c (cam_pending c) (cam_next_image_calls c)
                                         (cam_released c ++ [image_id img])) w).
Proof.
  intros Hc. unfold Release. cbn [camera_id]. unfold bind at 1. cbn [ret].
  rewrite bind_eq, (get_camera_lookup _ _ _ Hc). reflexivity.
Qed.

Lemma with_log_nil w : with_log (gst_log w ++ []) w = w.
Proof. destruct w. unfold with_log. simpl. by rewrite app_nil_r. Qed.

Lemma run_logger b im w :
  match logger_of b with
  | Some log => log (ImageIncomplete (image_status im))
  | None => ret tt
  end w = (Ok tt, with_log (gst_log w ++ incomplete_warnings b [im]) w).
Proof.
  destruct b; simpl; [reflexivity |]. unfold ret. by rewrite with_log_nil.
Qed.

(** The loop skips the incomplete captures at the head of the queue,
    releasing each, and stops at the first complete one. *)
Lemma next_complete_image_skips b (incompletes : list SpinImage) :
  forall w c (good : SpinImage) (rest : list SpinImage) rounds,
  selected a i w ->
  cameras w !! i = Some c ->
  cam_fails c CallGetNextImage = false ->
  cam_pending c = (incompletes ++ good :: rest)%list ->
  Forall (fun im => image_incomplete im = true) incompletes ->
  image_incomplete good = false ->
  (length incompletes < rounds)%nat ->
  next_complete_image rounds (logger_of b) w
  = (Ok good,
     with_log (gst_log w ++ incomplete_warnings b incompletes)
       (update_camera i
          (with_images c rest
             (cam_next_image_calls c + S (length incompletes))
             (cam_released c ++ (image_id <$> incompletes))) w)).
Proof.
  induction incompletes as [|im ims IH];
    intros w c good rest rounds Hsel Hc Hf Hp Hinc Hgood Hr;
    (destruct rounds as [|rounds]; [simpl in Hr; lia |]); cbn [next_complete_image].
  - rewrite (bind_ok _ _ _ _ _ (current_device_selected w Hsel)).
    rewrite (bind_ok _ _ _ _ _ (GetNextImage_delivers w c good rest Hc Hf Hp)).
    rewrite Hgood. unfold ret.
    destruct w, c, b; unfold with_log, update_camera, with_cameras, with_images; simpl;
      rewrite ?app_nil_r, Nat.add_1_r; reflexivity.
  - apply Forall_cons in Hinc as [Him Hims].
    rewrite (bind_ok _ _ _ _ _ (current_device_selected w Hsel)).
    rewrite (bind_ok _ _ _ _ _
               (GetNextImage_delivers w c im (ims ++ good :: rest)%list Hc Hf Hp)).
    rewrite Him.
    rewrite (bind_ok _ _ _ _ _ (run_logger b im _)).
    set (c1 := with_images c (ims ++ good :: rest)%list (S (cam_next_image_calls c))
                           (cam_released c)).
    set (w2 := with_log _ _).
    assert (Hc2 : cameras w2 !! i = Some c1).
    { subst w2. simpl. apply list_lookup_insert_eq. by eapply lookup_lt_Some. }
    rewrite (bind_ok _ _ _ _ _ (Release_records w2 c1 im Hc2)).
    set (c3 := with_images c1 _ _ _).
    set (w3 := update_camera i c3 w2).
    assert (Hc3 : cameras w3 !! i = Some c3).
    { subst w3. eapply lookup_update_camera; eauto. }
    rewrite (IH w3 c3 good rest rounds); try done.
    + f_equal. subst w3 c3 w2 c1.
      destruct w, c, b; unfold with_log, update_camera, with_cameras, with_images; simpl;
        rewrite !list_insert_insert_eq, <- ?app_assoc; simpl;
        repeat f_equal; lia.
    + simpl in Hr. lia.
Qed.

Lemma GetNextImage_raises w c :
  cameras w !! i = Some c ->
  cam_fails c CallGetNextImage = true \/ cam_pending c = [] ->
  GetNextImage (CamRef i) TIMEOUT_MS w
  = (Raise (SpinnakerException CallGetNextImage),
     update_camera i (with_images c (cam_pending c) (S (cam_next_image_calls c))
                                  (cam_released c)) w).
Proof.
  intros Hc Hf. unfold GetNextImage. cbn [camera_id]. unfold bind at 1. cbn [ret].
  rewrite bind_eq, (get_camera_lookup _ _ _ Hc).
  destruct (cam_fails c CallGetNextImage) eqn:E; [reflexivity |].
  destruct Hf as [? | ->]; [done | reflexivity].
Qed.

(** Whatever ends the loop, the captures it took from the queue are
    released, except the complete one it returns. *)
Lemma next_complete_image_releases b (pending : list SpinImage) :
  forall w c rounds,
  selected a i w ->
  cameras w !! i = Some c ->
  cam_pending c = pending ->
  (length pending < rounds)%nat ->
  exists (consumed : list SpinImage) c',
    selected a i (snd (next_complete_image rounds (logger_of b) w))
    /\ cameras (snd (next_complete_image rounds (logger_of b) w)) !! i = Some c'
    /\ cam_pending c = (consumed ++ cam_pending c')%list
    /\ match fst (next_complete_image rounds (logger_of b) w) with
       | Ok img =>
           image_incomplete img = false
           /\ exists skipped : list SpinImage,
               consumed = (skipped ++ [img])%list
               /\ cam_released c' = (cam_released c ++ (image_id <$> skipped))%list
       | Raise _ => cam_released c' = (cam_released c ++ (image_id <$> consumed))%list
       end.
Proof.
  induction pending as [|im rest IH]; intros w c rounds Hsel Hc Hp Hr;
    (destruct rounds as [|rounds]; [simpl in Hr; lia |]); cbn [next_complete_image];
    rewrite (bind_ok _ _ _ _ _ (current_device_selected w Hsel)).
  - rewrite (bind_raise _ _ _ _ _ (GetNextImage_raises w c Hc (or_intror Hp))).
    exists [], (with_images c (cam_pending c) (S (cam_next_image_calls c)) (cam_released c)).
    cbn [fst snd]. split_and!.
    + by apply selected_update_camera.
    + by eapply lookup_update_camera.
    + reflexivity.
    + simpl. by rewrite app_nil_r.
  - destruct (cam_fails c CallGetNextImage) eqn:Hf.
    { rewrite (bind_raise _ _ _ _ _ (GetNextImage_raises w c Hc (or_introl Hf))).
      exists [], (with_images c (cam_pending c) (S (cam_next_image_calls c))
                              (cam_released c)).
      cbn [fst snd]. split_and!.
      + by apply selected_update_camera.
      + by eapply lookup_update_camera.
      + reflexivity.
      + simpl. by rewrite app_nil_r. }
    rewrite (bind_ok _ _ _ _ _ (GetNextImage_delivers w c im rest Hc Hf Hp)).
    set (c1 := with_images c rest (S (cam_next_image_calls c)) (cam_released c)).
    destruct (image_incomplete im) eqn:Him.
    + rewrite (bind_ok _ _ _ _ _ (run_logger b im _)).
      set (w2 := with_log _ _).
      assert (Hc2 : cameras w2 !! i = Some c1).
      { subst w2. simpl. apply list_lookup_insert_eq. by eapply lookup_lt_Some. }
      rewrite (bind_ok _ _ _ _ _ (Release_records w2 c1 im Hc2)).
      set (c3 := with_images c1 _ _ _).
      set (w3 := update_camera i c3 w2).
      assert (Hc3 : cameras w3 !! i = Some c3).
      { subst w3. eapply lookup_update_camera; eauto. }
      destruct (IH w3 c3 rounds) as (consumed & c' & Hsel' & Hc' & Hq & Hres);
        [done | done | done | simpl in Hr; lia |].
      exists (im :: consumed), c'. split_and!; [done | done | |].
      * rewrite Hp. simpl in Hq. by rewrite Hq.
      * destruct (fst (next_complete_image rounds (logger_of b) w3)).
        -- destruct Hres as (Hgood & skipped & -> & Hrel). split; [done |].
           exists (im :: skipped). split; [done |].
           rewrite Hrel. simpl. by rewrite <- app_assoc.
        -- rewrite Hres. simpl. by rewrite <- app_assoc.
    + exists [im], c1. cbn [fst snd ret]. split_and!.
      * by apply selected_update_camera.
      * by eapply lookup_update_camera.
      * by rewrite Hp.
      * exact Him.
      * exists []. simpl. by rewrite app_nil_r.
Qed.

Lemma queued_captures_selected w c :
  selected a i w -> cameras w !! i = Some c ->
  queued_captures w = length (cam_pending c).
Proof. intros [Ha Hd] Hc. unfold queued_captures. by rewrite Ha, Hd, Hc. Qed.

Lemma get_next_image_scripted b w c (incompletes : list SpinImage)
    (good : SpinImage) (rest : list SpinImage) :
  selected a i w ->
  cameras w !! i = Some c ->
  cam_fails c CallGetNextImage = false ->
  cam_pending c = (incompletes ++ good :: rest)%list ->
  Forall (fun im => image_incomplete im = true) incompletes ->
  image_incomplete good = false ->
  get_next_image (logger_of b) w
  = (Ok (returned_array good, image_timestamp good),
     with_log (gst_log w ++ incomplete_warnings b incompletes)
       (update_camera i
          (with_images c rest
             (cam_next_image_calls c + S (length incompletes))
             (cam_released c ++ (image_id <$> incompletes) ++ [image_id good])) w)).
Proof.
  intros Hsel Hc Hf Hp Hinc Hgood. unfold get_next_image.
  unfold bind at 1. unfold gets at 1.
  rewrite (queued_captures_selected w c Hsel Hc).
  assert (Hr : (length incompletes < S (length (cam_pending c)))%nat)
    by (rewrite Hp, length_app; simpl; lia).
  rewrite (bind_ok _ _ _ _ _
             (next_complete_image_skips b incompletes w c good rest _
                Hsel Hc Hf Hp Hinc Hgood Hr)).
  set (c1 := with_images c rest _ _).
  set (w1 := with_log _ _).
  assert (Hsel1 : selected a i w1) by (subst w1; by destruct Hsel).
  assert (Hc1 : cameras w1 !! i = Some c1).
  { subst w1. simpl. apply list_lookup_insert_eq. by eapply lookup_lt_Some. }
  rewrite (bind_ok _ _ _ _ _ (current_device_selected w1 Hsel1)).
  rewrite (bind_ok _ _ _ _ _ (Release_records w1 c1 good Hc1)).
  unfold ret, returned_array. f_equal. subst w1 c1.
  destruct w, c; unfold with_log, update_camera, with_cameras, with_images; simpl.
  by rewrite list_insert_insert_eq, <- app_assoc.
Qed.

Lemma get_next_image_releases b w c :
  selected a i w ->
  cameras w !! i = Some c ->
  exists (consumed : list SpinImage) c',
    cameras (snd (get_next_image (logger_of b) w)) !! i = Some c'
    /\ cam_pending c = (consumed ++ cam_pending c')%list
    /\ cam_released c' = (cam_released c ++ (image_id <$> consumed))%list
    /\ forall arr ts, fst (get_next_image (logger_of b) w) = Ok (arr, ts) ->
         exists img, last consumed = Some img
                     /\ image_incomplete img = false
                     /\ arr = returned_array img /\ ts = image_timestamp img.
Proof.
  intros Hsel Hc.
  destruct (get_next_image (logger_of b) w) as [r w'] eqn:E.
  unfold get_next_image in E. unfold bind at 1 in E. unfold gets at 1 in E.
  rewrite (queued_captures_selected w c Hsel Hc) in E.
  destruct (next_complete_image_releases b (cam_pending c) w c
              (S (length (cam_pending c))) Hsel Hc eq_refl ltac:(lia))
    as (consumed & c' & Hsel' & Hc' & Hq & Hres).
  rewrite bind_eq in E.
  destruct (next_complete_image (S (length (cam_pending c))) (logger_of b) w)
    as [[img | e] w1]; cbn [fst snd] in *.
  - destruct Hres as (Hgood & skipped & -> & Hrel).
    rewrite (bind_ok _ _ _ _ _ (current_device_selected w1 Hsel')) in E.
    rewrite (bind_ok _ _ _ _ _ (Release_records w1 c' img Hc')) in E.
    unfold ret in E. inversion E; subst r w'; clear E.
    eexists _, _. split_and!.
    + by eapply lookup_update_camera.
    + exact Hq.
    + simpl. rewrite Hrel, fmap_app. simpl. by rewrite <- app_assoc.
    + intros arr ts Heq. inversion Heq; subst. exists img. by rewrite last_snoc.
  - inversion E; subst r w'; clear E.
    exists consumed, c'. split_and!; try done.
Qed.

Lemma try_except_ok {A} (body : M A) classes handler w x w' :
  body w = (Ok x, w') -> try_except body classes handler w = (Ok x, w').
Proof. intros H. unfold try_except. by rewrite H. Qed.

(** One call of the fill function on a queue that holds a complete
    capture behind some incomplete ones. *)
Lemma do_gst_push_src_fill_frame buffer w c (incompletes : list SpinImage)
    (good : SpinImage) (rest : list SpinImage) :
  selected a i w ->
  cameras w !! i = Some c ->
  cam_fails c CallGetNextImage = false ->
  cam_pending c = (incompletes ++ good :: rest)%list ->
  Forall (fun im => image_incomplete im = true) incompletes ->
  image_incomplete good = false ->
  let ts := image_timestamp good in
  let fresh := timestamp_offset (element w) =? 0 in
  let offset := if fresh then ts else timestamp_offset (element w) in
  let previous := if fresh then ts else previous_timestamp (element w) in
  exists w',
    do_gst_push_src_fill buffer w
    = (Ok (FLOW_OK, {| buf_data := returned_array good;
                       pts := ts - offset;
                       duration := ts - previous |}), w')
    /\ selected a i w'
    /\ cameras w' !! i
       = Some (with_images c rest
                 (cam_next_image_calls c + S (length incompletes))
                 (cam_released c ++ (image_id <$> incompletes) ++ [image_id good]))
    /\ timestamp_offset (element w') = offset
    /\ previous_timestamp (element w') = ts.
Proof.
  intros Hsel Hc Hf Hp Hinc Hgood ts fresh offset previous.
  assert (Hrun : forall k : NDArray * Z -> M (FlowReturn * Buffer),
             bind (get_next_image (Some Gst_warning)) k w
             = k (returned_array good, ts) _)
    by (intros k; exact (bind_ok _ k _ _ _
              (get_next_image_scripted true w c incompletes good rest
                 Hsel Hc Hf Hp Hinc Hgood))).
  destruct Hsel as [Ha Hd].
  subst offset previous fresh.
  destruct (timestamp_offset (element w) =? 0) eqn:Hfresh;
    (eexists; split;
     [ unfold do_gst_push_src_fill; apply try_except_ok; rewrite Hrun;
       unfold bind, gets, when, modify, Gst_log, ret;
       cbn [element with_log with_element update_camera with_cameras];
       rewrite Hfresh; cbn; reflexivity
     | split_and!;
       [ split; [exact Ha | exact Hd]
       | simpl; apply list_lookup_insert_eq; by eapply lookup_lt_Some
       | reflexivity
       | reflexivity ] ]).
Qed.

(** Once the offset is not zero, frames leave it alone. *)
Lemma fill_frames_keeps_offset (imgs : list SpinImage) :
  forall w c (rest : list SpinImage),
  selected a i w ->
  cameras w !! i = Some c ->
  cam_fails c CallGetNextImage = false ->
  cam_pending c = (imgs ++ rest)%list ->
  Forall complete imgs ->
  timestamp_offset (element w) <> 0 ->
  exists rs w',
    fill_frames (length imgs) w = (Ok rs, w')
    /\ timestamp_offset (element w') = timestamp_offset (element w).
Proof.
  induction imgs as [|im imgs IH]; intros w c rest Hsel Hc Hf Hp Hall Hoff.
  - by exists [], w.
  - apply Forall_cons in Hall as [Him Hall].
    destruct (do_gst_push_src_fill_frame blank_buffer w c [] im (imgs ++ rest)%list
                Hsel Hc Hf Hp (Forall_nil_2 _) Him)
      as (w1 & Hrun & Hsel1 & Hc1 & Hoff1 & _).
    apply Z.eqb_neq in Hoff as Hoffb. rewrite Hoffb in Hoff1.
    destruct (IH w1 _ rest Hsel1 Hc1 Hf eq_refl Hall) as (rs & w' & Hrs & Hoff');
      [congruence |].
    eexists _, w'. split; [| congruence].
    cbn [length fill_frames].
    rewrite (bind_ok _ _ _ _ _ Hrun), (bind_ok _ _ _ _ _ Hrs). reflexivity.
Qed.
End Session.

Lemma same_devices_refl w : same_devices w w.
Proof. by repeat split. Qed.

Lemma same_devices_trans w1 w2 w3 :
  same_devices w1 w2 -> same_devices w2 w3 -> same_devices w1 w3.
Proof. unfold same_devices. intros (?&?&?&?) (?&?&?&?). repeat split; congruence. Qed.

Section NodeAccess.
Variable i : nat.

Lemma ready_cache_fill a s :
  (forall s' m, cache_of a s' = Some m -> m = node_map_ref i s') ->
  forall s' m, cache_of (set_node_map_cache s (Some (node_map_ref i s)) a) s' = Some m ->
               m = node_map_ref i s'.
Proof.
  intros H s' m. destruct s, s'; simpl; intros Hm;
    first [by inversion Hm
          | exact (H DeviceScope _ Hm)
          | exact (H TLDeviceScope _ Hm)
          | exact (H TLStreamScope _ Hm)].
Qed.

Lemma _get_device_node_map_ready w c :
  ready i w -> cameras w !! i = Some c -> cam_initialized c = true ->
  exists w', _get_device_node_map w = (Ok (node_map_ref i DeviceScope), w')
             /\ ready i w' /\ same_devices w w'.
Proof.
  intros (a & Ha & Hd & Hcache) Hc Hinit.
  unfold _get_device_node_map, self_acq, bind at 1. rewrite Ha, Hd. cbn [IsValid negb].
  unfold IsInitialized, camera_id. unfold bind at 1. unfold bind at 1. cbn [ret].
  rewrite (bind_ok _ _ _ _ _ (get_camera_lookup _ _ _ Hc)). cbn [ret].
  rewrite Hinit. cbn [negb].
  destruct (_device_node_map a) as [m|] eqn:Hm.
  - rewrite (Hcache DeviceScope m Hm). exists w. split; [done |].
    split; [by exists a | apply same_devices_refl].
  - eexists. split; [reflexivity |]. split; [| by repeat split].
    eexists. split; [reflexivity |]. split; [exact Hd |].
    by apply ready_cache_fill.
Qed.

Lemma _get_tl_device_node_map_ready w :
  ready i w ->
  exists w', _get_tl_device_node_map w = (Ok (node_map_ref i TLDeviceScope), w')
             /\ ready i w' /\ same_devices w w'.
Proof.
  intros (a & Ha & Hd & Hcache).
  unfold _get_tl_device_node_map, self_acq, bind at 1. rewrite Ha, Hd. cbn [IsValid negb].
  destruct (_tl_device_node_map a) as [m|] eqn:Hm.
  - rewrite (Hcache TLDeviceScope m Hm). exists w. split; [done |].
    split; [by exists a | apply same_devices_refl].
  - eexists. split; [reflexivity |]. split; [| by repeat split].
    eexists. split; [reflexivity |]. split; [exact Hd |].
    by apply ready_cache_fill.
Qed.

Lemma _get_tl_stream_node_map_ready w :
  ready i w ->
  exists w', _get_tl_stream_node_map w = (Ok (node_map_ref i TLStreamScope), w')
             /\ ready i w' /\ same_devices w w'.
Proof.
  intros (a & Ha & Hd & Hcache).
  unfold _get_tl_stream_node_map, self_acq, bind at 1. rewrite Ha, Hd. cbn [IsValid negb].
  destruct (_tl_stream_node_map a) as [m|] eqn:Hm.
  - rewrite (Hcache TLStreamScope m Hm). exists w. split; [done |].
    split; [by exists a | apply same_devices_refl].
  - eexists. split; [reflexivity |]. split; [| by repeat split].
    eexists. split; [reflexivity |]. split; [exact Hd |].
    by apply ready_cache_fill.
Qed.

Lemma GetNode_lookup w c s name :
  cameras w !! i = Some c ->
  GetNode (node_map_ref i s) name w
  = (Ok (if bool_decide (is_Some (scope_map c s !! name))
         then Some (node_ptr i s name) else None), w).
Proof.
  intros Hc. unfold GetNode. cbn [map_cam map_scope node_map_ref].
  rewrite (bind_ok _ _ _ _ _ (get_camera_lookup _ _ _ Hc)).
  by destruct (scope_map c s !! name).
Qed.

(** [_get_node] resolves a name as the spec orders the scopes. *)
Lemma _get_node_resolves w c name :
  ready i w -> cameras w !! i = Some c -> cam_initialized c = true ->
  exists w', _get_node name w = (Ok ((fun s => node_ptr i s name) <$> first_scope_with c name), w')
             /\ ready i w' /\ same_devices w w'.
Proof.
  intros Hr Hc Hinit. unfold _get_node, first_scope_with, scope_order.
  destruct (_get_device_node_map_ready w c Hr Hc Hinit) as (w1 & E1 & Hr1 & Hs1).
  rewrite (bind_ok _ _ _ _ _ E1).
  assert (Hc1 : cameras w1 !! i = Some c) by (destruct Hs1 as [-> _]; done).
  rewrite (bind_ok _ _ _ _ _ (GetNode_lookup w1 c DeviceScope name Hc1)).
  cbn [List.find].
  destruct (bool_decide (is_Some (scope_map c DeviceScope !! name))).
  { exists w1. by split. }
  destruct (_get_tl_device_node_map_ready w1 Hr1) as (w2 & E2 & Hr2 & Hs2).
  rewrite (bind_ok _ _ _ _ _ E2).
  assert (Hc2 : cameras w2 !! i = Some c) by (destruct Hs2 as [-> _]; done).
  rewrite (bind_ok _ _ _ _ _ (GetNode_lookup w2 c TLDeviceScope name Hc2)).
  destruct (bool_decide (is_Some (scope_map c TLDeviceScope !! name))).
  { exists w2. split; [done |]. split; [done |]. by eapply same_devices_trans. }
  destruct (_get_tl_stream_node_map_ready w2 Hr2) as (w3 & E3 & Hr3 & Hs3).
  rewrite (bind_ok _ _ _ _ _ E3).
  assert (Hc3 : cameras w3 !! i = Some c) by (destruct Hs3 as [-> _]; done).
  rewrite (bind_ok _ _ _ _ _ (GetNode_lookup w3 c TLStreamScope name Hc3)).
  exists w3. split.
  - by destruct (bool_decide (is_Some (scope_map c TLStreamScope !! name))).
  - split; [done |]. eapply same_devices_trans; [| exact Hs3].
    by eapply same_devices_trans.
Qed.
End NodeAccess.

Section TypedAccess.
Variables (w : World) (p : NodePtr) (c : Camera) (n : Node).
Hypothesis Hc : cameras w !! ptr_cam p = Some c.
Hypothesis Hn : scope_map c (ptr_scope p) !! ptr_name p = Some n.

Lemma deref_lookup : deref p w = (Ok n, w).
Proof.
  unfold deref. rewrite (bind_ok _ _ _ _ _ (get_camera_lookup w _ _ Hc)).
  by rewrite Hn.
Qed.

Lemma store_lookup node : store p node w = (Ok tt, stored w p c node).
Proof.
  unfold store. by rewrite (bind_ok _ _ _ _ _ (get_camera_lookup w _ _ Hc)).
Qed.

Lemma deref_stored node : deref p (stored w p c node) = (Ok node, stored w p c node).
Proof.
  unfold deref, stored.
  assert (Hc' : cameras (update_camera (ptr_cam p)
                   (with_scope_map c (ptr_scope p)
                      (<[ptr_name p := node]> (scope_map c (ptr_scope p)))) w)
                !! ptr_cam p
                = Some (with_scope_map c (ptr_scope p)
                          (<[ptr_name p := node]> (scope_map c (ptr_scope p)))))
    by (eapply lookup_update_camera; eauto).
  rewrite (bind_ok _ _ _ _ _ (get_camera_lookup _ _ _ Hc')).
  assert (Hl : scope_map (with_scope_map c (ptr_scope p)
                   (<[ptr_name p := node]> (scope_map c (ptr_scope p))))
                 (ptr_scope p) !! ptr_name p = Some node)
    by (destruct (ptr_scope p); simpl; apply lookup_insert_eq).
  by rewrite Hl.
Qed.

Hypothesis Havail : IsAvailable n = true.
Hypothesis Hwrite : IsWritable n = true.

Lemma _set_int_node_val_clamps lo hi cur v :
  node_data n = IntegerData lo hi cur ->
  lo <= hi ->
  _set_int_node_val p (VInt v) w
  = (Ok tt, stored w p c (with_data n (IntegerData lo hi (Z.max lo (Z.min hi v))))).
Proof.
  intros Hd Hle. unfold _set_int_node_val.
  rewrite (bind_ok _ _ _ _ _ deref_lookup), Havail, Hwrite, Hd. cbn [negb orb].
  unfold py_max, py_min, num, lift, Qltb, Qle_bool, inject_Z.
  cbn [Qnum Qden]. rewrite !Z.mul_1_r.
  unfold bind at 1.
  destruct (lo <=? v) eqn:E1; cbn [negb]; unfold bind at 1; cbn [num inject_Z Qnum Qden];
    rewrite ?Z.mul_1_r.
  - destruct (v <=? hi) eqn:E2; cbn [negb py_int]; unfold bind at 1.
    + unfold Integer_SetValue.
      rewrite (bind_ok _ _ _ _ _ deref_lookup), Hd, E1, E2. cbn [andb].
      rewrite store_lookup. repeat f_equal. lia.
    + unfold Integer_SetValue.
      rewrite (bind_ok _ _ _ _ _ deref_lookup), Hd.
      replace (lo <=? hi) with true by lia. rewrite Z.leb_refl. cbn [andb].
      rewrite store_lookup. repeat f_equal. lia.
  - replace (lo <=? hi) with true by lia. cbn [negb py_int]. unfold bind at 1.
    unfold Integer_SetValue.
    rewrite (bind_ok _ _ _ _ _ deref_lookup), Hd.
    replace (lo <=? hi) with true by lia. rewrite Z.leb_refl. cbn [andb].
    rewrite store_lookup. repeat f_equal. lia.
Qed.

Lemma _set_float_node_val_clamps lo hi cur v :
  node_data n = FloatData lo hi cur ->
  (lo <= hi)%Q ->
  exists q,
    _set_float_node_val p (VFloat v) w
    = (Ok tt, stored w p c (with_data n (FloatData lo hi q)))
    /\ (q == Qmax lo (Qmin hi v))%Q.
Proof.
  intros Hd Hle. unfold _set_float_node_val.
  rewrite (bind_ok _ _ _ _ _ deref_lookup), Havail, Hwrite, Hd. cbn [negb orb].
  unfold py_max, py_min, lift, Qltb. cbn [num].
  assert (Hlh : Qle_bool lo hi = true) by by apply Qle_bool_iff.
  assert (Hll : Qle_bool lo lo = true) by (apply Qle_bool_iff, Qle_refl).
  assert (Hhh : Qle_bool hi hi = true) by (apply Qle_bool_iff, Qle_refl).
  unfold bind at 1.
  destruct (Qle_bool lo v) eqn:E1; cbn [negb num]; unfold bind at 1.
  - destruct (Qle_bool v hi) eqn:E2; cbn [negb py_float num]; unfold bind at 1;
      unfold Float_SetValue; rewrite (bind_ok _ _ _ _ _ deref_lookup), Hd.
    + exists v. rewrite E1, E2. cbn [andb]. split; [apply store_lookup |].
      apply Qle_bool_iff in E1, E2.
      rewrite (Q.min_r hi v E2). by rewrite (Q.max_r lo v E1).
    + exists hi. rewrite Hlh, Hhh. cbn [andb]. split; [apply store_lookup |].
      assert (hi <= v)%Q.
      { destruct (Qlt_le_dec hi v) as [Hlt | Hge]; [by apply Qlt_le_weak |].
        apply Qle_bool_iff in Hge. congruence. }
      rewrite (Q.min_l hi v H). by rewrite (Q.max_r lo hi Hle).
  - rewrite Hlh. cbn [negb py_float num]. unfold bind at 1.
    unfold Float_SetValue. rewrite (bind_ok _ _ _ _ _ deref_lookup), Hd.
    exists lo. rewrite Hll, Hlh. cbn [andb]. split; [apply store_lookup |].
    assert (Hvl : (v <= lo)%Q).
    { destruct (Qlt_le_dec v lo) as [Hlt | Hge]; [by apply Qlt_le_weak |].
      apply Qle_bool_iff in Hge. congruence. }
    assert (Hvh : (v <= hi)%Q) by (eapply Qle_trans; eauto).
    rewrite (Q.min_r hi v Hvh). by rewrite (Q.max_l lo v Hvl).
Qed.
End TypedAccess.

(** ** The frame pump and the time stamps *)

Section FramePump.
Variables (a : ImageAcquirer) (i : nat).

(** C3.  [get_next_image] never returns an incomplete capture.  When the
    device delivers N incomplete captures and then a complete one, the
    call returns that complete capture after exactly N+1 [GetNextImage]
    calls, having released the N incomplete captures and then the
    complete one.  And whatever way the call ends (a result, a time-out,
    an SDK error), every capture it took from the device has been
    released, and a returned capture is a complete one. *)
Theorem get_next_image_skips_incomplete b w c :
  selected a i w ->
  cameras w !! i = Some c ->
  (forall (incompletes : list SpinImage) (good : SpinImage) (rest : list SpinImage),
      cam_fails c CallGetNextImage = false ->
      cam_pending c = (incompletes ++ good :: rest)%list ->
      Forall (fun im => image_incomplete im = true) incompletes ->
      image_incomplete good = false ->
      exists w' c',
        get_next_image (logger_of b) w
        = (Ok (returned_array good, image_timestamp good), w')
        /\ cameras w' !! i = Some c'
        /\ cam_next_image_calls c'
           = (cam_next_image_calls c + S (length incompletes))%nat
        /\ cam_released c'
           = (cam_released c ++ (image_id <$> incompletes) ++ [image_id good])%list
        /\ cam_pending c' = rest)
  /\ (exists (consumed : list SpinImage) c',
        cameras (snd (get_next_image (logger_of b) w)) !! i = Some c'
        /\ cam_pending c = (consumed ++ cam_pending c')%list
        /\ cam_released c' = (cam_released c ++ (image_id <$> consumed))%list
        /\ forall arr ts, fst (get_next_image (logger_of b) w) = Ok (arr, ts) ->
             exists img, last consumed = Some img
                         /\ image_incomplete img = false
                         /\ arr = returned_array img /\ ts = image_timestamp img).
Proof.
  intros Hsel Hc. split.
  - intros incompletes good rest Hf Hp Hinc Hgood.
    eexists _, (with_images c rest
                  (cam_next_image_calls c + S (length incompletes))
                  (cam_released c ++ (image_id <$> incompletes) ++ [image_id good])).
    split.
    + exact (get_next_image_scripted a i b w c incompletes good rest
               Hsel Hc Hf Hp Hinc Hgood).
    + split_and!; [| reflexivity | reflexivity | reflexivity].
      simpl. apply list_lookup_insert_eq. by eapply lookup_lt_Some.
  - exact (get_next_image_releases a i b w c Hsel Hc).
Qed.

Lemma fill_frames_S n w :
  fill_frames (S n) w
  = match do_gst_push_src_fill blank_buffer w with
    | (Ok r, w1) =>
        match fill_frames n w1 with
        | (Ok rs, w2) => (Ok (r :: rs), w2)
        | (Raise e, w2) => (Raise e, w2)
        end
    | (Raise e, w1) => (Raise e, w1)
    end.
Proof. reflexivity. Qed.

(** C4.  From a fresh baseline, captures taken at 100, 250 and 400 leave
    the fill function with presentation time and duration (0, 0),
    (150, 150) and (300, 150). *)
Theorem timestamps_from_first_capture w c (im1 im2 im3 : SpinImage)
    (rest : list SpinImage) :
  selected a i w ->
  cameras w !! i = Some c ->
  cam_fails c CallGetNextImage = false ->
  cam_pending c = im1 :: im2 :: im3 :: rest ->
  complete im1 -> complete im2 -> complete im3 ->
  image_timestamp im1 = 100 ->
  image_timestamp im2 = 250 ->
  image_timestamp im3 = 400 ->
  timestamp_offset (element w) = 0 ->
  exists rs w',
    fill_frames 3 w = (Ok rs, w')
    /\ stamp <$> rs = [(FLOW_OK, 0, 0); (FLOW_OK, 150, 150); (FLOW_OK, 300, 150)].
Proof.
  intros Hsel Hc Hf Hp H1 H2 H3 T1 T2 T3 Hoff.
  destruct (do_gst_push_src_fill_frame a i blank_buffer w c [] im1 (im2 :: im3 :: rest)
              Hsel Hc Hf Hp (Forall_nil_2 _) H1)
    as (w1 & E1 & Hsel1 & Hc1 & Hoff1 & Hprev1).
  rewrite Hoff, T1 in *. cbn [Z.eqb] in *.
  destruct (do_gst_push_src_fill_frame a i blank_buffer w1 _ [] im2 (im3 :: rest)
              Hsel1 Hc1 Hf eq_refl (Forall_nil_2 _) H2)
    as (w2 & E2 & Hsel2 & Hc2 & Hoff2 & Hprev2).
  rewrite Hoff1, Hprev1, T2 in *. cbn [Z.eqb] in *.
  destruct (do_gst_push_src_fill_frame a i blank_buffer w2 _ [] im3 rest
              Hsel2 Hc2 Hf eq_refl (Forall_nil_2 _) H3)
    as (w3 & E3 & Hsel3 & Hc3 & Hoff3 & Hprev3).
  rewrite Hoff2, Hprev2, T3 in *. cbn [Z.eqb] in *.
  eexists _, w3. split.
  - rewrite fill_frames_S, E1, fill_frames_S, E2, fill_frames_S, E3. reflexivity.
  - reflexivity.
Qed.

(** C5, as amended.  In a session whose first capture time is not zero,
    the first frame sets the offset to that capture time and no later
    frame changes it. *)
Theorem offset_fixed_by_nonzero_first_capture w c (first : SpinImage)
    (later rest : list SpinImage) :
  selected a i w ->
  cameras w !! i = Some c ->
  cam_fails c CallGetNextImage = false ->
  cam_pending c = first :: (later ++ rest)%list ->
  complete first ->
  Forall complete later ->
  image_timestamp first <> 0 ->
  timestamp_offset (element w) = 0 ->
  timestamp_offset (element (snd (fill_frames 1 w))) = image_timestamp first
  /\ offset_set_once w (S (length later)).
Proof.
  intros Hsel Hc Hf Hp Hfirst Hlater Hts Hoff.
  destruct (do_gst_push_src_fill_frame a i blank_buffer w c [] first (later ++ rest)%list
              Hsel Hc Hf Hp (Forall_nil_2 _) Hfirst)
    as (w1 & E1 & Hsel1 & Hc1 & Hoff1 & _).
  rewrite Hoff in Hoff1. cbn [Z.eqb] in Hoff1.
  assert (Hone : timestamp_offset (element (snd (fill_frames 1 w)))
                 = image_timestamp first).
  { rewrite fill_frames_S, E1. exact Hoff1. }
  split; [exact Hone |].
  intros k [Hk1 Hk2]. rewrite Hone.
  destruct k as [|k]; [lia |].
  rewrite fill_frames_S, E1.
  destruct (fill_frames_keeps_offset a i (take k later) w1 _ (drop k later ++ rest)%list
              Hsel1 Hc1 Hf)
    as (rs & w' & Ers & Hoff').
  - cbn [cam_pending with_images]. by rewrite app_assoc, take_drop.
  - by apply Forall_take.
  - congruence.
  - rewrite length_take_le in Ers by lia. rewrite Ers. cbn [snd]. congruence.
Qed.
End FramePump.

(** C5, as stated, fails: when the first capture carries device time zero
    the offset is still zero after the first frame, and the second frame
    assigns it again. *)
Lemma offset_reassigned_after_zero_capture : ~ offset_set_once zero_start_world 2.
Proof.
  intros H. specialize (H 2%nat ltac:(lia)). vm_compute in H. discriminate H.
Qed.

Lemma get_next_image_skips_incomplete_witness :
  exists w' c',
    get_next_image (logger_of true) retry_world
    = (Ok (returned_array (capture 2 false 30), 30), w')
    /\ cameras w' !! 0%nat = Some c'
    /\ cam_next_image_calls c' = 3%nat
    /\ cam_released c' = [0%nat; 1%nat; 2%nat]
    /\ cam_pending c' = [].
Proof.
  refine (proj1 (get_next_image_skips_incomplete (acquirer_on 1 0) 0 true retry_world
                   (streaming_camera [capture 0 true 10; capture 1 true 20;
                                      capture 2 false 30]) _ _)
                [capture 0 true 10; capture 1 true 20] (capture 2 false 30) [] _ _ _ _).
  - split; reflexivity.
  - reflexivity.
  - reflexivity.
  - reflexivity.
  - repeat constructor.
  - reflexivity.
Defined.

Lemma timestamps_from_first_capture_witness :
  exists rs w',
    fill_frames 3 three_frame_world = (Ok rs, w')
    /\ stamp <$> rs = [(FLOW_OK, 0, 0); (FLOW_OK, 150, 150); (FLOW_OK, 300, 150)].
Proof.
  refine (timestamps_from_first_capture (acquirer_on 1 0) 0 three_frame_world
            (streaming_camera [capture 0 false 100; capture 1 false 250;
                               capture 2 false 400])
            (capture 0 false 100) (capture 1 false 250) (capture 2 false 400) []
            _ _ _ _ _ _ _ _ _ _ _); try reflexivity.
  split; reflexivity.
Defined.

Lemma offset_fixed_by_nonzero_first_capture_witness :
  timestamp_offset (element (snd (fill_frames 1 three_frame_world))) = 100
  /\ offset_set_once three_frame_world 3.
Proof.
  refine (offset_fixed_by_nonzero_first_capture (acquirer_on 1 0) 0 three_frame_world
            (streaming_camera [capture 0 false 100; capture 1 false 250;
                               capture 2 false 400])
            (capture 0 false 100) [capture 1 false 250; capture 2 false 400] []
            _ _ _ _ _ _ _ _); try reflexivity.
  - split; reflexivity.
  - repeat constructor.
  - simpl. lia.
Defined.

(** ** Properties *)

(** C10 fails on the code for "wb-blue-ratio": [do_set_property] stores the
    value, but [do_get_property] has no branch for the name and raises the
    unknown property error, whatever was set. *)
Theorem wb_blue_ratio_cannot_be_read (w : World) (value : Value) :
  fst (set_then_get "wb-blue-ratio" value w)
  = Raise (AttributeError (MsgUnknownProperty "wb-blue-ratio"))
  /\ wb_blue (element (snd (set_then_get "wb-blue-ratio" value w))) = value.
Proof. split; reflexivity. Qed.

(** X1.  Every property of the element but "wb-blue-ratio" reads back as
    set. *)
Lemma property_round_trip (prop_name : string) (w : World) (value : Value) :
  prop_name ∈ gproperties ->
  prop_name <> "wb-blue-ratio" ->
  fst (set_then_get prop_name value w) = Ok value.
Proof.
  intros Hin Hne. unfold gproperties in Hin.
  repeat (apply elem_of_cons in Hin as [-> | Hin]; [first [reflexivity | congruence] |]).
  inversion Hin.
Qed.

(** ** Clamping *)

(** C2.  On an available, writable Integer node with bounds [lo <= hi],
    setting [v] succeeds and leaves [max lo (min hi v)] in the node; on
    such a Float node the stored number equals [max lo (min hi v)]. *)
Theorem set_clamps_into_bounds :
  (forall w p c n lo hi cur v,
      cameras w !! ptr_cam p = Some c ->
      scope_map c (ptr_scope p) !! ptr_name p = Some n ->
      IsAvailable n = true ->
      IsWritable n = true ->
      node_data n = IntegerData lo hi cur ->
      lo <= hi ->
      exists w',
        _set_int_node_val p (VInt v) w = (Ok tt, w')
        /\ deref p w'
           = (Ok (with_data n (IntegerData lo hi (Z.max lo (Z.min hi v)))), w'))
  /\ (forall w p c n lo hi cur v,
      cameras w !! ptr_cam p = Some c ->
      scope_map c (ptr_scope p) !! ptr_name p = Some n ->
      IsAvailable n = true ->
      IsWritable n = true ->
      node_data n = FloatData lo hi cur ->
      (lo <= hi)%Q ->
      exists w' q,
        _set_float_node_val p (VFloat v) w = (Ok tt, w')
        /\ deref p w' = (Ok (with_data n (FloatData lo hi q)), w')
        /\ (q == Qmax lo (Qmin hi v))%Q).
Proof.
  split.
  - intros w p c n lo hi cur v Hc Hn Ha Hw Hd Hle.
    eexists. split.
    + exact (_set_int_node_val_clamps w p c n Hc Hn Ha Hw lo hi cur v Hd Hle).
    + exact (deref_stored w p c n Hc Hn _).
  - intros w p c n lo hi cur v Hc Hn Ha Hw Hd Hle.
    destruct (_set_float_node_val_clamps w p c n Hc Hn Ha Hw lo hi cur v Hd Hle)
      as (q & Hset & Hq).
    eexists _, q. split; [exact Hset |]. split; [| exact Hq].
    exact (deref_stored w p c n Hc Hn _).
Qed.

Lemma set_clamps_into_bounds_witness :
  (exists w',
      _set_int_node_val (node_ptr 0 DeviceScope "Width") (VInt 5000)
        (opened_world [demo_camera]) = (Ok tt, w')
      /\ deref (node_ptr 0 DeviceScope "Width") w'
         = (Ok (mk_node "Width" RW (IntegerData 8 1440 1440)), w'))
  /\ (exists w' q,
      _set_float_node_val (node_ptr 0 DeviceScope "AcquisitionFrameRate")
        (VFloat (1 # 2)) (opened_world [demo_camera]) = (Ok tt, w')
      /\ deref (node_ptr 0 DeviceScope "AcquisitionFrameRate") w'
         = (Ok (mk_node "Acquisition Frame Rate" RW (FloatData 1 60 q)), w')
      /\ (q == 1)%Q).
Proof.
  split.
  - refine (proj1 set_clamps_into_bounds (opened_world [demo_camera])
              (node_ptr 0 DeviceScope "Width") demo_camera
              (mk_node "Width" RW (IntegerData 8 1440 720)) 8 1440 720 5000
              _ _ _ _ _ _); try reflexivity.
    lia.
  - refine (proj2 set_clamps_into_bounds (opened_world [demo_camera])
              (node_ptr 0 DeviceScope "AcquisitionFrameRate") demo_camera
              (mk_node "Acquisition Frame Rate" RW (FloatData 1 60 30))
              1%Q 60%Q 30%Q (1 # 2)%Q
              _ _ _ _ _ _); try reflexivity.
    discriminate.
Defined.

(** ** Node lookup *)

Section Lookup.
Variables (i : nat) (w : World) (c : Camera).
Hypothesis Hready : ready i w.
Hypothesis Hc : cameras w !! i = Some c.
Hypothesis Hinit : cam_initialized c = true.

(** What the typed setters may do to the world: nothing, or store a node
    at the pointer. *)
Lemma typed_set_frame (p : NodePtr) (value : Value) (w1 : World) (c1 : Camera)
    (set : NodePtr -> Value -> M unit) :
  set = _set_int_node_val \/ set = _set_float_node_val
  \/ set = _set_bool_node_val \/ set = _set_enum_node_val ->
  cameras w1 !! ptr_cam p = Some c1 ->
  snd (set p value w1) = w1 \/ exists node, snd (set p value w1) = stored w1 p c1 node.
Proof.
  intros Hset Hc1.
  assert (Hst : forall node, store p node w1 = (Ok tt, stored w1 p c1 node))
    by (intros node; apply store_lookup, Hc1).
  destruct (scope_map c1 (ptr_scope p) !! ptr_name p) as [n|] eqn:Hn.
  - pose proof (deref_lookup w1 p c1 n Hc1 Hn) as Hd.
    destruct Hset as [-> | [-> | [-> | ->]]].
    + unfold _set_int_node_val, Integer_SetValue, lift, bad_cast, raise.
      rewrite (bind_ok _ _ _ _ _ Hd).
      repeat first
        [ rewrite Hst | rewrite (bind_ok _ _ _ _ _ Hd)
        | progress cbn [snd] | progress unfold bind at 1 | case_match ];
        simplify_eq; rewrite ?Hst; cbn [snd]; eauto.
    + unfold _set_float_node_val, Float_SetValue, lift, bad_cast, raise.
      rewrite (bind_ok _ _ _ _ _ Hd).
      repeat first
        [ rewrite Hst | rewrite (bind_ok _ _ _ _ _ Hd)
        | progress cbn [snd] | progress unfold bind at 1 | case_match ];
        simplify_eq; rewrite ?Hst; cbn [snd]; eauto.
    + unfold _set_bool_node_val, bad_cast, raise.
      rewrite (bind_ok _ _ _ _ _ Hd).
      repeat first [ rewrite Hst | progress cbn [snd] | case_match ]; eauto.
    + unfold _set_enum_node_val, bad_cast, raise.
      rewrite (bind_ok _ _ _ _ _ Hd).
      repeat first [ rewrite Hst | progress cbn [snd] | case_match ]; eauto.
  - assert (Hd : deref p w1 = (Raise (SpinnakerException CallNodeAccess), w1)).
    { unfold deref.
      rewrite (bind_ok _ _ _ _ _ (get_camera_lookup w1 _ _ Hc1)), Hn. reflexivity. }
    destruct Hset as [-> | [-> | [-> | ->]]]; left;
      unfold _set_int_node_val, _set_float_node_val, _set_bool_node_val,
        _set_enum_node_val; by rewrite (bind_raise _ _ _ _ _ Hd).
Qed.

Lemma first_scope_with_lookup (c1 : Camera) (name : string) (s : Scope) :
  first_scope_with c1 name = Some s -> is_Some (scope_map c1 s !! name).
Proof.
  unfold first_scope_with. intros H. apply find_some in H as [_ H].
  by apply bool_decide_eq_true_1 in H.
Qed.

Lemma first_scope_with_device (c1 : Camera) (name : string) :
  is_Some (cam_node_map c1 !! name) -> first_scope_with c1 name = Some DeviceScope.
Proof.
  intros H. unfold first_scope_with, scope_order. cbn [List.find scope_map].
  by rewrite bool_decide_eq_true_2.
Qed.

Lemma first_scope_with_absent (c1 : Camera) (name : string) :
  (forall s, scope_map c1 s !! name = None) -> first_scope_with c1 name = None.
Proof.
  intros H. unfold first_scope_with, scope_order. cbn [List.find].
  rewrite !bool_decide_eq_false_2; [done | | |]; rewrite H; by intros [? ?].
Qed.

(** A setter by name changes the scope the name resolves in, and no other. *)
Lemma set_node_val_frame (name : string) (value : Value) (s : Scope) :
  first_scope_with c name = Some s ->
  exists c', cameras (snd (set_node_val name value w)) !! i = Some c'
             /\ forall s', s' <> s -> scope_map c' s' = scope_map c s'.
Proof.
  intros Hs.
  destruct (_get_node_resolves i w c name Hready Hc Hinit) as (w1 & E & _ & Hsame).
  destruct Hsame as (Hcams & _).
  assert (Hc1 : cameras w1 !! i = Some c) by by rewrite Hcams.
  destruct (first_scope_with_lookup c name s Hs) as [n Hn].
  unfold set_node_val. rewrite (bind_ok _ _ _ _ _ E), Hs. cbn [fmap option_fmap option_map].
  rewrite (bind_ok _ _ _ _ _ (deref_lookup w1 (node_ptr i s name) c n Hc1 Hn)).
  assert (Hsame : exists c', cameras w1 !! i = Some c'
                    /\ forall s', s' <> s -> scope_map c' s' = scope_map c s')
    by (by exists c).
  assert (Hset : forall set : NodePtr -> Value -> M unit,
             set = _set_int_node_val \/ set = _set_float_node_val
             \/ set = _set_bool_node_val \/ set = _set_enum_node_val ->
             exists c', cameras (snd (set (node_ptr i s name) value w1)) !! i = Some c'
                        /\ forall s', s' <> s -> scope_map c' s' = scope_map c s').
  { intros set Hset.
    destruct (typed_set_frame (node_ptr i s name) value w1 c set Hset Hc1)
      as [-> | [node ->]]; [exact Hsame |].
    eexists. split.
    - unfold stored. cbn [ptr_cam node_ptr]. eapply lookup_update_camera, Hc1.
    - intros s' Hne. cbn [ptr_scope ptr_name node_ptr]. by destruct s, s'. }
  destruct (node_has_interface_type n); cbn [negb]; [| exact Hsame].
  destruct (GetPrincipalInterfaceType n); try exact Hsame; apply Hset; tauto.
Qed.

(** The typed getters read the node behind the pointer, and nothing else. *)
Lemma typed_get_cong (p : NodePtr) (w1 w2 : World) (n : Node)
    (get : NodePtr -> M Value) :
  get = _get_int_node_val \/ get = _get_float_node_val
  \/ get = _get_bool_node_val \/ get = _get_enum_node_val ->
  deref p w1 = (Ok n, w1) ->
  deref p w2 = (Ok n, w2) ->
  fst (get p w1) = fst (get p w2).
Proof.
  intros Hget H1 H2.
  destruct Hget as [-> | [-> | [-> | ->]]];
    unfold _get_int_node_val, _get_float_node_val, _get_bool_node_val,
      _get_enum_node_val, GetCurrentEntry, bad_cast;
    rewrite (bind_ok _ _ _ _ _ H1), (bind_ok _ _ _ _ _ H2);
    repeat case_match; reflexivity.
Qed.

(** What [get_node_val] returns for a name of the device scope depends on
    the device scope alone. *)
Lemma get_node_val_device_only (name : string) (w2 : World) (c2 : Camera) :
  is_Some (cam_node_map c !! name) ->
  ready i w2 ->
  cameras w2 !! i = Some c2 ->
  cam_initialized c2 = true ->
  cam_node_map c2 = cam_node_map c ->
  fst (get_node_val name w2) = fst (get_node_val name w).
Proof.
  intros [n Hn] Hready2 Hc2 Hinit2 Hmap.
  destruct (_get_node_resolves i w c name Hready Hc Hinit) as (w1 & E1 & _ & (Hcams1 & _)).
  destruct (_get_node_resolves i w2 c2 name Hready2 Hc2 Hinit2)
    as (w3 & E3 & _ & (Hcams3 & _)).
  rewrite first_scope_with_device in E1 by (by exists n).
  rewrite first_scope_with_device in E3 by (rewrite Hmap; by exists n).
  cbn [fmap option_fmap option_map] in E1, E3.
  assert (D1 : deref (node_ptr i DeviceScope name) w1 = (Ok n, w1)).
  { apply (deref_lookup w1 _ c); [by rewrite Hcams1 | exact Hn]. }
  assert (D3 : deref (node_ptr i DeviceScope name) w3 = (Ok n, w3)).
  { apply (deref_lookup w3 _ c2); [by rewrite Hcams3 | ].
    cbn [scope_map ptr_scope node_ptr ptr_name]. by rewrite Hmap. }
  unfold get_node_val.
  rewrite (bind_ok _ _ _ _ _ E1), (bind_ok _ _ _ _ _ E3).
  rewrite (bind_ok _ _ _ _ _ D1), (bind_ok _ _ _ _ _ D3).
  destruct (node_has_interface_type n); cbn [negb]; [| reflexivity].
  destruct (GetPrincipalInterfaceType n); try reflexivity;
    apply (typed_get_cong _ w3 w1 n); auto.
Qed.
End Lookup.

Lemma typed_get_reads (p : NodePtr) (w : World) (n : Node) (v : Value) :
  deref p w = (Ok n, w) ->
  IsAvailable n = true ->
  IsReadable n = true ->
  node_value n = Some v ->
  match GetPrincipalInterfaceType n with
  | intfIInteger => _get_int_node_val p w = (Ok v, w)
  | intfIFloat => _get_float_node_val p w = (Ok v, w)
  | intfIBoolean => _get_bool_node_val p w = (Ok v, w)
  | intfIEnumeration => _get_enum_node_val p w = (Ok v, w)
  | _ => True
  end.
Proof.
  intros D Ha Hr Hv. unfold node_value, GetPrincipalInterfaceType in *.
  destruct (node_data n) as [lo hi x | lo hi x | b | entries x | str | k | t] eqn:Hd;
    try discriminate Hv;
    unfold _get_int_node_val, _get_float_node_val, _get_bool_node_val, _get_enum_node_val;
    rewrite (bind_ok _ _ _ _ _ D), Ha, Hr, Hd; cbn [negb orb]; try (by inversion Hv).
  unfold GetCurrentEntry.
  destruct (List.find _ entries) as [e|]; [| discriminate Hv].
  by inversion Hv.
Qed.

(** C6.  With a device open, a node name resolves in the first of the
    device, transport layer device and transport layer stream scopes that
    has it.  So a name of the device scope resolves there whatever the
    transport layer scopes hold, and get and set operate on the device
    node: [get_node_val] is the typed getter, and [set_node_val] the typed
    setter, run on the pointer to the node of the device scope; a read
    returns the value of the device node, and a write of an integer stores
    the clamped value in the node of the device map, not in a node of a
    transport layer map.
    [set_node_val] leaves the transport layer node maps as they were, and
    what [get_node_val] returns does not depend on them.  A name that no
    scope has makes get, set, execute, range and entries raise the
    not-available error. *)
Theorem node_name_resolution (i : nat) (w : World) (c : Camera) (name : string) :
  ready i w ->
  cameras w !! i = Some c ->
  cam_initialized c = true ->
  fst (_get_node name w) = Ok ((fun s => node_ptr i s name) <$> first_scope_with c name)
  /\ (is_Some (cam_node_map c !! name) ->
      fst (_get_node name w) = Ok (Some (node_ptr i DeviceScope name))
      /\ (forall value, exists c',
             cameras (snd (set_node_val name value w)) !! i = Some c'
             /\ cam_tl_device_node_map c' = cam_tl_device_node_map c
             /\ cam_tl_stream_node_map c' = cam_tl_stream_node_map c)
      /\ (forall w2 c2,
             ready i w2 ->
             cameras w2 !! i = Some c2 ->
             cam_initialized c2 = true ->
             cam_node_map c2 = cam_node_map c ->
             fst (get_node_val name w2) = fst (get_node_val name w)))
  /\ (forall n,
        cam_node_map c !! name = Some n ->
        node_has_interface_type n = true ->
        same_devices w (snd (_get_node name w))
        /\ (forall get,
               typed_getter (GetPrincipalInterfaceType n) = Some get ->
               get_node_val name w
               = get (node_ptr i DeviceScope name) (snd (_get_node name w)))
        /\ (forall set value,
               typed_setter (GetPrincipalInterfaceType n) = Some set ->
               set_node_val name value w
               = set (node_ptr i DeviceScope name) value (snd (_get_node name w)))
        /\ (forall v,
               IsAvailable n = true ->
               IsReadable n = true ->
               node_value n = Some v ->
               fst (get_node_val name w) = Ok v)
        /\ (forall lo hi cur v,
               IsAvailable n = true ->
               IsWritable n = true ->
               node_data n = IntegerData lo hi cur ->
               lo <= hi ->
               fst (set_node_val name (VInt v) w) = Ok tt
               /\ exists c',
                    cameras (snd (set_node_val name (VInt v) w)) !! i = Some c'
                    /\ cam_node_map c' !! name
                       = Some (with_data n (IntegerData lo hi (Z.max lo (Z.min hi v))))
                    /\ cam_tl_device_node_map c' = cam_tl_device_node_map c
                    /\ cam_tl_stream_node_map c' = cam_tl_stream_node_map c))
  /\ ((forall s, scope_map c s !! name = None) ->
      fst (get_node_val name w) = Raise (ValueError (MsgNodeNotAvailable name))
      /\ (forall value,
             fst (set_node_val name value w) = Raise (ValueError (MsgNodeNotAvailable name)))
      /\ fst (execute_node name w) = Raise (ValueError (MsgNodeNotAvailable name))
      /\ fst (get_node_range name w) = Raise (ValueError (MsgNodeNotAvailable name))
      /\ fst (get_node_entries name w) = Raise (ValueError (MsgNodeNotAvailable name))).
Proof.
  intros Hready Hc Hinit.
  destruct (_get_node_resolves i w c name Hready Hc Hinit) as (w1 & E & _ & Hsame).
  split; [by rewrite E |]. split; [| split].
  - intros Hdev. pose proof (first_scope_with_device c name Hdev) as Hs.
    split; [by rewrite E, Hs |]. split.
    + intros value.
      destruct (set_node_val_frame i w c Hready Hc Hinit name value DeviceScope Hs)
        as (c' & Hc' & Hframe).
      exists c'. split; [exact Hc' |]. split.
      * by apply (Hframe TLDeviceScope).
      * by apply (Hframe TLStreamScope).
    + intros w2 c2. by apply get_node_val_device_only.
  - intros n Hn Ht.
    rewrite (first_scope_with_device c name (ex_intro _ n Hn)) in E.
    cbn [fmap option_fmap option_map] in E.
    set (p := node_ptr i DeviceScope name) in *.
    assert (Hc1 : cameras w1 !! ptr_cam p = Some c)
      by (destruct Hsame as [-> _]; exact Hc).
    pose proof (deref_lookup w1 p c n Hc1 Hn) as D.
    assert (Hget : forall get,
               typed_getter (GetPrincipalInterfaceType n) = Some get ->
               get_node_val name w = get p w1).
    { intros get Hk. unfold get_node_val.
      rewrite (bind_ok _ _ _ _ _ E), (bind_ok _ _ _ _ _ D), Ht. cbn [negb].
      destruct (GetPrincipalInterfaceType n); by inversion Hk. }
    assert (Hset : forall set value,
               typed_setter (GetPrincipalInterfaceType n) = Some set ->
               set_node_val name value w = set p value w1).
    { intros set value Hk. unfold set_node_val.
      rewrite (bind_ok _ _ _ _ _ E), (bind_ok _ _ _ _ _ D), Ht. cbn [negb].
      destruct (GetPrincipalInterfaceType n); by inversion Hk. }
    rewrite E. cbn [snd]. split_and!; try done.
    + intros v Ha Hr Hv.
      pose proof (typed_get_reads p w1 n v D Ha Hr Hv) as Hread.
      unfold node_value in Hv. unfold GetPrincipalInterfaceType in *.
      destruct (node_data n); try discriminate Hv;
        (erewrite Hget by reflexivity); by rewrite Hread.
    + intros lo hi cur v Ha Hw Hd Hle.
      assert (Hk : typed_setter (GetPrincipalInterfaceType n) = Some _set_int_node_val)
        by (unfold GetPrincipalInterfaceType; by rewrite Hd).
      rewrite (Hset _ (VInt v) Hk).
      rewrite (_set_int_node_val_clamps w1 p c n Hc1 Hn Ha Hw lo hi cur v Hd Hle).
      split; [reflexivity |].
      eexists. unfold stored, update_camera.
      cbn [snd cameras with_cameras ptr_cam ptr_scope ptr_name p node_ptr].
      split; [apply list_lookup_insert_eq; by eapply lookup_lt_Some |].
      cbn [with_scope_map scope_map cam_node_map cam_tl_device_node_map
           cam_tl_stream_node_map].
      split; [apply lookup_insert_eq |]. by split.
  - intros Habsent. rewrite (first_scope_with_absent c name Habsent) in E.
    cbn [fmap option_fmap option_map] in E.
    unfold get_node_val, set_node_val, execute_node, get_node_range, get_node_entries.
    split_and!; [| intros value | | |]; by rewrite (bind_ok _ _ _ _ _ E).
Qed.

(** On a camera whose device and transport layer device maps both hold
    [Width] (720 and 64): the name resolves to the device node, a read
    gives 720, and a write of 5000 stores the clamped 1440 in the device
    map and leaves the 64 of the transport layer map alone; a name that no
    map holds is not available. *)
Lemma node_name_resolution_witness :
  fst (_get_node "Width" (opened_world [shadowed_width_camera]))
  = Ok (Some (node_ptr 0 DeviceScope "Width"))
  /\ fst (get_node_val "Width" (opened_world [shadowed_width_camera])) = Ok (VInt 720)
  /\ (exists c',
        cameras (snd (set_node_val "Width" (VInt 5000)
                        (opened_world [shadowed_width_camera]))) !! 0%nat = Some c'
        /\ cam_node_map c' !! "Width"
           = Some (mk_node "Width" RW (IntegerData 8 1440 1440))
        /\ cam_tl_device_node_map c' !! "Width"
           = Some (mk_node "Width" RW (IntegerData 0 64 64)))
  /\ fst (get_node_val "UserSetSelector" (opened_world [demo_camera]))
     = Raise (ValueError (MsgNodeNotAvailable "UserSetSelector")).
Proof.
  assert (Hr : forall cams, ready 0 (opened_world cams)).
  { intros cams. exists (acquirer_on (length cams) 0).
    split; [reflexivity |]. split; [reflexivity |].
    intros s m. destruct s; discriminate. }
  pose proof (node_name_resolution 0 (opened_world [shadowed_width_camera])
                shadowed_width_camera "Width" (Hr _) eq_refl eq_refl)
    as (_ & Hdev & Hnode & _).
  specialize (Hnode (mk_node "Width" RW (IntegerData 8 1440 720)) eq_refl eq_refl).
  destruct Hnode as (_ & _ & _ & Hread & Hwrite).
  split_and!.
  - exact (proj1 (Hdev ltac:(vm_compute; eauto))).
  - exact (Hread (VInt 720) eq_refl eq_refl eq_refl).
  - destruct (proj2 (Hwrite 8 1440 720 5000 eq_refl eq_refl eq_refl ltac:(lia)))
      as (c' & Hc' & Hdevice & Htl & _).
    exists c'. split; [exact Hc' |]. split; [exact Hdevice |]. by rewrite Htl.
  - exact (proj1 (proj2 (proj2 (proj2
             (node_name_resolution 0 (opened_world [demo_camera]) demo_camera
                "UserSetSelector" (Hr _) eq_refl eq_refl)))
             ltac:(intros s; destruct s; reflexivity))).
Defined.

(** ** Opening and closing the session *)

Lemma self_acq_eq (w : World) (a : ImageAcquirer) :
  image_acquirer w = Some a -> self_acq w = (Ok a, w).
Proof. intros H. unfold self_acq. by rewrite H. Qed.

Lemma fault_free_lookup (cams : list Camera) (k : nat) (c : Camera) (call : SdkCall) :
  fault_free cams -> cams !! k = Some c -> cam_fails c call = false.
Proof.
  intros Hff Hk. unfold cam_fails.
  rewrite (proj1 (Forall_lookup _ _) Hff k c Hk). reflexivity.
Qed.

Lemma with_status_id (c : Camera) :
  with_status c (cam_initialized c) (cam_streaming c) = c.
Proof. by destruct c. Qed.

Lemma update_camera_id (w : World) (k : nat) (c : Camera) :
  cameras w !! k = Some c -> update_camera k c w = w.
Proof.
  intros H. destruct w. unfold update_camera, with_cameras. simpl in *.
  by rewrite list_insert_id.
Qed.

(** [_reset_cam] on a device that is neither streaming nor initialised
    calls nothing on it. *)
Lemma _reset_cam_idle (w : World) (a : ImageAcquirer) :
  image_acquirer w = Some a ->
  match _current_device a with
  | Some (CamRef j) =>
      exists c, cameras w !! j = Some c
                /\ cam_streaming c = false /\ cam_initialized c = false
  | _ => True
  end ->
  _reset_cam w = (Ok tt, with_acquirer (Some (reset_acquirer a)) w).
Proof.
  intros Ha Hprior.
  unfold _reset_cam, IsStreaming, IsInitialized, EndAcquisition, DeInit, camera_id,
    put_acq, self_acq, get_camera.
  run_method. rewrite Ha.
  destruct (_current_device a) as [[|j]|]; cbn [IsValid]; [by rewrite Ha | | by rewrite Ha].
  destruct Hprior as (c & Hc & Hs & Hi). rewrite Hc, Hs, Hc, Hi. by rewrite Ha.
Qed.

(** [_reset_cam] closes the prior handle: its camera ends up neither
    streaming nor initialised, and the acquirer forgets it. *)
Lemma _reset_cam_closes (w : World) (a : ImageAcquirer) :
  image_acquirer w = Some a ->
  (forall j, _current_device a = Some (CamRef j) -> is_Some (cameras w !! j)) ->
  fault_free (cameras w) ->
  _reset_cam w
  = (Ok tt, with_acquirer (Some (reset_acquirer a))
              (with_cameras (close_prior a (cameras w)) w)).
Proof.
  intros Ha Hprior Hff.
  unfold _reset_cam, IsStreaming, IsInitialized, EndAcquisition, DeInit, camera_id,
    put_acq, put_camera, self_acq, get_camera, close_prior, cam_fails.
  run_method. rewrite Ha.
  destruct (_current_device a) as [[|j]|] eqn:Hd; cbn [IsValid];
    [by rewrite Ha | | by rewrite Ha].
  destruct (Hprior j eq_refl) as [c Hc].
  pose proof (lookup_lt_Some _ _ _ Hc) as Hlt.
  pose proof (proj1 (Forall_lookup _ _) Hff j c Hc) as Hfaults. cbv beta in Hfaults.
  assert (Hnil : forall call : SdkCall, bool_decide (call ∈ @nil SdkCall) = false)
    by (intros call; apply bool_decide_eq_false_2; inversion 1).
  unfold set_status. rewrite !Hc.
  destruct (cam_streaming c) eqn:Hs, (cam_initialized c) eqn:Hi;
    repeat (cbv beta iota;
            first [ rewrite Hc | rewrite Hfaults | rewrite Hnil | rewrite Hs | rewrite Hi
                  | rewrite Ha | rewrite list_lookup_insert_eq by done
                  | progress cbn [cameras update_camera with_cameras cam_initialized
                                  cam_streaming cam_faults with_status negb orb
                                  image_acquirer] ]);
    unfold with_acquirer, with_cameras, update_camera, with_status, reset_acquirer; cbn;
    rewrite ?list_insert_insert_eq; try reflexivity.
  all: repeat f_equal; symmetry; apply list_insert_id; rewrite Hc; f_equal;
    destruct c; simpl in *; congruence.
Qed.

Lemma find_serial_from (s : string) (l pre : list Camera) :
  List.find (fun i => match (pre ++ l)%list !! i with
                      | Some c => String.eqb (cam_serial c) s
                      | None => false
                      end) (seq (length pre) (length l))
  = (fun x => (length pre + fst x)%nat) <$> list_find (fun c => cam_serial c = s) l.
Proof.
  revert pre. induction l as [|c l IH]; intros pre; [reflexivity |].
  cbn [length seq List.find list_find].
  rewrite (list_lookup_middle pre l c (length pre) eq_refl).
  destruct (String.eqb_spec (cam_serial c) s) as [Heq | Hne].
  - rewrite decide_True by done. cbn. f_equal. lia.
  - rewrite decide_False by done.
    specialize (IH (pre ++ [c])%list). rewrite <- app_assoc, length_app in IH.
    cbn [app length] in IH. rewrite Nat.add_1_r in IH. rewrite IH.
    destruct (list_find _ l) as [[k x]|]; cbn; [f_equal; lia | reflexivity].
Qed.

Lemma GetBySerial_match (w : World) (s : string) :
  GetBySerial (seq 0 (length (cameras w))) s w
  = (Ok (match serial_match (cameras w) s with
         | Some j => CamRef j
         | None => NullPtr
         end), w).
Proof.
  unfold GetBySerial, gets, serial_match.
  pose proof (find_serial_from s (cameras w) []) as H. cbn [app length] in H.
  rewrite H. by destruct (list_find _ (cameras w)) as [[k x]|].
Qed.

Lemma serial_match_lt (cams : list Camera) (s : string) (j : nat) :
  serial_match cams s = Some j -> (j < length cams)%nat.
Proof.
  unfold serial_match. destruct (list_find _ cams) as [[k x]|] eqn:E; [| done].
  intros [= <-]. apply list_find_Some in E as (Hk & _). by eapply lookup_lt_Some.
Qed.

Lemma resolve_device_lt (cams : list Camera) serial index (k : nat) :
  resolve_device cams serial index = Some k -> (k < length cams)%nat.
Proof.
  unfold resolve_device.
  destruct (serial ≫= serial_match cams) as [j|] eqn:E.
  - intros [= <-]. destruct serial as [s|]; [| done]. by eapply serial_match_lt.
  - destruct index as [i|]; [| done]. by case_decide; intros [= <-].
Qed.

Lemma fault_free_set_status (cams : list Camera) (k : nat) (b1 b2 : bool) :
  fault_free cams -> fault_free (set_status b1 b2 k cams).
Proof.
  intros H. unfold set_status. destruct (cams !! k) as [c|] eqn:E; [| done].
  apply Forall_insert; [done |]. cbn. exact (proj1 (Forall_lookup _ _) H k c E).
Qed.

Lemma length_set_status (cams : list Camera) (k : nat) (b1 b2 : bool) :
  length (set_status b1 b2 k cams) = length cams.
Proof. unfold set_status. destruct (cams !! k); [apply length_insert | done]. Qed.

Lemma length_close_prior (a : ImageAcquirer) (cams : list Camera) :
  length (close_prior a cams) = length cams.
Proof.
  unfold close_prior. destruct (_current_device a) as [[|j]|]; try done.
  apply length_set_status.
Qed.

Lemma fault_free_close_prior (a : ImageAcquirer) (cams : list Camera) :
  fault_free cams -> fault_free (close_prior a cams).
Proof.
  unfold close_prior. destruct (_current_device a) as [[|j]|]; try done.
  apply fault_free_set_status.
Qed.

(** The tail of [init_device]: the selected camera is initialised and a
    leftover acquisition stopped; an SDK error of the stop is swallowed. *)
Lemma init_selected (w : World) (a : ImageAcquirer) (k : nat) (ck : Camera) :
  image_acquirer w = Some a ->
  _current_device a = Some (CamRef k) ->
  cameras w !! k = Some ck ->
  cam_faults ck = [] ->
  (Init (CamRef k);;
   try_except end_acquisition is_ValueError (fun _ => ret tt);;
   ret true) w
  = (Ok true, update_camera k (with_status ck true false) w).
Proof.
  intros Ha Hd Hk Hfaults.
  pose proof (lookup_lt_Some _ _ _ Hk) as Hlt.
  assert (Hnil : forall call : SdkCall, bool_decide (call ∈ @nil SdkCall) = false)
    by (intros call; apply bool_decide_eq_false_2; inversion 1).
  unfold Init, end_acquisition, EndAcquisition, current_device, camera_id, put_camera,
    self_acq, get_camera, cam_fails.
  run_method.
  destruct (cam_streaming ck) eqn:Hs;
    repeat (cbv beta iota;
            first [ rewrite Hk | rewrite Hfaults | rewrite Hnil | rewrite Hs
                  | rewrite Ha | rewrite Hd | rewrite list_lookup_insert_eq by done
                  | progress cbn [cameras update_camera with_cameras cam_initialized
                                  cam_streaming cam_faults with_status negb orb
                                  image_acquirer is_SpinnakerException is_ValueError] ]);
    unfold with_cameras, update_camera, with_status; cbn;
    rewrite ?list_insert_insert_eq; reflexivity.
Qed.

Lemma update_device_list_eq (w : World) (a : ImageAcquirer) :
  image_acquirer w = Some a ->
  update_device_list w
  = (Ok tt, with_acquirer (Some (set_device_list (seq 0 (length (cameras w))) a)) w).
Proof.
  intros Ha. unfold update_device_list, GetCameras, put_acq, self_acq. run_method.
  by rewrite Ha.
Qed.

Lemma first_valid_candidates (cams : list Camera) serial index :
  first_valid
    (match serial with
     | Some s => [match serial_match cams s with
                  | Some j => CamRef j
                  | None => NullPtr
                  end]
     | None => []
     end
     ++ match index with
        | Some k => if (k <? length cams)%nat then [CamRef k] else []
        | None => []
        end)%list
  = CamRef <$> resolve_device cams serial index.
Proof.
  unfold first_valid, resolve_device.
  destruct serial as [s|]; cbn [mbind option_bind app List.find].
  - destruct (serial_match cams s) as [j|]; cbn [IsValid]; [reflexivity |].
    destruct index as [k|]; [| reflexivity].
    destruct (Nat.ltb_spec k (length cams)).
    + by rewrite decide_True.
    + by rewrite decide_False by lia.
  - destruct index as [k|]; [| reflexivity].
    destruct (Nat.ltb_spec k (length cams)).
    + by rewrite decide_True.
    + by rewrite decide_False by lia.
Qed.

(** [init_device] against the spec's open: close the prior handle, resolve
    the candidates, open the first valid one. *)
Lemma init_device_spec (w : World) (a : ImageAcquirer) serial index :
  image_acquirer w = Some a ->
  (forall j, _current_device a = Some (CamRef j) -> is_Some (cameras w !! j)) ->
  fault_free (cameras w) ->
  init_device serial index w
  = match resolve_device (close_prior a (cameras w)) serial index with
    | None =>
        (Raise (ValueError (MsgNoDevice serial index)),
         with_acquirer (Some (opened_acquirer a (length (cameras w)) None))
           (with_cameras (close_prior a (cameras w)) w))
    | Some k =>
        (Ok true,
         with_acquirer (Some (opened_acquirer a (length (cameras w)) (Some (CamRef k))))
           (with_cameras (set_status true false k (close_prior a (cameras w))) w))
    end.
Proof.
  intros Ha Hprior Hff. unfold init_device.
  rewrite (bind_ok _ _ _ _ _ (_reset_cam_closes w a Ha Hprior Hff)).
  set (cams1 := close_prior a (cameras w)).
  set (w1 := with_acquirer _ _).
  assert (Hlen : length cams1 = length (cameras w)) by apply length_close_prior.
  rewrite (bind_ok _ _ _ _ _ (update_device_list_eq w1 (reset_acquirer a) eq_refl)).
  set (w2 := with_acquirer _ w1).
  rewrite (bind_ok _ _ _ _ _ (self_acq_eq w2 _ eq_refl)).
  cbn [_device_list set_device_list cameras w1 with_acquirer with_cameras].
  assert (Hserial :
            match serial with
            | Some s => let* d := GetBySerial (seq 0 (length cams1)) s in ret [d]
            | None => ret []
            end w2
            = (Ok match serial with
                  | Some s => [match serial_match cams1 s with
                               | Some j => CamRef j
                               | None => NullPtr
                               end]
                  | None => []
                  end, w2)).
  { destruct serial as [s|]; [| reflexivity].
    by rewrite (bind_ok _ _ _ _ _ (GetBySerial_match w2 s)). }
  rewrite (bind_ok _ _ _ _ _ Hserial).
  assert (Hindex :
            match index with
            | Some k =>
                let* count := get_device_count false in
                if (k <? count)%nat
                then let* d := GetByIndex (seq 0 (length cams1)) k in ret [d]
                else ret []
            | None => ret []
            end w2
            = (Ok match index with
                  | Some k => if (k <? length cams1)%nat then [CamRef k] else []
                  | None => []
                  end, w2)).
  { destruct index as [k|]; [| reflexivity].
    assert (Hcount : get_device_count false w2 = (Ok (length cams1), w2)).
    { unfold get_device_count, self_acq. run_method. simpl. by rewrite length_seq. }
    rewrite (bind_ok _ _ _ _ _ Hcount).
    destruct (Nat.ltb_spec k (length cams1)); [| reflexivity].
    unfold GetByIndex. by rewrite lookup_seq_lt. }
  rewrite (bind_ok _ _ _ _ _ Hindex).
  rewrite (bind_ok _ _ _ _ _ (self_acq_eq w2 _ eq_refl)).
  rewrite first_valid_candidates.
  destruct (resolve_device cams1 serial index) as [k|] eqn:Hres;
    cbn [fmap option_fmap option_map];
    match goal with
    | |- bind (put_acq ?x) _ _ = _ =>
        rewrite (bind_ok (put_acq x) _ w2 tt (with_acquirer (Some x) w2) eq_refl)
    end.
  - pose proof (resolve_device_lt _ _ _ _ Hres) as Hk.
    destruct (lookup_lt_is_Some_2 cams1 k Hk) as [ck Hck].
    erewrite (init_selected _ _ k ck); [| reflexivity | reflexivity | exact Hck |].
    + unfold set_status. rewrite Hck. subst w2 w1. cbn [cameras with_acquirer with_cameras].
      rewrite Hlen. reflexivity.
    + exact (proj1 (Forall_lookup _ _) (fault_free_close_prior a _ Hff) k ck Hck).
  - subst w2 w1. cbn [cameras with_acquirer with_cameras]. rewrite Hlen. reflexivity.
Qed.

(** The acquirer [init_device] leaves on success is ready for node
    access on the selected camera. *)
Lemma opened_acquirer_ready (w : World) (a : ImageAcquirer) (n k : nat) :
  image_acquirer w = Some (opened_acquirer a n (Some (CamRef k))) -> ready k w.
Proof.
  intros H. eexists. split; [exact H |]. split; [reflexivity |].
  intros s m. destruct s; discriminate.
Qed.

(** C9.  [init_device] first closes the prior handle: a camera that is
    neither streaming nor initialised is left alone (nothing is called on
    it), any other ends up stopped and deinitialised.  It then selects the
    spec's candidate (the camera with the serial, else the camera at the
    index when the index is in range), initialises it and stops a leftover
    acquisition.  It raises the no-device error exactly when the spec
    resolves no candidate.  Closing twice is closing once. *)
Theorem init_device_opens_first_valid_candidate :
  (forall w a,
      image_acquirer w = Some a ->
      match _current_device a with
      | Some (CamRef j) =>
          exists c, cameras w !! j = Some c
                    /\ cam_streaming c = false /\ cam_initialized c = false
      | _ => True
      end ->
      _reset_cam w = (Ok tt, with_acquirer (Some (reset_acquirer a)) w))
  /\ (forall w a serial index,
      image_acquirer w = Some a ->
      (forall j, _current_device a = Some (CamRef j) -> is_Some (cameras w !! j)) ->
      fault_free (cameras w) ->
      init_device serial index w
      = match resolve_device (close_prior a (cameras w)) serial index with
        | None =>
            (Raise (ValueError (MsgNoDevice serial index)),
             with_acquirer (Some (opened_acquirer a (length (cameras w)) None))
               (with_cameras (close_prior a (cameras w)) w))
        | Some k =>
            (Ok true,
             with_acquirer
               (Some (opened_acquirer a (length (cameras w)) (Some (CamRef k))))
               (with_cameras (set_status true false k (close_prior a (cameras w))) w))
        end
      /\ (fst (init_device serial index w) = Raise (ValueError (MsgNoDevice serial index))
          <-> resolve_device (close_prior a (cameras w)) serial index = None)
      /\ _reset_cam (snd (_reset_cam w)) = (Ok tt, snd (_reset_cam w))).
Proof.
  split; [exact _reset_cam_idle |].
  intros w a serial index Ha Hprior Hff.
  pose proof (init_device_spec w a serial index Ha Hprior Hff) as Hspec.
  split; [exact Hspec |]. split.
  - rewrite Hspec.
    destruct (resolve_device (close_prior a (cameras w)) serial index); cbn [fst];
      split; congruence.
  - rewrite (_reset_cam_closes w a Ha Hprior Hff). cbn [snd].
    exact (_reset_cam_idle
             (with_acquirer (Some (reset_acquirer a))
                (with_cameras (close_prior a (cameras w)) w))
             (reset_acquirer a) eq_refl I).
Qed.

Lemma init_device_opens_first_valid_candidate_witness :
  init_device (Some "B") (Some 0%nat) two_camera_world
  = (Ok true,
     with_acquirer (Some (opened_acquirer (acquirer_on 2 0) 2 (Some (CamRef 1))))
       (with_cameras [with_status (streaming_camera []) false false;
                      with_status (with_serial "B" demo_camera) true false]
          two_camera_world)).
Proof.
  refine (proj1 (proj2 init_device_opens_first_valid_candidate two_camera_world
                   (acquirer_on 2 0) (Some "B") (Some 0%nat) _ _ _)).
  - reflexivity.
  - intros j Hj. inversion Hj. vm_compute. eauto.
  - repeat constructor.
Defined.

(** ** Teardown *)

(** What [_reset_cam] does to the acquirer and the SDK instance: on
    success the acquirer is reset, on an exception it is as it was; the SDK
    instance is not touched. *)
Lemma _reset_cam_outcome (w : World) (a : ImageAcquirer) :
  image_acquirer w = Some a ->
  system_held (snd (_reset_cam w)) = system_held w
  /\ image_acquirer (snd (_reset_cam w))
     = Some (match fst (_reset_cam w) with
             | Ok _ => reset_acquirer a
             | Raise _ => a
             end).
Proof.
  intros Ha.
  unfold _reset_cam, IsStreaming, IsInitialized, EndAcquisition, DeInit, camera_id,
    put_acq, put_camera, self_acq, get_camera.
  run_method. rewrite Ha.
  destruct (_current_device a) as [[|j]|]; cbn [IsValid]; rewrite ?Ha; [by split | | by split].
  repeat (cbv beta iota;
          first [ rewrite Ha
                | progress cbn [image_acquirer system_held update_camera with_cameras
                                with_acquirer fst snd]
                | case_match ]);
    simplify_eq; cbn [image_acquirer system_held update_camera with_cameras
                      with_acquirer fst snd] in *;
    try (split; [reflexivity | congruence]); try congruence.
  all: split; [reflexivity |]; unfold reset_acquirer; congruence.
Qed.

(** C8, as amended.  Teardown is fail-fast: [__del__] releases the device
    list and the SDK instance exactly when [_reset_cam] completes; when
    stopping acquisition or deinitialising raises, [__del__] raises the
    same exception and releases neither. *)
Theorem teardown_releases_iff_reset_completes (w : World) (a : ImageAcquirer) :
  image_acquirer w = Some a ->
  system_held w = true ->
  (system_resources_released (snd (ImageAcquirer_del w)) <-> fst (_reset_cam w) = Ok tt)
  /\ (forall e, fst (_reset_cam w) = Raise e ->
        fst (ImageAcquirer_del w) = Raise e
        /\ system_held (snd (ImageAcquirer_del w)) = true
        /\ _device_list <$> image_acquirer (snd (ImageAcquirer_del w))
           = Some (_device_list a)).
Proof.
  intros Ha Hheld.
  destruct (_reset_cam_outcome w a Ha) as [Hsys Hacq].
  unfold ImageAcquirer_del.
  destruct (_reset_cam w) as [[[]|e] w1] eqn:E; cbn [fst snd] in *.
  - rewrite (bind_ok _ _ _ _ _ E).
    rewrite (bind_ok _ _ _ _ _ (self_acq_eq w1 _ Hacq)).
    split; [| intros e; discriminate].
    split; [reflexivity |]. intros _. split; reflexivity.
  - rewrite (bind_raise _ _ _ _ _ E). cbn [fst snd].
    split.
    + split; [| discriminate]. intros [Hfalse _]. congruence.
    + intros e' [= <-]. split; [reflexivity |]. split; [congruence |].
      by rewrite Hacq.
Qed.

Lemma teardown_releases_iff_reset_completes_witness :
  system_resources_released (snd (ImageAcquirer_del (opened_world [streaming_camera []]))).
Proof.
  refine (proj2 (proj1 (teardown_releases_iff_reset_completes
                          (opened_world [streaming_camera []]) (acquirer_on 1 0) _ _)) _);
    reflexivity.
Defined.

(** C8, as stated, fails: when stopping the acquisition raises, [__del__]
    ends there, and neither the device list nor the SDK instance is
    released. *)
Lemma teardown_stops_at_first_error :
  fst (ImageAcquirer_del unplugged_world) = Raise (SpinnakerException CallEndAcquisition)
  /\ ~ system_resources_released (snd (ImageAcquirer_del unplugged_world)).
Proof.
  split; [reflexivity |]. intros [H _]. vm_compute in H. discriminate H.
Qed.

(** ** Capability probing *)

(** C1 fails on the code.  The camera idles on RGB8 and its [Width] node
    is not available.  The probe switches to Mono8, the first supported
    entry; the width range query fails and [get_cam_node_range] answers
    [(None, None)]; [range(None, None)] raises [TypeError], which leaves
    [get_camera_caps] before the line that restores the pixel format.  The
    device stays on Mono8, also after [do_start] has caught the exception
    and reported failure. *)
Theorem probing_leaves_pixel_format_changed :
  fst (get_node_val "PixelFormat" (opened_world [width_unavailable_camera]))
  = Ok (VStr "RGB8")
  /\ fst (get_camera_caps (opened_world [width_unavailable_camera])) = Raise TypeError
  /\ fst (get_node_val "PixelFormat"
            (snd (get_camera_caps (opened_world [width_unavailable_camera]))))
     = Ok (VStr "Mono8")
  /\ fst (do_start (unstarted_world [width_unavailable_camera])) = Ok false
  /\ fst (get_node_val "PixelFormat"
            (snd (do_start (unstarted_world [width_unavailable_camera]))))
     = Ok (VStr "Mono8").
Proof. repeat split; vm_compute; reflexivity. Qed.

(** When every range query succeeds the probe does restore the format. *)
Lemma probing_restores_on_demo_camera :
  fst (get_node_val "PixelFormat" (snd (get_camera_caps (opened_world [demo_camera]))))
  = Ok (VStr "RGB8")
  /\ fmap (M := option) (fmap (M := list) caps_format)
       (fst_ok (get_camera_caps (opened_world [demo_camera])))
     = Some ["GRAY8"; "RGB"].
Proof. split; vm_compute; reflexivity. Qed.

(** ** Session setup *)

Lemma quiet_ret {A} (x : A) : quiet (ret x).
Proof. intros w e H. discriminate H. Qed.

Lemma quiet_raise {A} (e : Exn) :
  is_value_or_not_implemented e = false -> quiet (raise (A := A) e).
Proof. intros He w e' H. by inversion H; subst. Qed.

Lemma quiet_bind {A B} (m : M A) (k : A -> M B) :
  quiet m -> (forall x, quiet (k x)) -> quiet (bind m k).
Proof.
  intros Hm Hk w e. unfold bind.
  destruct (m w) as [[x | e'] w'] eqn:E.
  - apply Hk.
  - intros H. inversion H; subst. apply (Hm w). by rewrite E.
Qed.

Lemma quiet_modify (f : World -> World) : quiet (modify f).
Proof. intros w e H. discriminate H. Qed.

Lemma quiet_gets {A} (f : World -> A) : quiet (gets f).
Proof. intros w e H. discriminate H. Qed.

Lemma quiet_when (c : bool) (body : M unit) : quiet body -> quiet (when c body).
Proof. destruct c; [done | intros _; apply quiet_ret]. Qed.

(** A handler that does not raise turns any body into a quiet method. *)
Lemma quiet_handled {A} (body : M A) (handler : Exn -> M A) :
  (forall ex, quiet (handler ex)) ->
  quiet (try_except body is_value_or_not_implemented handler).
Proof.
  intros Hh w e. unfold try_except.
  destruct (body w) as [[x | e'] w'] eqn:E; [discriminate |].
  destruct (is_value_or_not_implemented e') eqn:Hc.
  - apply Hh.
  - intros H. inversion H; by subst.
Qed.

(** [set_cam_node_val] turns every node failure into a warning. *)
Lemma quiet_set_cam_node_val (node_name : string) (value : Value) (log_value : bool) :
  quiet (set_cam_node_val node_name value log_value).
Proof. apply quiet_handled. intros ex. apply quiet_modify. Qed.

Lemma quiet_cam_node_available (node_name : string) : quiet (cam_node_available node_name).
Proof.
  apply quiet_handled. intros ex. apply quiet_bind; [apply quiet_modify |].
  intros _. apply quiet_ret.
Qed.

Lemma returns_true_bind {A} (m : M A) (k : A -> M bool) :
  (forall x, returns_true (k x)) -> returns_true (bind m k).
Proof.
  intros Hk w b. unfold bind. destruct (m w) as [[x | e] w']; [apply Hk | discriminate].
Qed.

Lemma returns_true_ret : returns_true (ret true).
Proof. intros w b H. by inversion H. Qed.

(** X2.  The [except] clause of [apply_caps_to_cam] is never entered: no
    failure of a node makes it return [False]. *)
Lemma apply_caps_to_cam_never_false (w : World) : fst (apply_caps_to_cam w) <> Ok false.
Proof.
  unfold apply_caps_to_cam. unfold bind at 1. unfold Gst_info at 1, modify at 1.
  set (w0 := with_log _ w).
  match goal with
  | |- fst (try_except ?body _ _ _) <> _ => set (B := body)
  end.
  assert (Hq : quiet B); [subst B | assert (Ht : returns_true B); [subst B |]].
  - apply quiet_bind; [apply quiet_gets | intros self].
    apply quiet_bind; [| intros genicam_format].
    { destruct (get_format_from_gst _); [apply quiet_ret | by apply quiet_raise]. }
    repeat (apply quiet_bind; [apply quiet_set_cam_node_val | intros _]).
    apply quiet_bind; [apply quiet_cam_node_available | intros enable].
    apply quiet_bind; [| intros _].
    { destruct enable; [apply quiet_set_cam_node_val |].
      apply quiet_bind; [apply quiet_set_cam_node_val | intros _].
      apply quiet_set_cam_node_val. }
    apply quiet_bind; [| intros rate].
    { unfold py_truediv, lift. destruct (_ =? 0); intros w1 e H; inversion H; by subst. }
    apply quiet_bind; [apply quiet_set_cam_node_val | intros _]. apply quiet_ret.
  - repeat (apply returns_true_bind; intros ?). apply returns_true_ret.
  - unfold try_except. specialize (Hq w0). specialize (Ht w0).
    destruct (B w0) as [[b | e] w1]; cbn [fst] in *.
    + intros [= ->]. by specialize (Ht false eq_refl).
    + rewrite (Hq e eq_refl). discriminate.
Qed.

(** C7 fails on the code for the mandatory steps.  The caps ask for a
    width of 640 and the camera's [Width] is read-only: [set_cam_node_val]
    logs the failure as a warning, [apply_caps_to_cam] returns [True],
    [do_set_caps] reports success and the camera streams at the width it
    had.  A refused acquisition start does fail the operation, and a
    missing optional node does not fail [do_start]. *)
Theorem rejected_caps_do_not_fail_startup :
  fst (do_set_caps vga_gray8 (opened_world [width_read_only_camera])) = Ok true
  /\ gst_log (snd (do_set_caps vga_gray8 (opened_world [width_read_only_camera]))) !! 4%nat
     = Some (GstWarning (OfExn (ValueError (MsgNotWritable "Width"))))
  /\ integer_value_of "Width"
       (snd (do_set_caps vga_gray8 (opened_world [width_read_only_camera]))) = Some 720
  /\ cam_streaming
       <$> cameras (snd (do_set_caps vga_gray8 (opened_world [width_read_only_camera])))
     = [true]
  /\ fst (do_set_caps vga_gray8 (opened_world [busy_camera])) = Ok false
  /\ fst (do_start (unstarted_world [demo_camera])) = Ok true
  /\ gst_log (snd (do_start (unstarted_world [demo_camera]))) !! 7%nat
     = Some (GstWarning (OfExn (ValueError (MsgNodeNotAvailable "ExposureAuto")))).
Proof. repeat split; vm_compute; reflexivity. Qed.

(** * Further properties *)

(** ** Properties of the element *)

Lemma property_round_trip_witness :
  fst (set_then_get "gain" (VFloat (3 # 2)) (opened_world [demo_camera]))
  = Ok (VFloat (3 # 2)).
Proof.
  refine (property_round_trip "gain" (opened_world [demo_camera]) (VFloat (3 # 2)) _ _).
  - vm_compute. repeat constructor.
  - discriminate.
Defined.

Lemma not_in_gproperties (name : string) :
  name ∉ gproperties ->
  Forall (fun known => String.eqb name known = false) gproperties.
Proof.
  intros Hnot. apply Forall_forall. intros known Hin.
  apply String.eqb_neq. intros ->. by apply Hnot.
Qed.

(** X3.  A name outside the property table is rejected by both accessors
    with the unknown property error, and the rejected write leaves the
    element as it was. *)
Theorem unknown_property_rejected (name : string) (value : Value) (w : World) :
  name ∉ gproperties ->
  fst (do_get_property name w) = Raise (AttributeError (MsgUnknownProperty name))
  /\ fst (do_set_property name value w) = Raise (AttributeError (MsgUnknownProperty name))
  /\ element (snd (do_set_property name value w)) = element w.
Proof.
  intros Hnot. apply not_in_gproperties in Hnot. unfold gproperties in Hnot.
  repeat match goal with
         | H : Forall _ (_ :: _) |- _ => apply Forall_cons in H as [? H]
         end.
  unfold do_get_property, do_set_property, bind, gets, Gst_info, modify.
  repeat match goal with
         | H : String.eqb name _ = false |- _ => rewrite !H; clear H
         end.
  repeat split.
Qed.

Lemma unknown_property_rejected_witness :
  fst (do_get_property "exposure-time" (opened_world [demo_camera]))
  = Raise (AttributeError (MsgUnknownProperty "exposure-time"))
  /\ fst (do_set_property "exposure-time" (VInt 5) (opened_world [demo_camera]))
     = Raise (AttributeError (MsgUnknownProperty "exposure-time"))
  /\ element (snd (do_set_property "exposure-time" (VInt 5) (opened_world [demo_camera])))
     = element (opened_world [demo_camera]).
Proof.
  refine (unknown_property_rejected "exposure-time" (VInt 5) (opened_world [demo_camera]) _).
  vm_compute. intros H. repeat (inversion H as [|? ? ? H']; clear H; rename H' into H).
Defined.

(** X4.  Setting one property leaves what every other property reads as
    untouched. *)
Theorem property_write_is_local (set_name get_name : string) (value : Value) (w : World) :
  set_name ∈ gproperties ->
  get_name ∈ gproperties ->
  set_name <> get_name ->
  fst (set_then_get_other set_name get_name value w) = fst (do_get_property get_name w).
Proof.
  intros Hs Hg Hne. unfold gproperties in Hs, Hg.
  repeat (apply elem_of_cons in Hs as [-> | Hs]);
    try (by inversion Hs);
    repeat (apply elem_of_cons in Hg as [-> | Hg]);
    try (by inversion Hg); first [reflexivity | congruence].
Qed.

Lemma property_write_is_local_witness :
  fst (set_then_get_other "exposure" "gain" (VFloat 100) (opened_world [demo_camera]))
  = fst (do_get_property "gain" (opened_world [demo_camera])).
Proof.
  refine (property_write_is_local "exposure" "gain" (VFloat 100)
            (opened_world [demo_camera]) _ _ _).
  - vm_compute. repeat constructor.
  - vm_compute. repeat constructor.
  - discriminate.
Defined.

(** ** The pixel format table *)

(** X5.  The table is a bijection between output names and device names,
    read without regard to letter case: any spelling of an entry's output
    name finds that entry, and so does any spelling of its device name. *)
Theorem pixel_format_lookup_inverse (f : PixelFormatType) :
  f ∈ SUPPORTED_PIXEL_FORMATS ->
  (forall s, lower s = lower (gst f) -> get_format_from_gst s = Some f)
  /\ (forall s, lower s = lower (genicam f) -> get_format_from_genicam s = Some f).
Proof.
  intros Hin. unfold SUPPORTED_PIXEL_FORMATS in Hin.
  repeat (apply elem_of_cons in Hin as [-> | Hin]); try (by inversion Hin);
    (split; intros s Hs; unfold get_format_from_gst, get_format_from_genicam;
     rewrite Hs; vm_compute; reflexivity).
Qed.

Lemma pixel_format_lookup_inverse_witness :
  get_format_from_gst "gray8"
  = Some {| cap_type := RAW_CAP_TYPE; gst := "GRAY8"; genicam := "Mono8" |}
  /\ get_format_from_genicam "MONO8"
     = Some {| cap_type := RAW_CAP_TYPE; gst := "GRAY8"; genicam := "Mono8" |}.
Proof.
  assert (Hin : {| cap_type := RAW_CAP_TYPE; gst := "GRAY8"; genicam := "Mono8" |}
                ∈ SUPPORTED_PIXEL_FORMATS) by (vm_compute; repeat constructor).
  split.
  - exact (proj1 (pixel_format_lookup_inverse _ Hin) "gray8" eq_refl).
  - exact (proj2 (pixel_format_lookup_inverse _ Hin) "MONO8" eq_refl).
Defined.

(** ** Node access by name *)

Section ByName.
Variables (i : nat) (w : World) (c : Camera) (name : string) (n : Node).
Hypothesis Hready : ready i w.
Hypothesis Hc : cameras w !! i = Some c.
Hypothesis Hinit : cam_initialized c = true.
Hypothesis Hnode : resolved_node c name = Some n.

Lemma resolved_scope :
  exists s, first_scope_with c name = Some s /\ scope_map c s !! name = Some n.
Proof.
  unfold resolved_node in Hnode.
  destruct (first_scope_with c name) as [s|]; [| discriminate]. by exists s.
Qed.

(** The lookup finds the node and leaves the cameras alone. *)
Lemma _get_node_finds :
  exists s w1,
    first_scope_with c name = Some s
    /\ scope_map c s !! name = Some n
    /\ _get_node name w = (Ok (Some (node_ptr i s name)), w1)
    /\ ready i w1 /\ same_devices w w1
    /\ cameras w1 !! i = Some c
    /\ deref (node_ptr i s name) w1 = (Ok n, w1).
Proof.
  destruct resolved_scope as (s & Hs & Hn).
  destruct (_get_node_resolves i w c name Hready Hc Hinit) as (w1 & E & Hr1 & Hsame).
  rewrite Hs in E. cbn [fmap option_fmap option_map] in E.
  assert (Hc1 : cameras w1 !! i = Some c) by (destruct Hsame as [-> _]; exact Hc).
  exists s, w1. split_and!; try done.
  exact (deref_lookup w1 (node_ptr i s name) c n Hc1 Hn).
Qed.

Hypothesis Htyped : node_has_interface_type n = true.

(** Starts a proof about an accessor by name: runs the lookup and the
    read of the node. *)
Ltac by_name :=
  destruct _get_node_finds as (s & w1 & Hs & Hn & E & Hr1 & Hsame & Hc1 & D);
  unfold fails_with, get_node_val, set_node_val, execute_node, get_node_range,
    get_node_entries;
  rewrite ?(bind_ok _ _ _ _ _ E), ?(bind_ok _ _ _ _ _ D), ?Htyped; cbn [negb].

Lemma string_and_command_nodes :
  (GetPrincipalInterfaceType n = intfIString ->
   fails_with (get_node_val name) w (NotImplementedError MsgNoStringAccess)
   /\ forall value,
        fails_with (set_node_val name value) w (NotImplementedError MsgNoStringAccess))
  /\ (GetPrincipalInterfaceType n = intfICommand ->
      fails_with (get_node_val name) w (NotImplementedError MsgNoCommandAccess)
      /\ forall value,
           fails_with (set_node_val name value) w (NotImplementedError MsgNoCommandAccess)).
Proof.
  split; intros Hk; (split; [| intros value]); by_name; rewrite Hk; by split.
Qed.

Lemma range_entries_execute_kinds :
  (GetPrincipalInterfaceType n <> intfIInteger ->
   GetPrincipalInterfaceType n <> intfIFloat ->
   fails_with (get_node_range name) w (ValueError (MsgRangeNotAvailable name)))
  /\ (GetPrincipalInterfaceType n <> intfIEnumeration ->
      fails_with (get_node_entries name) w (ValueError (MsgRangeNotAvailable name)))
  /\ (GetPrincipalInterfaceType n <> intfICommand ->
      fails_with (execute_node name) w (ValueError (MsgUnknownType name))).
Proof.
  split_and!; intros; by_name;
    destruct (GetPrincipalInterfaceType n); try congruence; by split.
Qed.

Lemma unwritable_node_rejects_set (value : Value) :
  value_kind (GetPrincipalInterfaceType n) = true ->
  IsAvailable n && IsWritable n = false ->
  fails_with (set_node_val name value) w (ValueError (MsgNotWritable (node_display_name n))).
Proof.
  intros Hk Hw.
  assert (Hchk : negb (IsAvailable n) || negb (IsWritable n) = true)
    by (destruct (IsAvailable n), (IsWritable n); done).
  by_name.
  destruct (GetPrincipalInterfaceType n); try discriminate Hk;
    unfold _set_int_node_val, _set_float_node_val, _set_bool_node_val, _set_enum_node_val;
    rewrite (bind_ok _ _ _ _ _ D), Hchk; by split.
Qed.

Lemma unreadable_node_rejects_get :
  value_kind (GetPrincipalInterfaceType n) = true ->
  IsAvailable n && IsReadable n = false ->
  fails_with (get_node_val name) w (ValueError (MsgNotReadable (node_display_name n))).
Proof.
  intros Hk Hw.
  assert (Hchk : negb (IsAvailable n) || negb (IsReadable n) = true)
    by (destruct (IsAvailable n), (IsReadable n); done).
  by_name.
  destruct (GetPrincipalInterfaceType n); try discriminate Hk;
    unfold _get_int_node_val, _get_float_node_val, _get_bool_node_val, _get_enum_node_val;
    rewrite (bind_ok _ _ _ _ _ D), Hchk; by split.
Qed.
End ByName.

(** The two theorems on accessors that refuse a node. *)

(** X6.  Dispatch on the node kind: String and Command nodes have no getter
    or setter ([NotImplementedError]); a range exists for Integer and Float
    nodes only, entries for Enumeration nodes only, and only Command nodes
    execute ([ValueError]).  A refused call changes nothing. *)
Theorem node_kind_dispatch (i : nat) (w : World) (c : Camera) (name : string) (n : Node) :
  ready i w ->
  cameras w !! i = Some c ->
  cam_initialized c = true ->
  resolved_node c name = Some n ->
  node_has_interface_type n = true ->
  (GetPrincipalInterfaceType n = intfIString ->
   fails_with (get_node_val name) w (NotImplementedError MsgNoStringAccess)
   /\ forall value,
        fails_with (set_node_val name value) w (NotImplementedError MsgNoStringAccess))
  /\ (GetPrincipalInterfaceType n = intfICommand ->
      fails_with (get_node_val name) w (NotImplementedError MsgNoCommandAccess)
      /\ forall value,
           fails_with (set_node_val name value) w (NotImplementedError MsgNoCommandAccess))
  /\ (GetPrincipalInterfaceType n <> intfIInteger ->
      GetPrincipalInterfaceType n <> intfIFloat ->
      fails_with (get_node_range name) w (ValueError (MsgRangeNotAvailable name)))
  /\ (GetPrincipalInterfaceType n <> intfIEnumeration ->
      fails_with (get_node_entries name) w (ValueError (MsgRangeNotAvailable name)))
  /\ (GetPrincipalInterfaceType n <> intfICommand ->
      fails_with (execute_node name) w (ValueError (MsgUnknownType name))).
Proof.
  intros Hr Hc Hi Hn Ht.
  destruct (string_and_command_nodes i w c name n Hr Hc Hi Hn Ht) as [H1 H2].
  destruct (range_entries_execute_kinds i w c name n Hr Hc Hi Hn Ht) as (H3 & H4 & H5).
  by split_and!.
Qed.

Lemma ready_opened_world (cams : list Camera) : ready 0 (opened_world cams).
Proof.
  exists (acquirer_on (length cams) 0). split; [reflexivity |]. split; [reflexivity |].
  intros s m. destruct s; discriminate.
Qed.

Lemma node_kind_dispatch_witness :
  fails_with (get_node_val "DeviceSerialNumber") (opened_world [demo_camera])
    (NotImplementedError MsgNoStringAccess)
  /\ fails_with (get_node_range "PixelFormat") (opened_world [demo_camera])
       (ValueError (MsgRangeNotAvailable "PixelFormat")).
Proof.
  split.
  - refine (proj1 (proj1 (node_kind_dispatch 0 (opened_world [demo_camera]) demo_camera
                            "DeviceSerialNumber"
                            (mk_node "Device Serial Number" RO (StringData "18475994"))
                            (ready_opened_world _) eq_refl eq_refl eq_refl eq_refl)
                     eq_refl)).
  - refine (proj1 (proj2 (proj2 (node_kind_dispatch 0 (opened_world [demo_camera])
                                   demo_camera "PixelFormat"
                                   (mk_node "Pixel Format" RW
                                      (EnumerationData [mk_entry "Mono8" 0; mk_entry "RGB8" 1] 1))
                                   (ready_opened_world _) eq_refl eq_refl eq_refl eq_refl)))
              _ _); discriminate.
Defined.

(** X7.  Every typed read checks that the node is available and readable,
    every typed write that it is available and writable: a node that fails
    the check makes the accessor raise [ValueError], and nothing is read
    from or written to the device. *)
Theorem node_access_is_checked (i : nat) (w : World) (c : Camera) (name : string)
    (n : Node) :
  ready i w ->
  cameras w !! i = Some c ->
  cam_initialized c = true ->
  resolved_node c name = Some n ->
  node_has_interface_type n = true ->
  value_kind (GetPrincipalInterfaceType n) = true ->
  (IsAvailable n && IsWritable n = false ->
   forall value,
     fails_with (set_node_val name value) w
       (ValueError (MsgNotWritable (node_display_name n))))
  /\ (IsAvailable n && IsReadable n = false ->
      fails_with (get_node_val name) w (ValueError (MsgNotReadable (node_display_name n)))).
Proof.
  intros Hr Hc Hi Hn Ht Hk. split.
  - intros Hw value.
    exact (unwritable_node_rejects_set i w c name n Hr Hc Hi Hn Ht value Hk Hw).
  - exact (unreadable_node_rejects_get i w c name n Hr Hc Hi Hn Ht Hk).
Qed.

Lemma node_access_is_checked_witness :
  fails_with (set_node_val "DeviceLinkSpeed" (VInt 100)) (opened_world [demo_camera])
    (ValueError (MsgNotWritable "Device Link Speed")).
Proof.
  refine (proj1 (node_access_is_checked 0 (opened_world [demo_camera]) demo_camera
                   "DeviceLinkSpeed"
                   (mk_node "Device Link Speed" RO (IntegerData 0 5000 5000))
                   (ready_opened_world _) eq_refl eq_refl eq_refl eq_refl eq_refl)
            eq_refl (VInt 100)).
Defined.

(** ** Reading and writing node values by name *)

(** X8.  A read by name returns the value of the node the name resolves
    to, and changes neither the device nor the element. *)
Theorem get_node_val_reads (i : nat) (w : World) (c : Camera) (name : string)
    (n : Node) (v : Value) :
  ready i w ->
  cameras w !! i = Some c ->
  cam_initialized c = true ->
  resolved_node c name = Some n ->
  node_has_interface_type n = true ->
  IsAvailable n = true ->
  IsReadable n = true ->
  node_value n = Some v ->
  fst (get_node_val name w) = Ok v /\ same_devices w (snd (get_node_val name w)).
Proof.
  intros Hr Hc Hi Hn Ht Ha Hrd Hv.
  destruct (_get_node_finds i w c name n Hr Hc Hi Hn)
    as (s & w1 & Hs & Hsn & E & Hr1 & Hsame & Hc1 & D).
  pose proof (typed_get_reads _ w1 n v D Ha Hrd Hv) as Hget.
  unfold get_node_val.
  rewrite (bind_ok _ _ _ _ _ E), (bind_ok _ _ _ _ _ D), Ht. cbn [negb].
  unfold node_value, GetPrincipalInterfaceType in *.
  destruct (node_data n); try discriminate Hv; by rewrite Hget.
Qed.

Lemma get_node_val_reads_witness :
  fst (get_node_val "PixelFormat" (opened_world [demo_camera])) = Ok (VStr "RGB8")
  /\ same_devices (opened_world [demo_camera])
       (snd (get_node_val "PixelFormat" (opened_world [demo_camera]))).
Proof.
  refine (get_node_val_reads 0 (opened_world [demo_camera]) demo_camera "PixelFormat"
            (mk_node "Pixel Format" RW
               (EnumerationData [mk_entry "Mono8" 0; mk_entry "RGB8" 1] 1))
            (VStr "RGB8") (ready_opened_world _) _ _ _ _ _ _ _); reflexivity.
Defined.

Section Stored.
Variables (i : nat) (w1 : World) (c : Camera) (name : string) (s : Scope) (n node' : Node).
Hypothesis Hr1 : ready i w1.
Hypothesis Hc1 : cameras w1 !! i = Some c.
Hypothesis Hinit : cam_initialized c = true.
Hypothesis Hs : first_scope_with c name = Some s.
Hypothesis Hn : scope_map c s !! name = Some n.

Lemma stored_ready : ready i (stored w1 (node_ptr i s name) c node').
Proof. destruct Hr1 as (a & Ha & Hd & Hcache). by exists a. Qed.

Lemma stored_cameras :
  cameras (stored w1 (node_ptr i s name) c node')
  = <[i := with_resolved_node c name node']> (cameras w1).
Proof. unfold stored, with_resolved_node. by rewrite Hs. Qed.

Lemma stored_camera :
  cameras (stored w1 (node_ptr i s name) c node') !! i
  = Some (with_resolved_node c name node').
Proof.
  rewrite stored_cameras. apply list_lookup_insert_eq. by eapply lookup_lt_Some.
Qed.

Lemma stored_resolved : resolved_node (with_resolved_node c name node') name = Some node'.
Proof.
  unfold resolved_node, with_resolved_node. rewrite Hs.
  assert (Hfs : first_scope_with (with_scope_map c s (<[name:=node']> (scope_map c s))) name
                = Some s).
  { unfold first_scope_with, scope_order in *. cbn [List.find] in *.
    destruct s;
      cbn [scope_map with_scope_map cam_node_map cam_tl_device_node_map
           cam_tl_stream_node_map] in *.
    - rewrite bool_decide_eq_true_2; [done | rewrite lookup_insert_eq; by eexists].
    - destruct (bool_decide (is_Some (cam_node_map c !! name))); [discriminate |].
      rewrite bool_decide_eq_true_2; [done | rewrite lookup_insert_eq; by eexists].
    - destruct (bool_decide (is_Some (cam_node_map c !! name))); [discriminate |].
      destruct (bool_decide (is_Some (cam_tl_device_node_map c !! name)));
        [discriminate |].
      rewrite bool_decide_eq_true_2; [done | rewrite lookup_insert_eq; by eexists]. }
  rewrite Hfs. cbn [mbind option_bind].
  destruct s; cbn [scope_map with_scope_map cam_node_map cam_tl_device_node_map
                   cam_tl_stream_node_map]; apply lookup_insert_eq.
Qed.

Lemma get_after_store (v' : Value) :
  node_has_interface_type node' = true ->
  IsAvailable node' = true ->
  IsReadable node' = true ->
  node_value node' = Some v' ->
  fst (get_node_val name (stored w1 (node_ptr i s name) c node')) = Ok v'.
Proof.
  intros Ht Ha Hrd Hv.
  refine (proj1 (get_node_val_reads i _ (with_resolved_node c name node') name node' v'
                   stored_ready stored_camera _ stored_resolved Ht Ha Hrd Hv)).
  unfold with_resolved_node. rewrite Hs. by destruct s.
Qed.
End Stored.

Lemma _set_bool_node_val_stores (w : World) (p : NodePtr) (c : Camera) (n : Node)
    (b : bool) (value : Value) :
  cameras w !! ptr_cam p = Some c ->
  scope_map c (ptr_scope p) !! ptr_name p = Some n ->
  IsAvailable n = true ->
  IsWritable n = true ->
  node_data n = BooleanData b ->
  _set_bool_node_val p value w
  = (Ok tt, stored w p c (with_data n (BooleanData (py_bool value)))).
Proof.
  intros Hc Hn Ha Hw Hd. unfold _set_bool_node_val.
  rewrite (bind_ok _ _ _ _ _ (deref_lookup w p c n Hc Hn)), Ha, Hw, Hd. cbn [negb orb].
  apply store_lookup, Hc.
Qed.



(** A write by name that reaches a typed setter which stores [node']:
    the write succeeds, the node is replaced where the name resolves, and a
    read by name sees the new node. *)
Lemma set_by_name_stores (i : nat) (w : World) (c : Camera) (name : string)
    (n node' : Node) (value : Value) (set : NodePtr -> Value -> M unit) :
  ready i w ->
  cameras w !! i = Some c ->
  cam_initialized c = true ->
  resolved_node c name = Some n ->
  node_has_interface_type n = true ->
  typed_setter (GetPrincipalInterfaceType n) = Some set ->
  (forall w1 s,
      cameras w1 !! i = Some c ->
      scope_map c s !! name = Some n ->
      set (node_ptr i s name) value w1
      = (Ok tt, stored w1 (node_ptr i s name) c node')) ->
  fst (set_node_val name value w) = Ok tt
  /\ cameras (snd (set_node_val name value w))
     = <[i := with_resolved_node c name node']> (cameras w)
  /\ forall v',
       node_has_interface_type node' = true ->
       IsAvailable node' = true ->
       IsReadable node' = true ->
       node_value node' = Some v' ->
       fst (set_then_get_node name value w) = Ok v'.
Proof.
  intros Hr Hc Hi Hn Ht Hk Hset.
  destruct (_get_node_finds i w c name n Hr Hc Hi Hn)
    as (s & w1 & Hs & Hsn & E & Hr1 & Hsame & Hc1 & D).
  assert (Hrun : set_node_val name value w
                 = (Ok tt, stored w1 (node_ptr i s name) c node')).
  { unfold set_node_val.
    rewrite (bind_ok _ _ _ _ _ E), (bind_ok _ _ _ _ _ D), Ht. cbn [negb].
    destruct (GetPrincipalInterfaceType n); inversion Hk; subst set; by apply Hset. }
  split; [by rewrite Hrun |]. split.
  - rewrite Hrun. cbn [snd]. rewrite (stored_cameras i w1 c name s node' Hs).
    by destruct Hsame as [-> _].
  - intros v' Ht' Ha' Hr' Hv'. unfold set_then_get_node.
    rewrite (bind_ok _ _ _ _ _ Hrun).
    exact (get_after_store i w1 c name s n node' Hr1 Hc1 Hi Hs Hsn v' Ht' Ha' Hr' Hv').
Qed.

Lemma clamp_float_spec (lo hi v : Q) :
  (lo <= hi)%Q ->
  (clamp_float lo hi v == Qmax lo (Qmin hi v))%Q
  /\ Qle_bool lo (clamp_float lo hi v) && Qle_bool (clamp_float lo hi v) hi = true.
Proof.
  intros Hle. unfold clamp_float, Qltb.
  assert (Hlh : Qle_bool lo hi = true) by by apply Qle_bool_iff.
  assert (Hll : Qle_bool lo lo = true) by (apply Qle_bool_iff, Qle_refl).
  assert (Hhh : Qle_bool hi hi = true) by (apply Qle_bool_iff, Qle_refl).
  destruct (Qle_bool lo v) eqn:E1; cbn [negb].
  - destruct (Qle_bool v hi) eqn:E2; cbn [negb].
    + rewrite E1, E2. split; [| done]. apply Qle_bool_iff in E1, E2.
      rewrite (Q.min_r hi v E2). by rewrite (Q.max_r lo v E1).
    + rewrite Hlh, Hhh. split; [| done].
      assert (hi <= v)%Q.
      { destruct (Qlt_le_dec hi v) as [Hlt | Hge]; [by apply Qlt_le_weak |].
        apply Qle_bool_iff in Hge. congruence. }
      rewrite (Q.min_l hi v H). by rewrite (Q.max_r lo hi Hle).
  - rewrite Hlh. cbn [negb]. rewrite Hll, Hlh. split; [| done].
    assert (Hvl : (v <= lo)%Q).
    { destruct (Qlt_le_dec v lo) as [Hlt | Hge]; [by apply Qlt_le_weak |].
      apply Qle_bool_iff in Hge. congruence. }
    assert (Hvh : (v <= hi)%Q) by (eapply Qle_trans; eauto).
    rewrite (Q.min_r hi v Hvh). by rewrite (Q.max_l lo v Hvl).
Qed.

Lemma _set_float_node_val_stores (w : World) (p : NodePtr) (c : Camera) (n : Node)
    (lo hi cur v : Q) :
  cameras w !! ptr_cam p = Some c ->
  scope_map c (ptr_scope p) !! ptr_name p = Some n ->
  IsAvailable n = true ->
  IsWritable n = true ->
  node_data n = FloatData lo hi cur ->
  (lo <= hi)%Q ->
  _set_float_node_val p (VFloat v) w
  = (Ok tt, stored w p c (with_data n (FloatData lo hi (clamp_float lo hi v)))).
Proof.
  intros Hc Hn Ha Hw Hd Hle.
  destruct (clamp_float_spec lo hi v Hle) as [_ Hin].
  unfold _set_float_node_val.
  rewrite (bind_ok _ _ _ _ _ (deref_lookup w p c n Hc Hn)), Ha, Hw, Hd. cbn [negb orb].
  unfold py_max, py_min, lift. cbn [num]. unfold bind at 1.
  assert (Hstep : (if Qltb v lo then VFloat lo else VFloat v)
                  = VFloat (if Qltb v lo then lo else v)) by (by destruct (Qltb v lo)).
  rewrite Hstep. cbn [num]. unfold bind at 1.
  assert (Hstep2 : (if Qltb hi (if Qltb v lo then lo else v)
                    then VFloat hi else VFloat (if Qltb v lo then lo else v))
                   = VFloat (clamp_float lo hi v))
    by (unfold clamp_float; by destruct (Qltb hi _)).
  rewrite Hstep2. cbn [py_float num]. unfold bind at 1.
  unfold Float_SetValue.
  rewrite (bind_ok _ _ _ _ _ (deref_lookup w p c n Hc Hn)), Hd, Hin.
  apply store_lookup, Hc.
Qed.

(** X9.  Writing a number by name: an Integer node ends up holding the
    request clamped into its bounds, no other node changes, and reading the
    name back gives the clamped number; likewise for a Float node, whose
    clamped number equals [max lo (min hi v)]. *)
Theorem numeric_write_by_name (i : nat) (w : World) (c : Camera) (name : string)
    (n : Node) :
  ready i w ->
  cameras w !! i = Some c ->
  cam_initialized c = true ->
  resolved_node c name = Some n ->
  node_has_interface_type n = true ->
  node_access n = RW ->
  (forall lo hi cur v,
      node_data n = IntegerData lo hi cur ->
      lo <= hi ->
      cameras (snd (set_node_val name (VInt v) w))
      = <[i := with_resolved_node c name
                  (with_data n (IntegerData lo hi (Z.max lo (Z.min hi v))))]> (cameras w)
      /\ fst (set_then_get_node name (VInt v) w) = Ok (VInt (Z.max lo (Z.min hi v))))
  /\ (forall lo hi cur v,
      node_data n = FloatData lo hi cur ->
      (lo <= hi)%Q ->
      (clamp_float lo hi v == Qmax lo (Qmin hi v))%Q
      /\ cameras (snd (set_node_val name (VFloat v) w))
         = <[i := with_resolved_node c name
                     (with_data n (FloatData lo hi (clamp_float lo hi v)))]> (cameras w)
      /\ fst (set_then_get_node name (VFloat v) w) = Ok (VFloat (clamp_float lo hi v))).
Proof.
  intros Hr Hc Hi Hn Ht Hrw.
  assert (Ha : IsAvailable n = true) by (unfold IsAvailable; by rewrite Hrw).
  assert (Hw : IsWritable n = true) by (unfold IsWritable; by rewrite Hrw).
  assert (Hrd : IsReadable n = true) by (unfold IsReadable; by rewrite Hrw).
  split.
  - intros lo hi cur v Hd Hle.
    destruct (set_by_name_stores i w c name n
                (with_data n (IntegerData lo hi (Z.max lo (Z.min hi v)))) (VInt v)
                _set_int_node_val Hr Hc Hi Hn Ht) as (_ & Hcams & Hget).
    + unfold GetPrincipalInterfaceType. by rewrite Hd.
    + intros w1 s Hc1 Hsn.
      exact (_set_int_node_val_clamps w1 (node_ptr i s name) c n Hc1 Hsn Ha Hw
               lo hi cur v Hd Hle).
    + split; [exact Hcams |]. by apply Hget.
  - intros lo hi cur v Hd Hle.
    destruct (set_by_name_stores i w c name n
                (with_data n (FloatData lo hi (clamp_float lo hi v))) (VFloat v)
                _set_float_node_val Hr Hc Hi Hn Ht) as (_ & Hcams & Hget).
    + unfold GetPrincipalInterfaceType. by rewrite Hd.
    + intros w1 s Hc1 Hsn.
      exact (_set_float_node_val_stores w1 (node_ptr i s name) c n lo hi cur v
               Hc1 Hsn Ha Hw Hd Hle).
    + split; [exact (proj1 (clamp_float_spec lo hi v Hle)) |].
      split; [exact Hcams |]. by apply Hget.
Qed.

Lemma numeric_write_by_name_witness :
  fst (set_then_get_node "Width" (VInt 5000) (opened_world [demo_camera])) = Ok (VInt 1440)
  /\ fst (set_then_get_node "StreamBufferCountManual" (VInt 0) (opened_world [demo_camera]))
     = Ok (VInt 1).
Proof.
  split.
  - refine (proj2 (proj1 (numeric_write_by_name 0 (opened_world [demo_camera]) demo_camera
                            "Width" (mk_node "Width" RW (IntegerData 8 1440 720))
                            (ready_opened_world _) eq_refl eq_refl eq_refl eq_refl eq_refl)
                     8 1440 720 5000 eq_refl _)).
    lia.
  - refine (proj2 (proj1 (numeric_write_by_name 0 (opened_world [demo_camera]) demo_camera
                            "StreamBufferCountManual"
                            (mk_node "Stream Buffer Count Manual" RW (IntegerData 1 50 10))
                            (ready_opened_world _) eq_refl eq_refl eq_refl eq_refl eq_refl)
                     1 50 10 0 eq_refl _)).
    lia.
Defined.

(** X10.  Writing a Boolean node by name stores the truth value of
    whatever is written (so a non-empty string such as "Off" stores
    [True]), and reading the name back gives that truth value. *)
Theorem boolean_write_by_name (i : nat) (w : World) (c : Camera) (name : string)
    (n : Node) (b : bool) (value : Value) :
  ready i w ->
  cameras w !! i = Some c ->
  cam_initialized c = true ->
  resolved_node c name = Some n ->
  node_has_interface_type n = true ->
  node_access n = RW ->
  node_data n = BooleanData b ->
  cameras (snd (set_node_val name value w))
  = <[i := with_resolved_node c name (with_data n (BooleanData (py_bool value)))]>
      (cameras w)
  /\ fst (set_then_get_node name value w) = Ok (VBool (py_bool value)).
Proof.
  intros Hr Hc Hi Hn Ht Hrw Hd.
  assert (Ha : IsAvailable n = true) by (unfold IsAvailable; by rewrite Hrw).
  assert (Hw : IsWritable n = true) by (unfold IsWritable; by rewrite Hrw).
  assert (Hrd : IsReadable n = true) by (unfold IsReadable; by rewrite Hrw).
  destruct (set_by_name_stores i w c name n
              (with_data n (BooleanData (py_bool value))) value
              _set_bool_node_val Hr Hc Hi Hn Ht) as (_ & Hcams & Hget).
  - unfold GetPrincipalInterfaceType. by rewrite Hd.
  - intros w1 s Hc1 Hsn.
    exact (_set_bool_node_val_stores w1 (node_ptr i s name) c n b value Hc1 Hsn Ha Hw Hd).
  - split; [exact Hcams |]. by apply Hget.
Qed.

Lemma boolean_write_by_name_witness :
  fst (set_then_get_node "AcquisitionFrameRateEnable" (VStr "Off")
         (opened_world [demo_camera]))
  = Ok (VBool true).
Proof.
  refine (proj2 (boolean_write_by_name 0 (opened_world [demo_camera]) demo_camera
                   "AcquisitionFrameRateEnable"
                   (mk_node "Acquisition Frame Rate Enable" RW (BooleanData false))
                   false (VStr "Off")
                   (ready_opened_world _) eq_refl eq_refl eq_refl eq_refl eq_refl eq_refl)).
Defined.




(** ** What the methods leave alone *)

Lemma preserves_ret {A X} (f : World -> X) (x : A) : preserves f (ret x).
Proof. by intros w. Qed.

Lemma preserves_raise {A X} (f : World -> X) (e : Exn) : preserves f (raise (A := A) e).
Proof. by intros w. Qed.

Lemma preserves_lift {A X} (f : World -> X) (r : Res A) : preserves f (lift r).
Proof. by intros w. Qed.

Lemma preserves_gets {A X} (f : World -> X) (g : World -> A) : preserves f (gets g).
Proof. by intros w. Qed.

Lemma preserves_bind {A B X} (f : World -> X) (m : M A) (k : A -> M B) :
  preserves f m -> (forall x, preserves f (k x)) -> preserves f (bind m k).
Proof.
  intros Hm Hk w. unfold bind. specialize (Hm w).
  destruct (m w) as [[x | e] w']; cbn [snd] in *; [| done].
  by rewrite (Hk x w').
Qed.

Lemma preserves_try {A X} (f : World -> X) (body : M A) classes (handler : Exn -> M A) :
  preserves f body -> (forall e, preserves f (handler e)) ->
  preserves f (try_except body classes handler).
Proof.
  intros Hb Hh w. unfold try_except. specialize (Hb w).
  destruct (body w) as [[x | e] w']; cbn [snd] in *; [done |].
  destruct (classes e); [| done]. by rewrite (Hh e w').
Qed.

Lemma preserves_when {X} (f : World -> X) (c : bool) (body : M unit) :
  preserves f body -> preserves f (when c body).
Proof. destruct c; [done | intros _; apply preserves_ret]. Qed.

Lemma preserves_modify {X} (f : World -> X) (g : World -> World) :
  (forall w, f (g w) = f w) -> preserves f (modify g).
Proof. intros H w. apply H. Qed.

(** Splits a method into its calls; [known] closes the calls already
    dealt with. *)
Ltac frame_with known :=
  repeat first
    [ progress intros
    | apply preserves_ret | apply preserves_raise | apply preserves_lift
    | apply preserves_gets
    | solve [known]
    | apply preserves_bind
    | apply preserves_try
    | apply preserves_when
    | match goal with
      | |- preserves _ (match ?x with _ => _ end) => destruct x
      | |- preserves _ (if ?x then _ else _) => destruct x
      end ].

Section Frame.
Context {X : Type} (f : World -> X).
Hypothesis Hlog : forall l w, f (with_log l w) = f w.
Hypothesis Hacq : forall a w, f (with_acquirer a w) = f w.

Lemma frame_Gst_info m : preserves f (Gst_info m).
Proof. apply preserves_modify. intros w. apply Hlog. Qed.
Lemma frame_Gst_warning m : preserves f (Gst_warning m).
Proof. apply preserves_modify. intros w. apply Hlog. Qed.
Lemma frame_Gst_error m : preserves f (Gst_error m).
Proof. apply preserves_modify. intros w. apply Hlog. Qed.
Lemma frame_Gst_log m : preserves f (Gst_log m).
Proof. apply preserves_modify. intros w. apply Hlog. Qed.
Lemma frame_put_acq a : preserves f (put_acq a).
Proof. apply preserves_modify. intros w. apply Hacq. Qed.
Lemma frame_self_acq : preserves f self_acq.
Proof. intros w. unfold self_acq. by destruct (image_acquirer w). Qed.
Lemma frame_get_camera i : preserves f (get_camera i).
Proof. intros w. unfold get_camera. by destruct (cameras w !! i). Qed.

Ltac basics :=
  first [ apply frame_Gst_info | apply frame_Gst_warning | apply frame_Gst_error
        | apply frame_Gst_log | apply frame_put_acq | apply frame_self_acq
        | apply frame_get_camera ].

Lemma frame_camera_id p : preserves f (camera_id p).
Proof. unfold camera_id. frame_with basics. Qed.
Lemma frame_IsInitialized p : preserves f (IsInitialized p).
Proof. unfold IsInitialized. frame_with ltac:(first [basics | apply frame_camera_id]). Qed.
Lemma frame_GetNodeMapOf s p : preserves f (GetNodeMapOf s p).
Proof. unfold GetNodeMapOf. frame_with ltac:(first [basics | apply frame_camera_id]). Qed.
Lemma frame_GetNode m name : preserves f (GetNode m name).
Proof. unfold GetNode. frame_with basics. Qed.
Lemma frame_deref p : preserves f (deref p).
Proof. unfold deref. frame_with basics. Qed.

Ltac sdk_reads :=
  first [ basics | apply frame_camera_id | apply frame_IsInitialized
        | apply frame_GetNodeMapOf | apply frame_GetNode | apply frame_deref ].

Lemma frame__get_device_node_map : preserves f _get_device_node_map.
Proof. unfold _get_device_node_map. frame_with sdk_reads. Qed.
Lemma frame__get_tl_device_node_map : preserves f _get_tl_device_node_map.
Proof. unfold _get_tl_device_node_map. frame_with sdk_reads. Qed.
Lemma frame__get_tl_stream_node_map : preserves f _get_tl_stream_node_map.
Proof. unfold _get_tl_stream_node_map. frame_with sdk_reads. Qed.

Ltac node_maps :=
  first [ sdk_reads | apply frame__get_device_node_map
        | apply frame__get_tl_device_node_map | apply frame__get_tl_stream_node_map ].

Lemma frame__get_node name : preserves f (_get_node name).
Proof. unfold _get_node. frame_with node_maps. Qed.

Lemma frame_typed_get (get : NodePtr -> M Value) p :
  get = _get_int_node_val \/ get = _get_float_node_val
  \/ get = _get_bool_node_val \/ get = _get_enum_node_val ->
  preserves f (get p).
Proof.
  intros [-> | [-> | [-> | ->]]];
    unfold _get_int_node_val, _get_float_node_val, _get_bool_node_val,
      _get_enum_node_val, GetCurrentEntry, bad_cast;
    frame_with sdk_reads.
Qed.

Lemma frame_typed_range (range : NodePtr -> M (Value * Value)) p :
  range = _get_int_node_range \/ range = _get_float_node_range ->
  preserves f (range p).
Proof.
  intros [-> | ->]; unfold _get_int_node_range, _get_float_node_range, bad_cast;
    frame_with sdk_reads.
Qed.

Lemma frame__get_available_enum_entries p : preserves f (_get_available_enum_entries p).
Proof. unfold _get_available_enum_entries, bad_cast. frame_with sdk_reads. Qed.

Ltac reads :=
  first [ node_maps | apply frame__get_node
        | apply frame_typed_get; tauto | apply frame_typed_range; tauto
        | apply frame__get_available_enum_entries ].

Lemma frame_node_available name : preserves f (node_available name).
Proof. unfold node_available. frame_with reads. Qed.
Lemma frame_get_node_val name : preserves f (get_node_val name).
Proof. unfold get_node_val. frame_with reads. Qed.
Lemma frame_get_node_range name : preserves f (get_node_range name).
Proof. unfold get_node_range. frame_with reads. Qed.
Lemma frame_get_node_entries name : preserves f (get_node_entries name).
Proof. unfold get_node_entries. frame_with reads. Qed.

Ltac named_reads :=
  first [ reads | apply frame_node_available | apply frame_get_node_val
        | apply frame_get_node_range | apply frame_get_node_entries ].

Lemma frame_cam_node_available name : preserves f (cam_node_available name).
Proof. unfold cam_node_available. frame_with named_reads. Qed.
Lemma frame_get_cam_node_val name : preserves f (get_cam_node_val name).
Proof. unfold get_cam_node_val. frame_with named_reads. Qed.
Lemma frame_get_cam_node_range name : preserves f (get_cam_node_range name).
Proof. unfold get_cam_node_range. frame_with named_reads. Qed.
Lemma frame_get_cam_node_entries name : preserves f (get_cam_node_entries name).
Proof. unfold get_cam_node_entries. frame_with named_reads. Qed.

(** Writes to a device, for what the cameras do not carry. *)
Hypothesis Hcam : forall cs w, f (with_cameras cs w) = f w.

Lemma frame_put_camera i c : preserves f (put_camera i c).
Proof. apply preserves_modify. intros w. apply Hcam. Qed.
Lemma frame_current_device : preserves f current_device.
Proof. unfold current_device. frame_with named_reads. Qed.

Ltac sdk_basics :=
  first [ named_reads | apply frame_put_camera | apply frame_current_device ].

Lemma frame_store p n : preserves f (store p n).
Proof. unfold store. frame_with sdk_basics. Qed.
Lemma frame_IsStreaming p : preserves f (IsStreaming p).
Proof. unfold IsStreaming. frame_with sdk_basics. Qed.
Lemma frame_Init p : preserves f (Init p).
Proof. unfold Init. frame_with sdk_basics. Qed.
Lemma frame_DeInit p : preserves f (DeInit p).
Proof. unfold DeInit. frame_with sdk_basics. Qed.
Lemma frame_BeginAcquisition p : preserves f (BeginAcquisition p).
Proof. unfold BeginAcquisition. frame_with sdk_basics. Qed.
Lemma frame_EndAcquisition p : preserves f (EndAcquisition p).
Proof. unfold EndAcquisition. frame_with sdk_basics. Qed.
Lemma frame_GetNextImage p t : preserves f (GetNextImage p t).
Proof. unfold GetNextImage. frame_with sdk_basics. Qed.
Lemma frame_Release p img : preserves f (Release p img).
Proof. unfold Release. frame_with sdk_basics. Qed.
Lemma frame_GetCameras : preserves f GetCameras.
Proof. apply preserves_gets. Qed.
Lemma frame_GetBySerial l s : preserves f (GetBySerial l s).
Proof. apply preserves_gets. Qed.
Lemma frame_GetByIndex l i : preserves f (GetByIndex l i).
Proof. unfold GetByIndex. frame_with sdk_basics. Qed.

Ltac sdk_calls :=
  first [ sdk_basics | apply frame_store | apply frame_IsStreaming | apply frame_Init
        | apply frame_DeInit | apply frame_BeginAcquisition
        | apply frame_EndAcquisition | apply frame_GetNextImage | apply frame_Release
        | apply frame_GetCameras | apply frame_GetBySerial | apply frame_GetByIndex ].

Lemma frame_typed_set (set : NodePtr -> Value -> M unit) p v :
  set = _set_int_node_val \/ set = _set_float_node_val
  \/ set = _set_bool_node_val \/ set = _set_enum_node_val ->
  preserves f (set p v).
Proof.
  intros [-> | [-> | [-> | ->]]];
    unfold _set_int_node_val, _set_float_node_val, _set_bool_node_val,
      _set_enum_node_val, Integer_SetValue, Float_SetValue, GetEntryByName, bad_cast;
    frame_with sdk_calls.
Qed.
Lemma frame__execute_command_node name : preserves f (_execute_command_node name).
Proof. unfold _execute_command_node, bad_cast. frame_with sdk_calls. Qed.

Ltac setters :=
  first [ sdk_calls | apply frame_typed_set; tauto
        | apply frame__execute_command_node ].

Lemma frame_set_node_val name v : preserves f (set_node_val name v).
Proof. unfold set_node_val. frame_with setters. Qed.
Lemma frame_execute_node name : preserves f (execute_node name).
Proof. unfold execute_node. frame_with setters. Qed.

Ltac named_writes :=
  first [ setters | apply frame_set_node_val | apply frame_execute_node ].

Lemma frame_start_acquisition : preserves f start_acquisition.
Proof. unfold start_acquisition. frame_with named_writes. Qed.
Lemma frame_end_acquisition : preserves f end_acquisition.
Proof. unfold end_acquisition. frame_with named_writes. Qed.
Lemma frame_update_device_list : preserves f update_device_list.
Proof. unfold update_device_list. frame_with named_writes. Qed.
Lemma frame_get_device_count b : preserves f (get_device_count b).
Proof.
  unfold get_device_count.
  frame_with ltac:(first [named_writes | apply frame_update_device_list]).
Qed.
Lemma frame__reset_cam : preserves f _reset_cam.
Proof. unfold _reset_cam. frame_with named_writes. Qed.

Ltac session :=
  first [ named_writes | apply frame_start_acquisition | apply frame_end_acquisition
        | apply frame_update_device_list | apply frame_get_device_count
        | apply frame__reset_cam ].

Lemma frame_init_device serial index : preserves f (init_device serial index).
Proof. unfold init_device. frame_with session. Qed.

Lemma frame_next_complete_image rounds logger :
  (forall log m, logger = Some log -> preserves f (log m)) ->
  preserves f (next_complete_image rounds logger).
Proof.
  intros Hlogger. induction rounds as [| rounds IH]; cbn [next_complete_image].
  - apply preserves_raise.
  - frame_with ltac:(first [session | exact IH | by eapply Hlogger]).
Qed.
Lemma frame_get_next_image logger :
  (forall log m, logger = Some log -> preserves f (log m)) ->
  preserves f (get_next_image logger).
Proof.
  intros Hlogger. unfold get_next_image.
  frame_with ltac:(first [session | by apply frame_next_complete_image]).
Qed.

Lemma frame_set_cam_node_val name v b : preserves f (set_cam_node_val name v b).
Proof. unfold set_cam_node_val. frame_with session. Qed.
Lemma frame_execute_cam_node name b : preserves f (execute_cam_node name b).
Proof. unfold execute_cam_node. frame_with session. Qed.

Ltac wrappers :=
  first [ session | apply frame_set_cam_node_val | apply frame_execute_cam_node
        | apply frame_init_device ].

Lemma frame_apply_caps_to_cam : preserves f apply_caps_to_cam.
Proof. unfold apply_caps_to_cam. frame_with wrappers. Qed.
Lemma frame_apply_properties_to_cam : preserves f apply_properties_to_cam.
Proof. unfold apply_properties_to_cam. frame_with wrappers. Qed.
Lemma frame_probe_formats formats caps : preserves f (probe_formats formats caps).
Proof.
  revert caps. induction formats as [| pf rest IH]; intros caps; cbn [probe_formats].
  - apply preserves_ret.
  - frame_with ltac:(first [wrappers | apply IH]).
Qed.
Lemma frame_get_camera_caps : preserves f get_camera_caps.
Proof. unfold get_camera_caps. frame_with ltac:(first [wrappers | apply frame_probe_formats]). Qed.
Lemma frame_start_streaming : preserves f start_streaming.
Proof. unfold start_streaming. frame_with ltac:(first [wrappers | apply frame_apply_caps_to_cam]). Qed.
End Frame.

(** The callbacks of the element, for what is read off the element and is
    carried by neither the video info, the probed caps nor the timestamps. *)
Section Lifecycle.
Context {X : Type} (g : PySpinSrc -> X).
Hypothesis Hinfo : forall i s, g (with_info i s) = g s.
Hypothesis Hcaps : forall c s, g (with_camera_caps c s) = g s.

Ltac element_only lemma := apply (lemma _ (of_element g)); intros; reflexivity.

Ltac methods :=
  first [ apply preserves_modify; intros; unfold of_element;
          cbn [element with_element with_system_held with_acquirer with_cameras];
          first [reflexivity | apply Hinfo | apply Hcaps]
        | element_only @frame_Gst_info | element_only @frame_Gst_error
        | element_only @frame_self_acq | element_only @frame_put_acq
        | element_only @frame__reset_cam | element_only @frame_init_device
        | element_only @frame_apply_properties_to_cam
        | element_only @frame_get_camera_caps | element_only @frame_start_streaming
        | element_only @frame_GetCameras ].

Lemma kept_by_ImageAcquirer_init : preserves (of_element g) ImageAcquirer_init.
Proof. unfold ImageAcquirer_init. frame_with methods. Qed.
Lemma kept_by_ImageAcquirer_del : preserves (of_element g) ImageAcquirer_del.
Proof. unfold ImageAcquirer_del. frame_with methods. Qed.
Lemma kept_by_do_set_caps i : preserves (of_element g) (do_set_caps i).
Proof. unfold do_set_caps. frame_with methods. Qed.
Lemma kept_by_do_start : preserves (of_element g) do_start.
Proof.
  unfold do_start.
  frame_with ltac:(first [methods | apply kept_by_ImageAcquirer_init]).
Qed.
Lemma kept_by_do_stop : preserves (of_element g) do_stop.
Proof.
  unfold do_stop.
  frame_with ltac:(first [methods | apply kept_by_ImageAcquirer_del]).
Qed.

Hypothesis Htime : forall o p s, g (with_timestamps o p s) = g s.

Lemma kept_by_do_gst_push_src_fill buffer : preserves (of_element g) (do_gst_push_src_fill buffer).
Proof.
  unfold do_gst_push_src_fill.
  frame_with ltac:(first
    [ methods
    | apply preserves_modify; intros; unfold of_element; cbn [element with_element];
      apply Htime
    | element_only @frame_Gst_log
    | apply (frame_get_next_image (of_element g)); intros; try reflexivity;
      simplify_eq; element_only @frame_Gst_warning ]).
Qed.
End Lifecycle.

(** X12.  Reading by name never writes: availability, value, range and
    entries of a node, through the acquirer or through the element's
    wrappers, leave every camera, the SDK instance and the element as they
    were, whatever they return or raise.  (The acquirer's memoised node
    maps and the log are all they may change.) *)
Theorem reads_leave_devices (name : string) :
  preserves devices (node_available name)
  /\ preserves devices (get_node_val name)
  /\ preserves devices (get_node_range name)
  /\ preserves devices (get_node_entries name)
  /\ preserves devices (cam_node_available name)
  /\ preserves devices (get_cam_node_val name)
  /\ preserves devices (get_cam_node_range name)
  /\ preserves devices (get_cam_node_entries name).
Proof.
  split_and!;
    [ apply frame_node_available | apply frame_get_node_val
    | apply frame_get_node_range | apply frame_get_node_entries
    | apply frame_cam_node_available | apply frame_get_cam_node_val
    | apply frame_get_cam_node_range | apply frame_get_cam_node_entries ];
    reflexivity.
Qed.

(** X13.  No callback of the element writes a property: opening the
    device, applying properties and caps, filling buffers and stopping
    leave all fourteen property values as they were set.  What the device
    made of a value (a clamped gain, say) is never written back. *)
Theorem callbacks_keep_settings (i : VideoInfo) (buffer : Buffer) :
  preserves (of_element settings) do_start
  /\ preserves (of_element settings) (do_set_caps i)
  /\ preserves (of_element settings) (do_gst_push_src_fill buffer)
  /\ preserves (of_element settings) do_stop.
Proof.
  split_and!;
    [ apply kept_by_do_start | apply kept_by_do_set_caps
    | apply kept_by_do_gst_push_src_fill | apply kept_by_do_stop ];
    reflexivity.
Qed.

(** X14.  The timestamp baseline is set by the fill function only:
    stopping, starting and setting caps leave offset and previous
    timestamp as they were, so a restarted element keeps stamping its
    frames against the first capture of the session before. *)
Theorem restart_keeps_timestamp_baseline (i : VideoInfo) :
  preserves (of_element baseline) do_stop
  /\ preserves (of_element baseline) do_start
  /\ preserves (of_element baseline) (do_set_caps i).
Proof.
  split_and!;
    [ apply kept_by_do_stop | apply kept_by_do_start | apply kept_by_do_set_caps ];
    reflexivity.
Qed.

(** ** Errors at the callbacks *)

(** X15.  The fill function never raises.  When the acquisition gives no
    frame (a time-out on an empty queue, an SDK error, no acquirer), it
    answers [ERROR]: the buffer is handed back as it came, the timestamp
    baseline is the one before the call, and the error is the last entry of
    the log. *)
Theorem fill_reports_errors (buffer : Buffer) (w : World) :
  (exists r b, fst (do_gst_push_src_fill buffer w) = Ok (r, b))
  /\ (forall e,
        fst (get_next_image (Some Gst_warning) w) = Raise e ->
        fst (do_gst_push_src_fill buffer w) = Ok (FLOW_ERROR, buffer)
        /\ baseline (element (snd (do_gst_push_src_fill buffer w)))
           = baseline (element w)
        /\ last (gst_log (snd (do_gst_push_src_fill buffer w)))
           = Some (GstError (OfExn e))).
Proof.
  pose proof (frame_get_next_image (of_element baseline) (fun _ _ => eq_refl)
                (Some Gst_warning)) as Hkeep.
  specialize (Hkeep ltac:(intros log m [= <-]; by apply frame_Gst_warning) w).
  destruct (do_gst_push_src_fill buffer w) as [res w'] eqn:E. cbn [fst snd].
  unfold do_gst_push_src_fill, try_except in E. rewrite bind_eq in E.
  destruct (get_next_image (Some Gst_warning) w) as [[[image ts] | e] w1];
    cbn [fst snd] in *.
  - split; [| discriminate].
    revert E. unfold Gst_log. run_method.
    destruct (timestamp_offset (element w1) =? 0); intros [= <- <-];
      by eexists _, _.
  - revert E. cbn [is_Exception]. unfold Gst_error. run_method. intros [= <- <-].
    split; [by exists FLOW_ERROR, buffer |].
    intros e' [= <-]. split; [reflexivity |]. split; [exact Hkeep |].
    cbn [gst_log with_log]. apply last_snoc.
Qed.

Lemma fill_reports_errors_witness :
  fst (do_gst_push_src_fill blank_buffer (opened_world [streaming_camera []]))
  = Ok (FLOW_ERROR, blank_buffer).
Proof.
  exact (proj1 (proj2 (fill_reports_errors blank_buffer
                         (opened_world [streaming_camera []]))
                  (SpinnakerException CallGetNextImage) eq_refl)).
Defined.

(** X16.  Starting and stopping never raise.  [do_stop] answers [True]
    whatever teardown did, and leaves the element without an acquirer. *)
Theorem start_and_stop_never_raise (w : World) :
  (exists started, fst (do_start w) = Ok started)
  /\ fst (do_stop w) = Ok true
  /\ image_acquirer (snd (do_stop w)) = None.
Proof.
  split; [| split].
  - unfold do_start, bind at 1. unfold Gst_info at 1, modify at 1.
    unfold try_except at 1.
    match goal with |- context [match ?m ?x with _ => _ end] =>
      destruct (m x) as [[b | e] w1] end.
    + by exists b.
    + cbn [is_Exception]. unfold Gst_error. run_method. by exists false.
  - unfold do_stop, self_acq, Gst_info, Gst_error. run_method.
    cbn [image_acquirer with_log].
    destruct (image_acquirer w) as [a|]; [| reflexivity].
    by destruct (ImageAcquirer_del _) as [[[] | e] w1].
  - unfold do_stop, self_acq, Gst_info, Gst_error. run_method.
    cbn [image_acquirer with_log].
    destruct (image_acquirer w) as [a|] eqn:Ha; [| exact Ha].
    by destruct (ImageAcquirer_del _) as [[[] | e] w1].
Qed.

(** ** Timestamps of a session *)






(** ** Starting without a device *)

(** [init_device] on an acquirer without a prior handle, when the spec
    resolves no candidate: whether SDK calls would fail does not matter,
    none is made on a camera. *)
Lemma init_device_no_candidate (w : World) (a : ImageAcquirer) serial index :
  image_acquirer w = Some a ->
  _current_device a = None ->
  resolve_device (cameras w) serial index = None ->
  init_device serial index w
  = (Raise (ValueError (MsgNoDevice serial index)),
     with_acquirer (Some (opened_acquirer a (length (cameras w)) None)) w).
Proof.
  intros Ha Hd Hres. unfold init_device.
  assert (Hidle : _reset_cam w = (Ok tt, with_acquirer (Some (reset_acquirer a)) w))
    by (apply _reset_cam_idle; [exact Ha | by rewrite Hd]).
  rewrite (bind_ok _ _ _ _ _ Hidle).
  set (w1 := with_acquirer _ w).
  rewrite (bind_ok _ _ _ _ _ (update_device_list_eq w1 (reset_acquirer a) eq_refl)).
  set (w2 := with_acquirer _ w1).
  rewrite (bind_ok _ _ _ _ _ (self_acq_eq w2 _ eq_refl)).
  cbn [_device_list set_device_list cameras w1 with_acquirer].
  assert (Hserial :
            match serial with
            | Some s => let* d := GetBySerial (seq 0 (length (cameras w))) s in ret [d]
            | None => ret []
            end w2
            = (Ok match serial with
                  | Some s => [match serial_match (cameras w) s with
                               | Some j => CamRef j
                               | None => NullPtr
                               end]
                  | None => []
                  end, w2)).
  { destruct serial as [s|]; [| reflexivity].
    by rewrite (bind_ok _ _ _ _ _ (GetBySerial_match w2 s)). }
  rewrite (bind_ok _ _ _ _ _ Hserial).
  assert (Hindex :
            match index with
            | Some k =>
                let* count := get_device_count false in
                if (k <? count)%nat
                then let* d := GetByIndex (seq 0 (length (cameras w))) k in ret [d]
                else ret []
            | None => ret []
            end w2
            = (Ok match index with
                  | Some k => if (k <? length (cameras w))%nat then [CamRef k] else []
                  | None => []
                  end, w2)).
  { destruct index as [k|]; [| reflexivity].
    assert (Hcount : get_device_count false w2 = (Ok (length (cameras w)), w2)).
    { unfold get_device_count, self_acq. run_method. simpl. by rewrite length_seq. }
    rewrite (bind_ok _ _ _ _ _ Hcount).
    destruct (Nat.ltb_spec k (length (cameras w))); [| reflexivity].
    unfold GetByIndex. by rewrite lookup_seq_lt. }
  rewrite (bind_ok _ _ _ _ _ Hindex).
  rewrite (bind_ok _ _ _ _ _ (self_acq_eq w2 _ eq_refl)).
  rewrite first_valid_candidates, Hres. cbn [fmap option_fmap option_map].
  reflexivity.
Qed.

Lemma try_except_caught {A} (body : M A) classes (handler : Exn -> M A) w e w' :
  body w = (Raise e, w') -> classes e = true ->
  try_except body classes handler w = handler e w'.
Proof. intros H Hc. unfold try_except. by rewrite H, Hc. Qed.

Lemma do_start_no_candidate (w : World) (wanted : option string) :
  serial (element w) = serial_value wanted ->
  resolve_device (cameras w) wanted (start_index wanted) = None ->
  exists a l,
    _current_device a = None
    /\ do_start w
       = (Ok false,
          with_log (l ++ [GstError (OfExn (ValueError
                                             (MsgNoDevice wanted (start_index wanted))))])
            (with_acquirer (Some a) (with_system_held true w))).
Proof.
  intros Hserial Hres.
  set (w0 := with_log (gst_log w ++ [GstInfo (Text "Starting")]) w).
  set (fresh := {| _device_list := seq 0 (length (cameras w));
                   _current_device := None;
                   _device_node_map := None;
                   _tl_device_node_map := None;
                   _tl_stream_node_map := None |}).
  set (w1 := with_acquirer (Some fresh) (with_system_held true w0)).
  assert (Hinit : init_device wanted (start_index wanted) w1
                  = (Raise (ValueError (MsgNoDevice wanted (start_index wanted))),
                     with_acquirer
                       (Some (opened_acquirer fresh (length (cameras w1)) None)) w1))
    by (apply init_device_no_candidate; [reflexivity | reflexivity | exact Hres]).
  exists (opened_acquirer fresh (length (cameras w)) None),
    (gst_log w ++ [GstInfo (Text "Starting")])%list.
  split; [reflexivity |].
  unfold do_start.
  rewrite (bind_ok (Gst_info (Text "Starting")) _ w tt w0 eq_refl).
  match goal with
  | |- try_except ?body _ _ _ = _ =>
      assert (Hbody : body w0
                      = (Raise (ValueError (MsgNoDevice wanted (start_index wanted))),
                         with_acquirer
                           (Some (opened_acquirer fresh (length (cameras w1)) None)) w1))
  end.
  { rewrite (bind_ok ImageAcquirer_init _ w0 tt w1 eq_refl).
    rewrite (bind_ok (gets element) _ w1 (element w) w1 eq_refl).
    rewrite Hserial. destruct wanted as [s|]; cbn [serial_value start_index] in *.
    - rewrite (bind_ok (ret (Some s)) _ w1 (Some s) w1 eq_refl).
      exact (bind_raise _ _ _ _ _ Hinit).
    - rewrite (bind_ok (ret None) _ w1 None w1 eq_refl).
      exact (bind_raise _ _ _ _ _ Hinit). }
  rewrite (try_except_caught _ _ _ _ _ _ Hbody eq_refl). reflexivity.
Qed.

(** X18.  Starting without a device to open, for an element that holds no
    acquirer (a new element, or one that was stopped).  With no serial set
    and no camera attached, or with a serial set that no attached camera
    has,
    [do_start] answers [False] and logs the no-device error; a serial that
    matches nothing is not replaced by the first camera.  No camera is
    touched, and the failed start leaves the SDK instance held by an
    acquirer with no device. *)
Theorem do_start_without_device (w : World) (wanted : option string) :
  image_acquirer w = None ->
  serial (element w) = serial_value wanted ->
  match wanted with
  | Some s => serial_match (cameras w) s = None
  | None => cameras w = []
  end ->
  fst (do_start w) = Ok false
  /\ cameras (snd (do_start w)) = cameras w
  /\ system_held (snd (do_start w)) = true
  /\ (_current_device <$> image_acquirer (snd (do_start w))) = Some None
  /\ last (gst_log (snd (do_start w)))
     = Some (GstError (OfExn (ValueError (MsgNoDevice wanted (start_index wanted))))).
Proof.
  intros _ Hserial Hnone.
  assert (Hres : resolve_device (cameras w) wanted (start_index wanted) = None).
  { unfold resolve_device. destruct wanted as [s|]; cbn [mbind option_bind start_index].
    - by rewrite Hnone.
    - rewrite Hnone. reflexivity. }
  destruct (do_start_no_candidate w wanted Hserial Hres) as (a & l & Ha & ->).
  cbn [fst snd cameras system_held image_acquirer gst_log with_log with_acquirer
       with_system_held fmap option_fmap option_map].
  split_and!; try reflexivity; [by rewrite Ha | apply last_snoc].
Qed.

Lemma do_start_without_device_witness :
  fst (do_start (unstarted_world [])) = Ok false
  /\ fst (do_start
            (with_element (set_attr a_serial (VStr "B") PySpinSrc_init)
               (unstarted_world [demo_camera])))
     = Ok false.
Proof.
  split.
  - exact (proj1 (do_start_without_device (unstarted_world []) None
                    eq_refl eq_refl eq_refl)).
  - exact (proj1 (do_start_without_device
                    (with_element (set_attr a_serial (VStr "B") PySpinSrc_init)
                       (unstarted_world [demo_camera]))
                    (Some "B") eq_refl eq_refl eq_refl)).
Defined.

(** ** The element's wrappers *)

(** A wrapper around a call that fails with an error of the caught classes
    answers its default after one warning. *)
Lemma soft_failure {A} (body : M A) (handler : Exn -> M A) (d : A) (w : World) (e : Exn) :
  (forall ex w1,
      handler ex w1 = (Ok d, with_log (gst_log w1 ++ [GstWarning (OfExn ex)]) w1)) ->
  fails_with body w e ->
  is_value_or_not_implemented e = true ->
  warns (try_except body is_value_or_not_implemented handler) w e d.
Proof.
  intros Hh [Hraise (Hcams & _ & Helem & Hlog)] Hclass. unfold warns, try_except.
  destruct (body w) as [r w1]. cbn [fst snd] in *. subst r. rewrite Hclass, Hh.
  cbn [fst snd cameras element gst_log with_log].
  split_and!; [reflexivity | exact Hcams | exact Helem | by rewrite Hlog].
Qed.

Lemma resolved_node_None (c : Camera) (name : string) :
  resolved_node c name = None -> first_scope_with c name = None.
Proof.
  unfold resolved_node. destruct (first_scope_with c name) as [s|] eqn:Hs; [| done].
  cbn [mbind option_bind]. intros Hnone.
  unfold first_scope_with in Hs. apply List.find_some in Hs as [_ Hs].
  apply bool_decide_eq_true_1 in Hs as [n Hn]. congruence.
Qed.

(** The accessors of the acquirer on a name that no scope has. *)
Lemma unknown_node_fails (i : nat) (w : World) (c : Camera) (name : string) :
  ready i w ->
  cameras w !! i = Some c ->
  cam_initialized c = true ->
  resolved_node c name = None ->
  fails_with (get_node_val name) w (ValueError (MsgNodeNotAvailable name))
  /\ fails_with (get_node_range name) w (ValueError (MsgNodeNotAvailable name))
  /\ fails_with (get_node_entries name) w (ValueError (MsgNodeNotAvailable name))
  /\ (forall value,
        fails_with (set_node_val name value) w (ValueError (MsgNodeNotAvailable name)))
  /\ fails_with (execute_node name) w (ValueError (MsgNodeNotAvailable name))
  /\ fst (node_available name w) = Ok false
  /\ same_devices w (snd (node_available name w)).
Proof.
  intros Hr Hc Hi Hnone.
  destruct (_get_node_resolves i w c name Hr Hc Hi) as (w1 & E & _ & Hsame).
  rewrite (resolved_node_None c name Hnone) in E. cbn [fmap option_fmap option_map] in E.
  unfold fails_with, get_node_val, get_node_range, get_node_entries, set_node_val,
    execute_node, node_available.
  split_and!; intros; rewrite (bind_ok _ _ _ _ _ E); done.
Qed.

(** X19.  A node the device does not have is a soft failure for the
    element: on a name that none of the three node maps holds, the wrappers
    answer their defaults ([None], [(None, None)], no entries, nothing for
    a write or an execution) after one warning, instead of raising;
    [cam_node_available] answers [False] without a warning.  No camera and
    no property changes. *)
Theorem unknown_node_is_soft_failure (i : nat) (w : World) (c : Camera) (name : string) :
  ready i w ->
  cameras w !! i = Some c ->
  cam_initialized c = true ->
  resolved_node c name = None ->
  warns (get_cam_node_val name) w (ValueError (MsgNodeNotAvailable name)) VNone
  /\ warns (get_cam_node_range name) w (ValueError (MsgNodeNotAvailable name))
       (VNone, VNone)
  /\ warns (get_cam_node_entries name) w (ValueError (MsgNodeNotAvailable name)) []
  /\ (forall value log_value,
        warns (set_cam_node_val name value log_value) w
          (ValueError (MsgNodeNotAvailable name)) tt)
  /\ (forall log_execution,
        warns (execute_cam_node name log_execution) w
          (ValueError (MsgNodeNotAvailable name)) tt)
  /\ fst (cam_node_available name w) = Ok false
  /\ gst_log (snd (cam_node_available name w)) = gst_log w.
Proof.
  intros Hr Hc Hi Hnone.
  destruct (unknown_node_fails i w c name Hr Hc Hi Hnone)
    as (Hval & Hrange & Hentries & Hset & Hexec & Havail & Hsame).
  split_and!.
  - by apply soft_failure.
  - by apply soft_failure.
  - by apply soft_failure.
  - intros value log_value. apply soft_failure; [done | | done].
    destruct (Hset value) as [Hraise Hdev]. unfold fails_with, bind.
    destruct (set_node_val name value w) as [r w1]. cbn [fst snd] in *. by subst r.
  - intros log_execution. apply soft_failure; [done | | done].
    destruct Hexec as [Hraise Hdev]. unfold fails_with, bind.
    destruct (execute_node name w) as [r w1]. cbn [fst snd] in *. by subst r.
  - unfold cam_node_available, try_except.
    destruct (node_available name w) as [r w1]. cbn [fst] in Havail. by subst r.
  - unfold cam_node_available, try_except.
    destruct (node_available name w) as [r w1]. cbn [fst snd] in *. subst r.
    cbn [snd]. exact (proj2 (proj2 (proj2 Hsame))).
Qed.

Lemma unknown_node_is_soft_failure_witness :
  warns (get_cam_node_val "BalanceWhiteAuto") (opened_world [demo_camera])
    (ValueError (MsgNodeNotAvailable "BalanceWhiteAuto")) VNone.
Proof.
  exact (proj1 (unknown_node_is_soft_failure 0 (opened_world [demo_camera]) demo_camera
                  "BalanceWhiteAuto" (ready_opened_world _) eq_refl eq_refl eq_refl)).
Defined.

(** X20.  [do_set_caps] is the one callback that can raise.  For caps
    whose format the table does not list, the lookup gives [None], the
    attribute access on it raises [AttributeError], and neither the
    [except (ValueError, NotImplementedError)] of [apply_caps_to_cam] nor
    anything above it catches that: the exception leaves [do_set_caps],
    with no camera touched. *)
Theorem unlisted_format_raises (i : VideoInfo) (w : World) :
  get_format_from_gst (finfo_name i) = None ->
  fst (do_set_caps i w) = Raise (AttributeError MsgNoneAttribute)
  /\ cameras (snd (do_set_caps i w)) = cameras w.
Proof.
  intros Hnone.
  unfold do_set_caps, start_streaming, apply_caps_to_cam, Gst_info. run_method.
  cbn [element with_element with_log info with_info]. rewrite Hnone.
  cbn [is_value_or_not_implemented fst snd cameras with_element with_log].
  by split.
Qed.

Lemma unlisted_format_raises_witness :
  fst (do_set_caps {| finfo_name := "GRAY16_LE"; info_width := 640; info_height := 480;
                      fps_n := 30; fps_d := 1 |} (opened_world [demo_camera]))
  = Raise (AttributeError MsgNoneAttribute).
Proof.
  exact (proj1 (unlisted_format_raises
                  {| finfo_name := "GRAY16_LE"; info_width := 640; info_height := 480;
                     fps_n := 30; fps_d := 1 |} (opened_world [demo_camera]) eq_refl)).
Defined.

(** ** Stopping *)

Lemma do_stop_bound (w : World) (a : ImageAcquirer) :
  image_acquirer w = Some a ->
  do_stop w
  = (Ok true,
     with_acquirer None
       (snd (ImageAcquirer_del (with_log (gst_log w ++ [GstInfo (Text "Stopping")]) w)))).
Proof.
  intros Ha. unfold do_stop.
  rewrite (bind_ok (Gst_info (Text "Stopping")) _ w tt _ eq_refl).
  set (w0 := with_log _ w).
  rewrite bind_eq. unfold try_except at 1.
  rewrite (bind_ok self_acq _ w0 a w0 (self_acq_eq w0 a Ha)).
  unfold bind, try_except, modify, ret.
  by destruct (ImageAcquirer_del w0) as [[[] | e] w1].
Qed.

(** X21.  What [do_stop] leaves behind.  When no SDK call fails, the
    camera the acquirer had open ends up neither streaming nor
    initialised, the SDK instance is released and the element has no
    acquirer.  When stopping or deinitialising the camera raises, [do_stop]
    still answers [True]: the SDK instance stays as it was, held. *)
Theorem do_stop_closes_session (w : World) (a : ImageAcquirer) :
  image_acquirer w = Some a ->
  (forall j, _current_device a = Some (CamRef j) -> is_Some (cameras w !! j)) ->
  (fault_free (cameras w) ->
   fst (do_stop w) = Ok true
   /\ cameras (snd (do_stop w)) = close_prior a (cameras w)
   /\ system_held (snd (do_stop w)) = false
   /\ image_acquirer (snd (do_stop w)) = None)
  /\ (forall e,
        fst (_reset_cam (with_log (gst_log w ++ [GstInfo (Text "Stopping")]) w)) = Raise e ->
        fst (do_stop w) = Ok true
        /\ system_held (snd (do_stop w)) = system_held w).
Proof.
  intros Ha Hprior. rewrite (do_stop_bound w a Ha).
  set (w0 := with_log _ w). cbn [fst snd].
  assert (Ha0 : image_acquirer w0 = Some a) by exact Ha.
  split.
  - intros Hff.
    pose proof (_reset_cam_closes w0 a Ha0 Hprior Hff) as Hreset.
    unfold ImageAcquirer_del.
    rewrite (bind_ok _ _ _ _ _ Hreset).
    set (w1 := with_acquirer (Some (reset_acquirer a)) _).
    rewrite (bind_ok self_acq _ w1 _ w1 (self_acq_eq w1 (reset_acquirer a) eq_refl)).
    by split_and!.
  - intros e He.
    destruct (_reset_cam_outcome w0 a Ha0) as [Hsys _].
    unfold ImageAcquirer_del, bind.
    destruct (_reset_cam w0) as [[[] | e'] w1]; [discriminate |].
    split; [reflexivity |]. exact Hsys.
Qed.

Lemma do_stop_closes_session_witness :
  cameras (snd (do_stop (opened_world [streaming_camera []])))
  = [with_status (streaming_camera []) false false]
  /\ system_held (snd (do_stop unplugged_world)) = true.
Proof.
  split.
  - exact (proj1 (proj2 (proj1 (do_stop_closes_session
                                  (opened_world [streaming_camera []]) (acquirer_on 1 0)
                                  eq_refl
                                  ltac:(intros j [= <-]; eexists; reflexivity))
                           ltac:(repeat constructor)))).
  - exact (proj2 (proj2 (do_stop_closes_session unplugged_world (acquirer_on 1 0)
                           eq_refl ltac:(intros j [= <-]; eexists; reflexivity))
                    (SpinnakerException CallEndAcquisition) eq_refl)).
Defined.
